(** * Antigravity client pipeline: SSE parsing, tool-argument
      normalization, name sanitization, thought-signature cache,
      thinking configuration and endpoint fallback.

    Shallow embedding of the TypeScript sources.  JavaScript strings
    are sequences of UTF-16 code units; a code unit is a number of
    type [N].  Platform functions used by the sources ([String]
    methods, [JSON.parse], [TextDecoder], SHA-256) are modelled after
    their standards, the repository's functions after their code. *)

From Stdlib Require Import NArith ZArith List Bool Lia String Ascii.
From stdpp Require Import gmap.
Import ListNotations.

Local Open Scope nat_scope.

(** ** JavaScript strings *)

Module JsString.

Abbreviation jsstring := (list N).

(** Code units of an ASCII literal. *)
Definition u (s : string) : jsstring :=
  map (fun a => N_of_ascii a) (list_ascii_of_string s).

Fixpoint eqb (a b : jsstring) : bool :=
  match a, b with
  | [], [] => true
  | x :: a', y :: b' => N.eqb x y && eqb a' b'
  | _, _ => false
  end.

(** [s.startsWith(p)] *)
Fixpoint startsWith (s p : jsstring) {struct p} : bool :=
  match p, s with
  | [], _ => true
  | _ :: _, [] => false
  | y :: p', x :: s' => N.eqb x y && startsWith s' p'
  end.

(** [s.endsWith(p)] *)
Definition endsWith (s p : jsstring) : bool :=
  startsWith (rev s) (rev p).

(** [s.indexOf(p)], with -1 when [p] does not occur. *)
Fixpoint indexOf_from (i : Z) (s p : jsstring) : Z :=
  if startsWith s p then i
  else match s with
       | [] => (-1)%Z
       | _ :: s' => indexOf_from (i + 1)%Z s' p
       end.

Definition indexOf (s p : jsstring) : Z := indexOf_from 0%Z s p.

(** [s.includes(p)] *)
Definition includes (s p : jsstring) : bool :=
  negb (Z.eqb (indexOf s p) (-1)%Z).

(** [s.lastIndexOf(p)], with -1 when [p] does not occur. *)
Fixpoint lastIndexOf_from (i : Z) (s p : jsstring) : Z :=
  match s with
  | [] => if startsWith s p then i else (-1)%Z
  | _ :: s' =>
      let later := lastIndexOf_from (i + 1)%Z s' p in
      if Z.eqb later (-1)%Z
      then (if startsWith s p then i else (-1)%Z)
      else later
  end.

Definition lastIndexOf (s p : jsstring) : Z := lastIndexOf_from 0%Z s p.

(** Relative index of [slice]: negative counts from the end. *)
Definition rel_index (len i : Z) : Z :=
  if (i <? 0)%Z then Z.max (len + i) 0 else Z.min i len.

(** [s.slice(from, to)] *)
Definition slice (s : jsstring) (from to : Z) : jsstring :=
  let len := Z.of_nat (length s) in
  let a := rel_index len from in
  let b := rel_index len to in
  firstn (Z.to_nat (Z.max (b - a) 0)) (skipn (Z.to_nat a) s).

(** [s.slice(from)] *)
Definition slice_from (s : jsstring) (from : Z) : jsstring :=
  slice s from (Z.of_nat (length s)).

(** White space and line terminators removed by [trim]. *)
Definition isTrimSpace (c : N) : bool :=
  existsb (N.eqb c)
    [9; 10; 11; 12; 13; 32; 160; 5760; 8192; 8193; 8194; 8195; 8196;
     8197; 8198; 8199; 8200; 8201; 8202; 8232; 8233; 8239; 8287;
     12288; 65279]%N.

Fixpoint trimStart (s : jsstring) : jsstring :=
  match s with
  | c :: s' => if isTrimSpace c then trimStart s' else s
  | [] => []
  end.

Definition trimEnd (s : jsstring) : jsstring := rev (trimStart (rev s)).

(** [s.trim()] *)
Definition trim (s : jsstring) : jsstring := trimEnd (trimStart s).

(** [s.split(c)] for a separator of one code unit. *)
Fixpoint split (c : N) (s : jsstring) : list jsstring :=
  match s with
  | [] => [[]]
  | x :: s' =>
      if N.eqb x c then [] :: split c s'
      else match split c s' with
           | h :: t => (x :: h) :: t
           | [] => [[x]]
           end
  end.

(** [parts.join(sep)] *)
Fixpoint join (sep : jsstring) (parts : list jsstring) : jsstring :=
  match parts with
  | [] => []
  | [p] => p
  | p :: rest => p ++ sep ++ join sep rest
  end.

(** [s.split(/\r?\n/)] *)
Fixpoint splitLines (s : jsstring) : list jsstring :=
  match s with
  | [] => [[]]
  | x :: s' =>
      let keep := match splitLines s' with
                  | h :: t => (x :: h) :: t
                  | [] => [[x]]
                  end in
      if N.eqb x 10 then [] :: splitLines s'
      else if N.eqb x 13 then
        match s' with
        | y :: s'' => if N.eqb y 10 then [] :: splitLines s'' else keep
        | [] => keep
        end
      else keep
  end.

(** Decimal digits of a natural number, as [String(n)] and
    template literals print it. *)
Fixpoint digitsOf (fuel n : nat) (acc : jsstring) : jsstring :=
  match fuel with
  | 0 => acc
  | S f =>
      let acc' := (48 + N.of_nat (n mod 10))%N :: acc in
      if n / 10 =? 0 then acc' else digitsOf f (n / 10) acc'
  end.

Definition natToString (n : nat) : jsstring := digitsOf (S n) n [].

End JsString.

Import JsString.

(** ** Own properties of a JavaScript object used as a record *)

Module JsObject.

Section Props.
Context {V : Type}.

(** [o[k] = v] *)
Fixpoint set (o : list (jsstring * V)) (k : jsstring) (v : V)
  : list (jsstring * V) :=
  match o with
  | [] => [(k, v)]
  | (k', v') :: o' =>
      if JsString.eqb k' k then (k', v) :: o'
      else (k', v') :: set o' k v
  end.

(** [o[k]] *)
Fixpoint get (o : list (jsstring * V)) (k : jsstring) : option V :=
  match o with
  | [] => None
  | (k', v') :: o' => if JsString.eqb k' k then Some v' else get o' k
  end.

(** [delete o[k]] *)
Fixpoint delete (o : list (jsstring * V)) (k : jsstring)
  : list (jsstring * V) :=
  match o with
  | [] => []
  | (k', v') :: o' =>
      if JsString.eqb k' k then delete o' k else (k', v') :: delete o' k
  end.

(** [k in o] *)
Definition has (o : list (jsstring * V)) (k : jsstring) : bool :=
  match get o k with Some _ => true | None => false end.

(** [o[k] = v] for an object [o] that an object literal made and
    that has, so far, been assigned to under other keys only.  Under
    the key __proto__ the assignment reaches the setter of
    [Object.prototype] and defines no property of [o]: it changes
    the prototype of [o] when [v] is an object or null, and does
    nothing otherwise.  An object is modelled by its own properties,
    which any later assignment under another key defines as before. *)
Definition assign (o : list (jsstring * V)) (k : jsstring) (v : V)
  : list (jsstring * V) :=
  if JsString.eqb k (u "__proto__") then o else set o k v.
End Props.

End JsObject.

(** ** JSON values and [JSON.parse] *)

Module Json.

(** A JavaScript value as [JSON.parse] returns it.  A number keeps
    the numeric token it was read from; an object keeps its own
    properties, under distinct keys, in the order in which they were
    first defined (the order of integer-like keys is not modelled). *)
#[warnings="-register-all"]
Inductive json : Type :=
| JNull
| JBool (b : bool)
| JNumber (lexeme : jsstring)
| JString (s : jsstring)
| JArray (items : list json)
| JObject (props : list (jsstring * json)).

(** [typeof v === 'string'] *)
Definition isString (v : json) : bool :=
  match v with JString _ => true | _ => false end.

(** Outcome of a parser run: a value, the [SyntaxError] that
    [JSON.parse] throws, or exhaustion of the recursion fuel. *)
Inductive result (A : Type) : Type :=
| Ok (a : A)
| SyntaxError
| OutOfFuel.
Arguments Ok {A} a.
Arguments SyntaxError {A}.
Arguments OutOfFuel {A}.

Definition bind {A B} (r : result A) (k : A -> result B) : result B :=
  match r with
  | Ok a => k a
  | SyntaxError => SyntaxError
  | OutOfFuel => OutOfFuel
  end.

Notation "'let*' p ':=' r 'in' k" := (bind r (fun p => k))
  (at level 10, p pattern, r at level 200, k at level 200).

Definition isJsonWs (c : N) : bool :=
  N.eqb c 32 || N.eqb c 9 || N.eqb c 10 || N.eqb c 13.

Fixpoint skipWs (s : jsstring) : jsstring :=
  match s with
  | c :: s' => if isJsonWs c then skipWs s' else s
  | [] => []
  end.

Definition isDigit (c : N) : bool := N.leb 48 c && N.leb c 57.

Definition hexValue (c : N) : option N :=
  if N.leb 48 c && N.leb c 57 then Some (c - 48)%N
  else if N.leb 97 c && N.leb c 102 then Some (c - 87)%N
  else if N.leb 65 c && N.leb c 70 then Some (c - 55)%N
  else None.

(** Code unit denoted by a one-letter escape. *)
Definition simpleEscape (c : N) : option N :=
  if N.eqb c 34 then Some 34%N          (* quote *)
  else if N.eqb c 92 then Some 92%N     (* backslash *)
  else if N.eqb c 47 then Some 47%N     (* slash *)
  else if N.eqb c 98 then Some 8%N      (* b *)
  else if N.eqb c 102 then Some 12%N    (* f *)
  else if N.eqb c 110 then Some 10%N    (* n *)
  else if N.eqb c 114 then Some 13%N    (* r *)
  else if N.eqb c 116 then Some 9%N     (* t *)
  else None.

Definition hex4 (a b c d : N) : option N :=
  match hexValue a, hexValue b, hexValue c, hexValue d with
  | Some x, Some y, Some z, Some w =>
      Some (((x * 16 + y) * 16 + z) * 16 + w)%N
  | _, _, _, _ => None
  end.

(** The characters of a string literal after its opening quote, up
    to and including the closing quote. *)
Fixpoint parseStringBody (s : jsstring) : result (jsstring * jsstring) :=
  match s with
  | [] => SyntaxError
  | c :: r =>
      if N.eqb c 34 then Ok ([], r)
      else if N.eqb c 92 then
        match r with
        | [] => SyntaxError
        | e :: r1 =>
            if N.eqb e 117 then
              match r1 with
              | h1 :: h2 :: h3 :: h4 :: r2 =>
                  match hex4 h1 h2 h3 h4 with
                  | Some x =>
                      let* (t, rest) := parseStringBody r2 in Ok (x :: t, rest)
                  | None => SyntaxError
                  end
              | _ => SyntaxError
              end
            else
              match simpleEscape e with
              | Some x =>
                  let* (t, rest) := parseStringBody r1 in Ok (x :: t, rest)
              | None => SyntaxError
              end
        end
      else if N.ltb c 32 then SyntaxError
      else let* (t, rest) := parseStringBody r in Ok (c :: t, rest)
  end.

Fixpoint takeDigits (s : jsstring) : jsstring * jsstring :=
  match s with
  | c :: r =>
      if isDigit c then let (d, rest) := takeDigits r in (c :: d, rest)
      else ([], s)
  | [] => ([], [])
  end.

(** Integer part: a single 0, or a non-zero digit and more digits. *)
Definition parseInt (s : jsstring) : result (jsstring * jsstring) :=
  match s with
  | c :: r =>
      if N.eqb c 48 then Ok ([c], r)
      else if isDigit c then let (d, rest) := takeDigits r in Ok (c :: d, rest)
      else SyntaxError
  | [] => SyntaxError
  end.

Definition parseFrac (s : jsstring) : result (jsstring * jsstring) :=
  match s with
  | c :: r =>
      if N.eqb c 46 then
        match takeDigits r with
        | ([], _) => SyntaxError
        | (d, rest) => Ok (c :: d, rest)
        end
      else Ok ([], s)
  | [] => Ok ([], s)
  end.

Definition parseExp (s : jsstring) : result (jsstring * jsstring) :=
  match s with
  | c :: r =>
      if N.eqb c 101 || N.eqb c 69 then
        let (sign, r1) :=
          match r with
          | g :: r' => if N.eqb g 43 || N.eqb g 45 then ([g], r') else ([], r)
          | [] => ([], r)
          end in
        match takeDigits r1 with
        | ([], _) => SyntaxError
        | (d, rest) => Ok (c :: sign ++ d, rest)
        end
      else Ok ([], s)
  | [] => Ok ([], s)
  end.

Definition parseNumber (s : jsstring) : result (jsstring * jsstring) :=
  let (minus, r0) :=
    match s with
    | c :: r => if N.eqb c 45 then ([c], r) else ([], s)
    | [] => ([], s)
    end in
  let* (i, r1) := parseInt r0 in
  let* (f, r2) := parseFrac r1 in
  let* (e, r3) := parseExp r2 in
  Ok (minus ++ i ++ f ++ e, r3).

(** Own properties after the members of an object literal were
    defined one after the other. *)
Definition objOfMembers (ms : list (jsstring * json)) : list (jsstring * json) :=
  fold_left (fun o kv => JsObject.set o (fst kv) (snd kv)) ms [].

Fixpoint parseValue (fuel : nat) (s : jsstring) : result (json * jsstring) :=
  match fuel with
  | 0 => OutOfFuel
  | S f =>
      match skipWs s with
      | [] => SyntaxError
      | c :: r =>
          if N.eqb c 91 then                                  (* [ *)
            match skipWs r with
            | c' :: r' =>
                if N.eqb c' 93 then Ok (JArray [], r')
                else let* (vs, r2) := parseElements f r in Ok (JArray vs, r2)
            | [] => SyntaxError
            end
          else if N.eqb c 123 then                            (* { *)
            match skipWs r with
            | c' :: r' =>
                if N.eqb c' 125 then Ok (JObject [], r')
                else let* (ms, r2) := parseMembers f r in
                     Ok (JObject (objOfMembers ms), r2)
            | [] => SyntaxError
            end
          else if N.eqb c 34 then
            let* (t, r') := parseStringBody r in Ok (JString t, r')
          else if startsWith (c :: r) (u "null") then
            Ok (JNull, skipn 4 (c :: r))
          else if startsWith (c :: r) (u "true") then
            Ok (JBool true, skipn 4 (c :: r))
          else if startsWith (c :: r) (u "false") then
            Ok (JBool false, skipn 5 (c :: r))
          else
            let* (n, r') := parseNumber (c :: r) in Ok (JNumber n, r')
      end
  end
with parseElements (fuel : nat) (s : jsstring) : result (list json * jsstring) :=
  match fuel with
  | 0 => OutOfFuel
  | S f =>
      let* (v, r) := parseValue f s in
      match skipWs r with
      | c :: r' =>
          if N.eqb c 44 then
            let* (vs, r2) := parseElements f r' in Ok (v :: vs, r2)
          else if N.eqb c 93 then Ok ([v], r')
          else SyntaxError
      | [] => SyntaxError
      end
  end
with parseMembers (fuel : nat) (s : jsstring)
  : result (list (jsstring * json) * jsstring) :=
  match fuel with
  | 0 => OutOfFuel
  | S f =>
      match skipWs s with
      | c :: r =>
          if N.eqb c 34 then
            let* (k, r1) := parseStringBody r in
            match skipWs r1 with
            | c1 :: r2 =>
                if N.eqb c1 58 then
                  let* (v, r3) := parseValue f r2 in
                  match skipWs r3 with
                  | c3 :: r4 =>
                      if N.eqb c3 44 then
                        let* (ms, r5) := parseMembers f r4 in
                        Ok ((k, v) :: ms, r5)
                      else if N.eqb c3 125 then Ok ([(k, v)], r4)
                      else SyntaxError
                  | [] => SyntaxError
                  end
                else SyntaxError
            | [] => SyntaxError
            end
          else SyntaxError
      | [] => SyntaxError
      end
  end.

(** Fuel that [parseValue] never exhausts on a text. *)
Definition parseFuel (text : jsstring) : nat := 2 * length text + 1.

(** [JSON.parse(text)]: one value surrounded by white space. *)
Definition JSON_parse (text : jsstring) : result json :=
  let* (v, r) := parseValue (parseFuel text) text in
  match skipWs r with
  | [] => Ok v
  | _ :: _ => SyntaxError
  end.

End Json.

Import Json.

(** ** [TextDecoder('utf-8')] in streaming mode *)

Module Utf8.

(** State that a decoder keeps between calls of
    [decode(chunk, { stream: true })]. *)
Record decoder : Type := mkDecoder {
  code_point : N;
  bytes_seen : N;
  bytes_needed : N;
  lower_boundary : N;
  upper_boundary : N;
  bom_seen : bool
}.

Definition newDecoder : decoder := mkDecoder 0 0 0 128 191 false.

Definition inRange (lo hi b : N) : bool := N.leb lo b && N.leb b hi.

(** A byte read while no sequence is pending. *)
Definition leadByte (d : decoder) (b : N) : decoder * list N :=
  let seen := bom_seen d in
  if inRange 0 127 b then (mkDecoder 0 0 0 128 191 seen, [b])
  else if inRange 194 223 b then
    (mkDecoder (N.land b 31) 0 1 128 191 seen, [])
  else if inRange 224 239 b then
    (mkDecoder (N.land b 15) 0 2
       (if N.eqb b 224 then 160 else 128)
       (if N.eqb b 237 then 159 else 191) seen, [])
  else if inRange 240 244 b then
    (mkDecoder (N.land b 7) 0 3
       (if N.eqb b 240 then 144 else 128)
       (if N.eqb b 244 then 143 else 191) seen, [])
  else (mkDecoder 0 0 0 128 191 seen, [65533%N]).

(** One byte through the decoder: the new state and the code points
    it emits. *)
Definition handleByte (d : decoder) (b : N) : decoder * list N :=
  if N.eqb (bytes_needed d) 0 then leadByte d b
  else if negb (inRange (lower_boundary d) (upper_boundary d) b) then
    let (d', out) := leadByte d b in (d', 65533%N :: out)
  else
    let cp := N.lor (N.shiftl (code_point d) 6) (N.land b 63) in
    let seen := N.succ (bytes_seen d) in
    if N.eqb seen (bytes_needed d)
    then (mkDecoder 0 0 0 128 191 (bom_seen d), [cp])
    else (mkDecoder cp seen (bytes_needed d) 128 191 (bom_seen d), []).

(** UTF-16 code units of a code point. *)
Definition codeUnits (cp : N) : jsstring :=
  if N.ltb cp 65536 then [cp]
  else let v := (cp - 65536)%N in
       [(55296 + N.shiftr v 10)%N; (56320 + N.land v 1023)%N].

(** A leading byte order mark is dropped. *)
Fixpoint emit (seen : bool) (cps : list N) : bool * jsstring :=
  match cps with
  | [] => (seen, [])
  | cp :: more =>
      let (seen', out) := emit true more in
      if seen then (seen', codeUnits cp ++ out)
      else if N.eqb cp 65279 then (seen', out)
      else (seen', codeUnits cp ++ out)
  end.

Definition decodeByte (d : decoder) (b : Byte.byte) : decoder * jsstring :=
  let (d1, cps) := handleByte d (Byte.to_N b) in
  let (seen, out) := emit (bom_seen d1) cps in
  (mkDecoder (code_point d1) (bytes_seen d1) (bytes_needed d1)
     (lower_boundary d1) (upper_boundary d1) seen, out).

(** [decoder.decode(chunk, { stream: true })] *)
Fixpoint decode (d : decoder) (chunk : list Byte.byte) : decoder * jsstring :=
  match chunk with
  | [] => (d, [])
  | b :: more =>
      let (d1, out1) := decodeByte d b in
      let (d2, out2) := decode d1 more in
      (d2, out1 ++ out2)
  end.

(** Bytes of an ASCII literal. *)
Definition bytes (s : string) : list Byte.byte := list_byte_of_string s.

End Utf8.

(** ** Server-sent events: [parseSseStream] *)

Module Sse.

Definition LFLF : jsstring := [10; 10]%N.

Section Parser.

(** JavaScript numbers and the conversion [Number(value)]. *)
Variable number : Type.
Variable Number : jsstring -> number.
Variable Number_isNaN : number -> bool.
Variable Number_isFinite : number -> bool.

Record SseEvent : Type := mkSseEvent {
  data : jsstring;
  event : option jsstring;
  id : option jsstring;
  retry : option number
}.

(** The variables that the loop over the lines of a frame assigns. *)
Record fields : Type := mkFields {
  dataParts : list jsstring;
  f_event : option jsstring;
  f_id : option jsstring;
  f_retry : option number
}.

Definition noFields : fields := mkFields [] None None None.

(** Body of [for (const line of lines)]. *)
Definition parseLine (st : fields) (line : jsstring) : fields :=
  if JsString.eqb line [] || startsWith line (u ":") then st
  else
    let colon := indexOf line (u ":") in
    let field := if Z.eqb colon (-1) then line else slice line 0 colon in
    let rawValue :=
      if Z.eqb colon (-1) then [] else slice_from line (colon + 1) in
    let value :=
      if startsWith rawValue (u " ") then slice_from rawValue 1
      else rawValue in
    if JsString.eqb field (u "data") then
      mkFields (dataParts st ++ [value]) (f_event st) (f_id st) (f_retry st)
    else if JsString.eqb field (u "event") then
      mkFields (dataParts st) (Some value) (f_id st) (f_retry st)
    else if JsString.eqb field (u "id") then
      mkFields (dataParts st) (f_event st) (Some value) (f_retry st)
    else if JsString.eqb field (u "retry") then
      let parsed := Number value in
      if negb (Number_isNaN parsed) && Number_isFinite parsed
      then mkFields (dataParts st) (f_event st) (f_id st) (Some parsed)
      else st
    else st.

(** One frame: the event it yields, if any. *)
Definition parseFrame (raw : jsstring) : option SseEvent :=
  let lines := splitLines raw in
  let st := fold_left parseLine lines noFields in
  let data := join [10%N] (dataParts st) in
  if JsString.eqb data [] then None
  else Some (mkSseEvent data (f_event st) (f_id st) (f_retry st)).

(** The inner [while (true)]: frames are cut off the front of the
    buffer as long as it holds a blank line.  Every round removes
    at least two code units, so [length buffer] rounds suffice. *)
Fixpoint drain (fuel : nat) (buffer : jsstring) : list SseEvent * jsstring :=
  match fuel with
  | 0 => ([], buffer)
  | S f =>
      let boundary := indexOf buffer LFLF in
      if Z.eqb boundary (-1) then ([], buffer)
      else
        let raw := slice buffer 0 boundary in
        let buffer' := slice_from buffer (boundary + 2) in
        let (evs, rest) := drain f buffer' in
        match parseFrame raw with
        | Some e => (e :: evs, rest)
        | None => (evs, rest)
        end
  end.

Definition drainFrames (buffer : jsstring) : list SseEvent * jsstring :=
  drain (length buffer) buffer.

(** The outer [while (true)] over the chunks that the reader
    delivers before it reports [done], in a run in which the abort
    signal is not raised.  The result is the events yielded, then
    the decoder and the buffer as they are when the loop is left;
    the code does not look at them again. *)
Fixpoint readLoop (d : Utf8.decoder) (buffer : jsstring)
    (chunks : list (list Byte.byte))
  : list SseEvent * (Utf8.decoder * jsstring) :=
  match chunks with
  | [] => ([], (d, buffer))
  | chunk :: more =>
      let (d1, text) := Utf8.decode d chunk in
      let (evs, buffer1) := drainFrames (buffer ++ text) in
      let (evs', final) := readLoop d1 buffer1 more in
      (evs ++ evs', final)
  end.

(** The events that the generator yields when it is run to its
    end. *)
Definition parseSseStream (chunks : list (list Byte.byte)) : list SseEvent :=
  fst (readLoop Utf8.newDecoder [] chunks).

End Parser.

Arguments mkSseEvent {number}.
Arguments data {number}.
Arguments event {number}.
Arguments id {number}.
Arguments retry {number}.

(** An instance of [Number] for the examples: the strings of decimal
    digits, as retry fields hold them, the empty string being 0; any
    other text is taken as not a number. *)
Fixpoint digitsValue (acc : N) (s : jsstring) : option N :=
  match s with
  | [] => Some acc
  | c :: s' =>
      if Json.isDigit c then digitsValue (acc * 10 + (c - 48))%N s'
      else None
  end.

Definition decimalNumber (s : jsstring) : option N := digitsValue 0 s.

Definition decimal_isNaN (n : option N) : bool :=
  match n with None => true | Some _ => false end.

Definition decimal_isFinite (n : option N) : bool :=
  match n with None => false | Some _ => true end.

Definition parseSseStreamDecimal : list (list Byte.byte) -> list (SseEvent (option N)) :=
  parseSseStream (option N) decimalNumber decimal_isNaN decimal_isFinite.

End Sse.

(** ** Tool schema cache and tool-name sanitization *)

Module ToolSchemaCache.

#[warnings="-register-all"]
Inductive SchemaInfo : Type :=
| mkSchemaInfo (type : jsstring) (items : option SchemaInfo)
    (properties : option (list (jsstring * SchemaInfo))).

Definition type (i : SchemaInfo) : jsstring :=
  match i with mkSchemaInfo t _ _ => t end.

(** The two module-level maps. *)
Record state : Type := mkState {
  toolSchemaCache : gmap jsstring (gmap jsstring SchemaInfo);
  sanitizedToOriginalToolName : gmap jsstring jsstring
}.

Definition emptyState : state := mkState ∅ ∅.

(** [/^[0-9]/.test(name)] *)
Definition startsWithDigit (name : jsstring) : bool :=
  match name with
  | c :: _ => N.leb 48 c && N.leb c 57
  | [] => false
  end.

(** The sanitized name and the state after the call. *)
Definition sanitizeToolNameForGemini (st : state) (name : jsstring)
  : jsstring * state :=
  let sanitized := if startsWithDigit name then u "t_" ++ name else name in
  if negb (JsString.eqb sanitized name)
  then (sanitized,
        mkState (toolSchemaCache st)
          (<[sanitized := name]> (sanitizedToOriginalToolName st)))
  else (sanitized, st).

Definition resolveOriginalToolName (st : state) (name : jsstring) : jsstring :=
  match sanitizedToOriginalToolName st !! name with
  | Some original => original
  | None => name
  end.

(** [toolSchemaCache.get(toolName)?.get(paramName)?.type] *)
Definition getParamType (st : state) (toolName paramName : jsstring)
  : option jsstring :=
  match toolSchemaCache st !! toolName with
  | Some params =>
      match params !! paramName with
      | Some info => Some (type info)
      | None => None
      end
  | None => None
  end.

Definition clearToolSchemaCache (st : state) : state :=
  mkState ∅ (sanitizedToOriginalToolName st).

End ToolSchemaCache.

(** ** Normalization of tool-call arguments and function responses *)

Module NormalizeToolArgs.

Import ToolSchemaCache.

Definition backslashQuote : jsstring := [92; 34]%N.
Definition backslashBackslash : jsstring := [92; 92]%N.
Definition quote : jsstring := [34]%N.

Definition hasControlCharEscapes (value : jsstring) : bool :=
  includes value (u "\n") || includes value (u "\t").

Definition hasIntentionalEscapes (value : jsstring) : bool :=
  includes value backslashQuote || includes value backslashBackslash.

(** The text handed to [JSON.parse]: the value between two quotes,
    with every quote of its own preceded by a backslash. *)
Definition quoted (value : jsstring) : jsstring :=
  quote ++ join backslashQuote (split 34 value) ++ quote.

Definition processEscapeSequencesOnly (value : json) : json :=
  match value with
  | JString s =>
      if hasControlCharEscapes s && negb (hasIntentionalEscapes s) then
        match JSON_parse (quoted s) with
        | Ok (JString unescaped) => JString unescaped
        | _ => value
        end
      else value
  | _ => value
  end.

(** The key under which [Object.entries] lists the element of an
    array at an index. *)
Definition indexKey (n : nat) : jsstring := natToString n.

(** [Object.entries(args)] *)
Definition entries (args : json) : list (jsstring * json) :=
  match args with
  | JObject props => props
  | JArray items => combine (map indexKey (seq 0 (length items))) items
  | _ => []
  end.

(** [!args || typeof args !== 'object'] *)
Definition notAnObject (args : json) : bool :=
  match args with
  | JObject _ | JArray _ => false
  | _ => true
  end.

(** Body of [for (const [key, value] of Object.entries(record))]. *)
Definition normalizeEntry (st : state) (toolName : jsstring)
    (result : list (jsstring * json)) (kv : jsstring * json)
  : list (jsstring * json) :=
  let (key, value) := kv in
  let expectedType := getParamType st toolName key in
  let expects t := match expectedType with
                   | Some e => JsString.eqb e t
                   | None => false
                   end in
  if expects (u "string") then
    JsObject.assign result key (processEscapeSequencesOnly value)
  else if isString value && (expects (u "array") || expects (u "object")) then
    match value with
    | JString s =>
        match JSON_parse s with
        | Ok parsed => JsObject.assign result key parsed
        | _ => JsObject.assign result key (processEscapeSequencesOnly value)
        end
    | _ => result
    end
  else if match expectedType with None => true | Some _ => false end then
    JsObject.assign result key (processEscapeSequencesOnly value)
  else JsObject.assign result key (processEscapeSequencesOnly value).

Definition normalizeToolCallArgs (st : state) (args : json)
    (toolName : jsstring) : json :=
  if notAnObject args then args
  else JObject (fold_left (normalizeEntry st toolName) (entries args) []).

(** [items.map(f)] for an [f] that may throw: the results in
    order, [None] as soon as one call gives [None]. *)
Fixpoint mapM {A B} (f : A -> option B) (l : list A) : option (list B) :=
  match l with
  | [] => Some []
  | x :: l' =>
      match f x, mapM f l' with
      | Some y, Some ys => Some (y :: ys)
      | _, _ => None
      end
  end.

(** [try { return recursivelyParseJsonStrings(JSON.parse(text)) }
    catch {}] followed by [otherwise]: the catch takes the
    [SyntaxError] of the parse and the [RangeError] of a nested call
    alike.  [recur] stands for the nested call, [None] for its
    [RangeError]. *)
Definition attempt (recur : json -> option json) (text : jsstring)
    (otherwise : json) : json :=
  match JSON_parse text with
  | Ok parsed =>
      match recur parsed with
      | Some r => r
      | None => otherwise
      end
  | _ => otherwise
  end.

(** The part of [recursivelyParseJsonStrings] that handles a string;
    every nested call of it sits in a [try]. *)
Definition walkString (recur : json -> option json) (value : jsstring) : json :=
  let unchanged := JString value in
  let stripped := trim value in
  let unescaped :=
    if hasControlCharEscapes value && negb (hasIntentionalEscapes value) then
      match JSON_parse (quoted value) with
      | Ok (JString t) => Some t
      | _ => None
      end
    else None in
  match unescaped with
  | Some t => JString t
  | None =>
      if negb (JsString.eqb stripped [])
         && (startsWith stripped (u "{") || startsWith stripped (u "["))
      then
        let isWellFormed :=
          (startsWith stripped (u "{") && endsWith stripped (u "}"))
          || (startsWith stripped (u "[") && endsWith stripped (u "]")) in
        let brace :=
          if startsWith stripped (u "{") && negb (endsWith stripped (u "}"))
          then
            let lastBrace := lastIndexOf stripped (u "}") in
            if (0 <? lastBrace)%Z then
              attempt recur (slice stripped 0 (lastBrace + 1)) unchanged
            else unchanged
          else unchanged in
        let bracket :=
          if startsWith stripped (u "[") && negb (endsWith stripped (u "]"))
          then
            let lastBracket := lastIndexOf stripped (u "]") in
            if (0 <? lastBracket)%Z then
              attempt recur (slice stripped 0 (lastBracket + 1)) brace
            else brace
          else brace in
        if isWellFormed then attempt recur value bracket else bracket
      else unchanged
  end.

(** [for (const [key, inner] of Object.entries(value))], with [recur]
    for the nested call on [inner]; [None] when a nested call throws. *)
Definition walkProps (recur : json -> option json)
    (props : list (jsstring * json))
    (out : option (list (jsstring * json))) : option (list (jsstring * json)) :=
  fold_left
    (fun out kv =>
       match out, recur (snd kv) with
       | Some o, Some inner' => Some (JsObject.assign o (fst kv) inner')
       | _, _ => None
       end)
    props out.

(** [recursivelyParseJsonStrings] on a call stack that holds [stack]
    more nested calls of it; [None] is the [RangeError] of a call
    that the stack does not hold.  The function has no depth
    argument: the stack is all that bounds the nesting.  That every
    nested call takes one unit of the stack, whatever it does, is a
    simplification. *)
Fixpoint walk (stack : nat) (value : json) : option json :=
  match stack with
  | 0 => None
  | S f =>
      match value with
      | JArray items =>
          match mapM (walk f) items with
          | Some items' => Some (JArray items')
          | None => None
          end
      | JObject props =>
          match walkProps (walk f) props (Some []) with
          | Some out => Some (JObject out)
          | None => None
          end
      | JString s => Some (walkString (walk f) s)
      | _ => Some value
      end
  end.

(** Size of a value: one per node, plus the length of a string. *)
Fixpoint weight (v : json) : nat :=
  match v with
  | JString s => S (length s)
  | JArray items => S (list_sum (map weight items))
  | JObject props => S (list_sum (map (fun kv => weight (snd kv)) props))
  | _ => 1
  end.

(** What the function returns when the stack holds the nested calls
    that the value needs: as many as the value weighs are enough, and
    every larger stack gives the same. *)
Definition recursivelyParseJsonStrings (value : json) : json :=
  match walk (weight value) value with
  | Some r => r
  | None => value
  end.

End NormalizeToolArgs.

(** ** SHA-256 and the UTF-8 encoding of a string *)

Module Sha256.

Local Open Scope N_scope.

Definition mask32 (x : N) : N := N.land x 4294967295.
Definition add32 (x y : N) : N := mask32 (x + y).
Definition rotr (n x : N) : N :=
  mask32 (N.lor (N.shiftr x n) (N.shiftl x (32 - n))).
Definition not32 (x : N) : N := N.lxor x 4294967295.

Definition Ch (x y z : N) : N := N.lxor (N.land x y) (N.land (not32 x) z).
Definition Maj (x y z : N) : N :=
  N.lxor (N.lxor (N.land x y) (N.land x z)) (N.land y z).
Definition bigSigma0 (x : N) : N :=
  N.lxor (N.lxor (rotr 2 x) (rotr 13 x)) (rotr 22 x).
Definition bigSigma1 (x : N) : N :=
  N.lxor (N.lxor (rotr 6 x) (rotr 11 x)) (rotr 25 x).
Definition smallSigma0 (x : N) : N :=
  N.lxor (N.lxor (rotr 7 x) (rotr 18 x)) (N.shiftr x 3).
Definition smallSigma1 (x : N) : N :=
  N.lxor (N.lxor (rotr 17 x) (rotr 19 x)) (N.shiftr x 10).

Definition K : list N :=
  [
    1116352408; 1899447441; 3049323471; 3921009573; 961987163;
    1508970993; 2453635748; 2870763221; 3624381080; 310598401; 607225278;
    1426881987; 1925078388; 2162078206; 2614888103; 3248222580;
    3835390401; 4022224774; 264347078; 604807628; 770255983; 1249150122;
    1555081692; 1996064986; 2554220882; 2821834349; 2952996808;
    3210313671; 3336571891; 3584528711; 113926993; 338241895; 666307205;
    773529912; 1294757372; 1396182291; 1695183700; 1986661051;
    2177026350; 2456956037; 2730485921; 2820302411; 3259730800;
    3345764771; 3516065817; 3600352804; 4094571909; 275423344; 430227734;
    506948616; 659060556; 883997877; 958139571; 1322822218; 1537002063;
    1747873779; 1955562222; 2024104815; 2227730452; 2361852424;
    2428436474; 2756734187; 3204031479; 3329325298
  ].

Definition H0 : list N :=
  [
    1779033703; 3144134277; 1013904242; 2773480762; 1359893119;
    2600822924; 528734635; 1541459225
  ].

(** Message bytes, the bit 1, zero bytes up to 56 modulo 64, and the
    bit length on eight bytes. *)
Definition pad (msg : list N) : list N :=
  let len := N.of_nat (length msg) in
  let zeros := N.to_nat ((119 - len mod 64) mod 64) in
  let bits := len * 8 in
  msg ++ [128] ++ repeat 0 zeros
      ++ map (fun i => N.land (N.shiftr bits (8 * (7 - i))) 255)
           [0; 1; 2; 3; 4; 5; 6; 7].

(** Big-endian words of a run of bytes. *)
Fixpoint words (bs : list N) : list N :=
  match bs with
  | a :: b :: c :: d :: rest =>
      (((a * 256 + b) * 256 + c) * 256 + d) :: words rest
  | _ => []
  end.

Fixpoint blocks (fuel : nat) (ws : list N) : list (list N) :=
  match fuel, ws with
  | S f, _ :: _ => firstn 16 ws :: blocks f (skipn 16 ws)
  | _, _ => []
  end.

(** The message schedule, latest word first. *)
Fixpoint schedule (n : nat) (w : list N) : list N :=
  match n with
  | O => w
  | S n' =>
      let next :=
        add32 (add32 (smallSigma1 (nth 1 w 0)) (nth 6 w 0))
              (add32 (smallSigma0 (nth 14 w 0)) (nth 15 w 0)) in
      schedule n' (next :: w)
  end.

Definition round (st : list N) (kw : N * N) : list N :=
  match st with
  | [a; b; c; d; e; f; g; h] =>
      let t1 := add32 (add32 (add32 h (bigSigma1 e)) (Ch e f g))
                      (add32 (fst kw) (snd kw)) in
      let t2 := add32 (bigSigma0 a) (Maj a b c) in
      [add32 t1 t2; a; b; c; add32 d t1; e; f; g]
  | _ => st
  end.

Definition compress (st block : list N) : list N :=
  let w := rev (schedule 48 (rev block)) in
  let st' := fold_left round (combine K w) st in
  map (fun p => add32 (fst p) (snd p)) (combine st st').

Definition hexDigit (x : N) : N := if x <? 10 then 48 + x else 87 + x.

Definition hexByte (b : N) : jsstring := [hexDigit (b / 16); hexDigit (b mod 16)].

Definition wordBytes (w : N) : list N :=
  [N.shiftr w 24; N.land (N.shiftr w 16) 255; N.land (N.shiftr w 8) 255;
   N.land w 255].

(** The digest of a message, as 32 bytes. *)
Definition digest (msg : list N) : list N :=
  let ws := words (pad msg) in
  flat_map wordBytes (fold_left compress (blocks (length ws) ws) H0).

(** [digest('hex')] *)
Definition hex (bs : list N) : jsstring := flat_map hexByte bs.

(** UTF-8 bytes of a string; a surrogate without its pair is
    encoded as U+FFFD. *)
Definition encodeCodePoint (cp : N) : list N :=
  if cp <? 128 then [cp]
  else if cp <? 2048 then [192 + N.shiftr cp 6; 128 + N.land cp 63]
  else if cp <? 65536 then
    [224 + N.shiftr cp 12; 128 + N.land (N.shiftr cp 6) 63;
     128 + N.land cp 63]
  else
    [240 + N.shiftr cp 18; 128 + N.land (N.shiftr cp 12) 63;
     128 + N.land (N.shiftr cp 6) 63; 128 + N.land cp 63].

Fixpoint utf8Encode (s : jsstring) : list N :=
  match s with
  | [] => []
  | c :: s' =>
      if (55296 <=? c) && (c <? 56320) then
        match s' with
        | c2 :: s'' =>
            if (56320 <=? c2) && (c2 <? 57344)
            then encodeCodePoint (65536 + (c - 55296) * 1024 + (c2 - 56320))
                   ++ utf8Encode s''
            else encodeCodePoint 65533 ++ utf8Encode s'
        | [] => encodeCodePoint 65533
        end
      else if (56320 <=? c) && (c <? 57344) then
        encodeCodePoint 65533 ++ utf8Encode s'
      else encodeCodePoint c ++ utf8Encode s'
  end.

(** [createHash('sha256').update(input).digest('hex')] *)
Definition sha256Hex (input : jsstring) : jsstring :=
  hex (digest (utf8Encode input)).

End Sha256.

(** ** Thought-signature cache *)

Module ThoughtSignatureCache.

Inductive AntigravityModelFamily : Type :=
| Claude
| GeminiFlash
| GeminiPro.

(** The string that a family is at run time. *)
Definition familyString (family : AntigravityModelFamily) : jsstring :=
  match family with
  | Claude => u "claude"
  | GeminiFlash => u "gemini-flash"
  | GeminiPro => u "gemini-pro"
  end.

Definition normalizeThoughtText (text : jsstring) : jsstring := trim text.

(** The text that is hashed. *)
Definition keyInput (family : AntigravityModelFamily)
    (sessionId thoughtText : jsstring) : jsstring :=
  let normalizedText := normalizeThoughtText thoughtText in
  familyString family ++ u ":" ++ sessionId ++ u ":" ++ normalizedText.

Definition getSignatureKey (family : AntigravityModelFamily)
    (sessionId thoughtText : jsstring) : jsstring :=
  Sha256.sha256Hex (keyInput family sessionId thoughtText).

(** [signatureCache] after the call. *)
Definition cacheThoughtSignature (signatureCache : gmap jsstring jsstring)
    (family : AntigravityModelFamily) (sessionId thoughtText signature : jsstring)
  : gmap jsstring jsstring :=
  <[getSignatureKey family sessionId thoughtText := signature]> signatureCache.

Definition getCachedThoughtSignature (signatureCache : gmap jsstring jsstring)
    (family : AntigravityModelFamily) (sessionId thoughtText : jsstring)
  : option jsstring :=
  signatureCache !! getSignatureKey family sessionId thoughtText.

End ThoughtSignatureCache.

(** ** The Antigravity client: thinking configuration and endpoint fallback *)

Module AntigravityClient.

(** *** Thinking configuration *)

Inductive Effort : Type :=
| EffortMinimal
| EffortLow
| EffortMedium
| EffortHigh
| EffortXhigh
| EffortNone.

(** Modelled from the spec: the declaration of [ModelConfig] is not
    among the sources.  The [thinking] setting has a [type] tag, an
    optional token budget and an optional effort, which is one of
    minimal, low, medium, high, xhigh and none; only the tag disabled
    is told apart from the others.  Token budgets are integers. *)
Record Thinking : Type := mkThinking {
  thinkingType : jsstring;
  budgetTokens : option Z;
  effort : option Effort
}.

Record ModelConfig : Type := mkModelConfig {
  thinking : option Thinking
}.

(** Values stored in the emitted configuration object. *)
Inductive value : Type :=
| VBool (b : bool)
| VString (s : jsstring)
| VNumber (n : Z).

Definition mapThinkingEffortToLevelString (e : Effort) : jsstring :=
  match e with
  | EffortMinimal => u "minimal"
  | EffortLow => u "low"
  | EffortMedium => u "medium"
  | EffortHigh | EffortXhigh => u "high"
  | EffortNone => u "minimal"
  end.

Definition isEffortNone (e : option Effort) : bool :=
  match e with Some EffortNone => true | _ => false end.

Definition buildThinkingConfigForAntigravity (model : ModelConfig)
    (useThinkingLevel : bool) : option (list (jsstring * value)) :=
  match thinking model with
  | None => None
  | Some thinking =>
      if JsString.eqb (thinkingType thinking) (u "disabled")
         || isEffortNone (effort thinking)
      then
        Some (if useThinkingLevel
              then [(u "includeThoughts", VBool false);
                    (u "thinkingLevel", VString (u "minimal"))]
              else [(u "includeThoughts", VBool false);
                    (u "thinkingBudget", VNumber 0)])
      else
        let out := [(u "includeThoughts", VBool true)] in
        let out :=
          match effort thinking with
          | Some e =>
              JsObject.set out (u "thinkingLevel")
                (VString (mapThinkingEffortToLevelString e))
          | None => out
          end in
        let out :=
          match budgetTokens thinking with
          | Some b => JsObject.set out (u "thinkingBudget") (VNumber b)
          | None => JsObject.set out (u "thinkingBudget") (VNumber (-1))
          end in
        let out :=
          if useThinkingLevel then JsObject.delete out (u "thinkingBudget")
          else JsObject.delete out (u "thinkingLevel") in
        Some out
  end.

(** *** Endpoint fallback *)

(** What the loop reads of a [Response]; [text] is [None] when
    reading the body fails. *)
Record Response : Type := mkResponse {
  status : Z;
  hasBody : bool;
  text : option jsstring
}.

(** [r.ok] *)
Definition ok (r : Response) : bool :=
  (200 <=? status r)%Z && (status r <=? 299)%Z.

(** A value thrown by the fetch: an [Error] with its message, or
    anything else with its string conversion. *)
Inductive thrown : Type :=
| ErrorObject (message : jsstring)
| OtherValue (asString : jsstring).

Inductive FetchOutcome : Type :=
| Resolved (r : Response)
| Rejected (e : thrown).

Definition thrownMessage (e : thrown) : jsstring :=
  match e with
  | ErrorObject message => message
  | OtherValue asString => asString
  end.

Definition CODE_ASSIST_ENDPOINT_FALLBACKS : list jsstring :=
  [u "https://daily-cloudcode-pa.sandbox.googleapis.com";
   u "https://autopush-cloudcode-pa.sandbox.googleapis.com";
   u "https://cloudcode-pa.googleapis.com"].

Section Fallback.

(** The network: a fetch answers from the state of the world and
    changes it. *)
Variable World : Type.
Variable customFetch : World -> jsstring -> FetchOutcome * World.

(** [formatAntigravityHttpError(status, text, model.id)] *)
Variable formatAntigravityHttpError : Z -> jsstring -> jsstring -> jsstring.

Variable modelId : jsstring.

Definition endpointOf (streaming : bool) (baseUrl : jsstring) : jsstring :=
  if streaming
  then baseUrl ++ u "/v1internal:streamGenerateContent?alt=sse"
  else baseUrl ++ u "/v1internal:generateContent".

(** [r.ok && r.body] of the streaming call, [r.ok] of the other. *)
Definition accepted (streaming : bool) (r : Response) : bool :=
  if streaming then ok r && hasBody r else ok r.

Definition httpError (r : Response) : jsstring :=
  let text := match text r with Some t => t | None => [] end in
  let message := formatAntigravityHttpError (status r) text modelId in
  trim (u "HTTP " ++ natToString (Z.to_nat (status r)) ++ u " " ++ message).

(** State of the loop variables and of the world, with the
    requests made so far in the order they were made. *)
Record loopState : Type := mkLoopState {
  response : option Response;
  lastError : option jsstring;
  requests : list (jsstring * FetchOutcome);
  world : World
}.

(** [for (const baseUrl of CODE_ASSIST_ENDPOINT_FALLBACKS)], for
    any list of base endpoints. *)
Fixpoint tryEndpoints (streaming : bool) (st : loopState)
    (endpoints : list jsstring) : loopState :=
  match endpoints with
  | [] => st
  | baseUrl :: rest =>
      let endpoint := endpointOf streaming baseUrl in
      let (outcome, w) := customFetch (world st) endpoint in
      let log := requests st ++ [(endpoint, outcome)] in
      match outcome with
      | Resolved r =>
          if accepted streaming r
          then mkLoopState (Some r) (lastError st) log w
          else tryEndpoints streaming
                 (mkLoopState (response st) (Some (httpError r)) log w) rest
      | Rejected e =>
          tryEndpoints streaming
            (mkLoopState (response st) (Some (thrownMessage e)) log w) rest
      end
  end.

(** The loop and the check after it: the response, or the message
    of the error thrown. *)
Definition requestWithFallback (streaming : bool) (w : World)
    (endpoints : list jsstring) : (jsstring + Response) * loopState :=
  let st := tryEndpoints streaming (mkLoopState None None [] w) endpoints in
  match response st with
  | Some r => (inr r, st)
  | None =>
      (inl (u "Antigravity request failed: "
              ++ match lastError st with
                 | Some e => e
                 | None => u "Unknown error"
                 end), st)
  end.

End Fallback.

End AntigravityClient.

(** ** Header values: [mergeCommaSeparatedHeaderValues] *)

Module Utils.

(** [for (const part of raw.split(','))], from the array [out] to the
    array after the loop. *)
Fixpoint mergeParts (out : list jsstring) (parts : list jsstring)
  : list jsstring :=
  match parts with
  | [] => out
  | part :: rest =>
      let v := trim part in
      if JsString.eqb v [] then mergeParts out rest
      else if negb (existsb (fun x => JsString.eqb x v) out)
           then mergeParts (out ++ [v]) rest
           else mergeParts out rest
  end.

(** The array [out] after [for (const raw of values)]. *)
Definition mergedValues (values : list jsstring) : list jsstring :=
  fold_left (fun out raw => mergeParts out (split 44 raw)) values [].

Definition mergeCommaSeparatedHeaderValues (values : list jsstring) : jsstring :=
  join (u ",") (mergedValues values).

End Utils.

(** ** Tests on JavaScript values *)

Module JsValue.

(** [isRecord(value)], for a value that may be [undefined]. *)
Definition isRecord (value : option json) : bool :=
  match value with
  | Some (JObject _) => true
  | _ => false
  end.

(** [a ?? b]: [a] unless it is [undefined] or [null]. *)
Definition nullish (value : option json) : bool :=
  match value with
  | None | Some JNull => true
  | _ => false
  end.

Section Truthiness.

(** Whether a number is zero, read off its token. *)
Variable isZero : jsstring -> bool.

(** [!!value] *)
Definition truthy (value : option json) : bool :=
  match value with
  | None | Some JNull => false
  | Some (JBool b) => b
  | Some (JNumber n) => negb (isZero n)
  | Some (JString s) => negb (JsString.eqb s [])
  | Some (JArray _) | Some (JObject _) => true
  end.

End Truthiness.

(** An instance of [isZero]: the digits of the token before its
    exponent are all 0.  It is exact for the tokens whose value does
    not underflow to zero. *)
Fixpoint zeroToken (n : jsstring) : bool :=
  match n with
  | [] => true
  | c :: r =>
      if N.eqb c 101 || N.eqb c 69 then true
      else if N.leb 49 c && N.leb c 57 then false
      else zeroToken r
  end.

End JsValue.

(** ** Filling the tool schema cache *)

Module ToolSchemaCaching.

Import ToolSchemaCache NormalizeToolArgs JsValue.

Section Extract.

Variable isZero : jsstring -> bool.

(** The loop over [Object.entries(schema.properties)], with [recur]
    for the recursive call. *)
Definition extractProperties (recur : json -> option SchemaInfo)
    (entries : list (jsstring * json))
  : option (list (jsstring * SchemaInfo)) :=
  fold_left
    (fun properties kv =>
       match properties, recur (snd kv) with
       | Some ps, Some info => Some (JsObject.assign ps (fst kv) info)
       | _, _ => None
       end)
    entries (Some []).

(** [extractSchemaInfo] on a call stack that holds [stack] more
    nested calls of it; [None] is the [RangeError] of a call that the
    stack does not hold. *)
Fixpoint extract (stack : nat) (schema : json) : option SchemaInfo :=
  match stack with
  | 0 => None
  | S f =>
      match schema with
      | JObject p =>
          let type :=
            match JsObject.get p (u "type") with
            | Some (JString t) => t
            | _ => u "unknown"
            end in
          if JsString.eqb type (u "array")
             && truthy isZero (JsObject.get p (u "items"))
          then
            match JsObject.get p (u "items") with
            | Some items =>
                match extract f items with
                | Some info => Some (mkSchemaInfo type (Some info) None)
                | None => None
                end
            | None => Some (mkSchemaInfo type None None)
            end
          else if JsString.eqb type (u "object")
                  && isRecord (JsObject.get p (u "properties"))
          then
            match JsObject.get p (u "properties") with
            | Some (JObject entries) =>
                match extractProperties (extract f) entries with
                | Some properties =>
                    Some (mkSchemaInfo type None (Some properties))
                | None => None
                end
            | _ => Some (mkSchemaInfo type None None)
            end
          else Some (mkSchemaInfo type None None)
      | _ => Some (mkSchemaInfo (u "unknown") None None)
      end
  end.

(** What the function returns when the stack holds the nested calls
    that the schema needs; as many as the schema weighs are enough. *)
Definition extractSchemaInfo (schema : json) : SchemaInfo :=
  match extract (weight schema) schema with
  | Some info => info
  | None => mkSchemaInfo (u "unknown") None None
  end.

(** [paramMap] after the loop over [Object.entries(properties)]. *)
Definition paramMapOf (properties : list (jsstring * json))
  : gmap jsstring SchemaInfo :=
  fold_left
    (fun paramMap kv => <[fst kv := extractSchemaInfo (snd kv)]> paramMap)
    properties ∅.

(** Body of [for (const funcDecl of funcDecls)]. *)
Definition cacheFunctionDeclaration (st : state) (funcDecl : json) : state :=
  match funcDecl with
  | JObject d =>
      match JsObject.get d (u "name") with
      | Some (JString originalName) =>
          if JsString.eqb (trim originalName) [] then st
          else
            let (sanitizedName, st1) :=
              sanitizeToolNameForGemini st originalName in
            let schemaCandidate :=
              if nullish (JsObject.get d (u "parametersJsonSchema"))
              then JsObject.get d (u "parameters")
              else JsObject.get d (u "parametersJsonSchema") in
            match schemaCandidate with
            | Some (JObject schema) =>
                match JsObject.get schema (u "properties") with
                | Some (JObject properties) =>
                    let paramMap := paramMapOf properties in
                    let st2 :=
                      mkState (<[sanitizedName := paramMap]> (toolSchemaCache st1))
                        (sanitizedToOriginalToolName st1) in
                    if negb (JsString.eqb sanitizedName originalName) then
                      mkState
                        (<[originalName := paramMap]> (toolSchemaCache st2))
                        (<[sanitizedName := originalName]>
                           (sanitizedToOriginalToolName st2))
                    else st2
                | _ => st1
                end
            | _ => st1
            end
      | _ => st
      end
  | _ => st
  end.

(** Body of [for (const tool of tools)]. *)
Definition cacheTool (st : state) (tool : json) : state :=
  match tool with
  | JObject t =>
      match JsObject.get t (u "functionDeclarations") with
      | Some (JArray funcDecls) => fold_left cacheFunctionDeclaration funcDecls st
      | _ => st
      end
  | _ => st
  end.

(** The state after [cacheToolSchemas(tools)]; [None] is [undefined]. *)
Definition cacheToolSchemas (st : state) (tools : option json) : state :=
  match tools with
  | Some (JArray items) => fold_left cacheTool items st
  | _ => st
  end.

End Extract.

End ToolSchemaCaching.

(** ** Response bodies: argument normalization, tool names, thought
    signatures *)

Module ResponseBody.

Import ToolSchemaCache NormalizeToolArgs ThoughtSignatureCache JsValue.

(** The nested loops over [payload.candidates[*].content.parts[*]]
    that [normalizeToolArgsInResponse] and
    [unsanitizeToolNamesInResponseBody] both have, with [body] for
    what is done to a part.  The functions update the payload in
    place; here the updated payload is returned, every updated object
    keeping its place. *)
Definition forEachPartOfCandidate (body : json -> json) (candidate : json)
  : json :=
  match candidate with
  | JObject c =>
      match JsObject.get c (u "content") with
      | Some (JObject content) =>
          match JsObject.get content (u "parts") with
          | Some (JArray parts) =>
              JObject
                (JsObject.set c (u "content")
                   (JObject
                      (JsObject.set content (u "parts")
                         (JArray (map body parts)))))
          | _ => candidate
          end
      | _ => candidate
      end
  | _ => candidate
  end.

Definition forEachPart (body : json -> json) (payload : json) : json :=
  match payload with
  | JObject p =>
      match JsObject.get p (u "candidates") with
      | Some (JArray candidates) =>
          JObject
            (JsObject.set p (u "candidates")
               (JArray (map (forEachPartOfCandidate body) candidates)))
      | _ => payload
      end
  | _ => payload
  end.

(** *** [normalizeToolArgsInResponse] *)

(** The part after the assignment to [functionCall.args], if any. *)
Definition normalizeFunctionCall (st : state)
    (record : list (jsstring * json)) : list (jsstring * json) :=
  match JsObject.get record (u "functionCall") with
  | Some (JObject functionCall) =>
      match JsObject.get functionCall (u "args") with
      | Some beforeArgs =>
          match JsObject.get functionCall (u "name") with
          | Some (JString name) =>
              if JsString.eqb name [] then record
              else
                JsObject.set record (u "functionCall")
                  (JObject
                     (JsObject.set functionCall (u "args")
                        (normalizeToolCallArgs st beforeArgs name)))
          | _ => record
          end
      | None => record
      end
  | _ => record
  end.

(** The part after the assignment to [functionResponse.response], if
    any. *)
Definition normalizeFunctionResponse (record : list (jsstring * json))
  : list (jsstring * json) :=
  match JsObject.get record (u "functionResponse") with
  | Some (JObject functionResponse) =>
      match JsObject.get functionResponse (u "response") with
      | Some response =>
          JsObject.set record (u "functionResponse")
            (JObject
               (JsObject.set functionResponse (u "response")
                  (recursivelyParseJsonStrings response)))
      | None => record
      end
  | _ => record
  end.

Definition normalizePart (st : state) (part : json) : json :=
  match part with
  | JObject record =>
      JObject (normalizeFunctionResponse (normalizeFunctionCall st record))
  | _ => part
  end.

Definition normalizeToolArgsInResponse (st : state) (response : json) : json :=
  forEachPart (normalizePart st) response.

(** *** [unsanitizeToolNamesInResponseBody] *)

(** The part after the assignment to the [name] of its property
    [key], if any. *)
Definition restoreName (st : state) (key : jsstring)
    (part : list (jsstring * json)) : list (jsstring * json) :=
  match JsObject.get part key with
  | Some (JObject call) =>
      match JsObject.get call (u "name") with
      | Some (JString name) =>
          JsObject.set part key
            (JObject
               (JsObject.set call (u "name")
                  (JString (resolveOriginalToolName st name))))
      | _ => part
      end
  | _ => part
  end.

Definition unsanitizePart (st : state) (part : json) : json :=
  match part with
  | JObject record =>
      JObject
        (restoreName st (u "functionResponse")
           (restoreName st (u "functionCall") record))
  | _ => part
  end.

Definition unsanitizeToolNamesInResponseBody (st : state) (payload : json)
  : json :=
  forEachPart (unsanitizePart st) payload.

(** *** [cacheThoughtSignatureFromResponseBody] *)

(** The text of the thought buffer and the signature cache. *)
Definition thoughts : Type := (jsstring * gmap jsstring jsstring)%type.

(** Body of [for (const part of parts)]. *)
Definition cacheSignatureOfPart (family : AntigravityModelFamily)
    (sessionId : jsstring) (acc : thoughts) (part : json) : thoughts :=
  match part with
  | JObject p =>
      let isThought :=
        match JsObject.get p (u "thought") with
        | Some (JBool true) => true
        | _ => false
        end in
      let text :=
        match JsObject.get p (u "text") with
        | Some (JString t) => t
        | _ => []
        end in
      let buffer :=
        if isThought && negb (JsString.eqb text []) then fst acc ++ text
        else fst acc in
      let signature :=
        match JsObject.get p (u "thoughtSignature") with
        | Some (JString sig) => sig
        | _ => []
        end in
      if negb (JsString.eqb signature [])
         && Nat.ltb 0 (length (trim buffer))
      then (buffer, cacheThoughtSignature (snd acc) family sessionId buffer signature)
      else (buffer, snd acc)
  | _ => acc
  end.

(** The parts that the loop runs over: those of the first candidate. *)
Definition firstCandidateParts (payload : json) : list json :=
  match payload with
  | JObject p =>
      match JsObject.get p (u "candidates") with
      | Some (JArray (JObject candidate :: _)) =>
          match JsObject.get candidate (u "content") with
          | Some (JObject content) =>
              match JsObject.get content (u "parts") with
              | Some (JArray parts) => parts
              | _ => []
              end
          | _ => []
          end
      | _ => []
      end
  | _ => []
  end.

(** The buffer that was passed, or the fresh one of the call, and the
    signature cache, after the call. *)
Definition cacheThoughtSignatureFromResponseBody
    (family : AntigravityModelFamily) (sessionId : jsstring)
    (acc : thoughts) (payload : json) : thoughts :=
  fold_left (cacheSignatureOfPart family sessionId)
    (firstCandidateParts payload) acc.

(** *** [unwrapAntigravityResponseBody] *)

(** The function on a payload that is no array; [None] is
    [undefined]. *)
Definition unwrapRecord (payload : option json) : option json :=
  match payload with
  | Some (JObject p) =>
      match JsObject.get p (u "response") with
      | Some response => Some response
      | None => payload
      end
  | _ => payload
  end.

Definition unwrapAntigravityResponseBody (payload : option json)
  : option json :=
  match payload with
  | Some (JArray items) =>
      unwrapRecord (List.find (fun item => isRecord (Some item)) items)
  | _ => unwrapRecord payload
  end.

End ResponseBody.

(** ** The stream adapter *)

Module StreamAdapter.

Import ToolSchemaCache NormalizeToolArgs ThoughtSignatureCache JsValue.
Import ResponseBody.

Definition parseJsonOrNull (raw : jsstring) : json :=
  match JSON_parse raw with
  | Ok parsed =>
      let firstObject :=
        match parsed with
        | JArray items => List.find (fun item => isRecord (Some item)) items
        | JObject _ => Some parsed
        | _ => None
        end in
      match firstObject with
      | Some (JObject o) =>
          match JsObject.get o (u "response") with
          | Some (JObject response) => JObject response
          | _ => JObject o
          end
      | _ => parsed
      end
  | _ => JNull
  end.

(** The response object; the properties that it holds with the value
    [undefined] are left out, reading them gives [undefined] either
    way. *)
Definition buildMinimalResponseFromParts (parts : list json)
    (usage : option json) : json :=
  let candidate :=
    JObject
      [(u "index", JNumber (u "0"));
       (u "content",
        JObject [(u "role", JString (u "model")); (u "parts", JArray parts)])] in
  JObject
    ((u "candidates", JArray [candidate])
       :: match usage with
          | Some (JObject usageMetadata) =>
              [(u "usageMetadata", JObject usageMetadata)]
          | _ => []
          end).

Definition extractPartsFromUnknown (payload : json) : list json :=
  match payload with
  | JObject p =>
      match JsObject.get p (u "candidates") with
      | Some (JArray (JObject first :: _)) =>
          match JsObject.get first (u "content") with
          | Some (JObject content) =>
              match JsObject.get content (u "parts") with
              | Some (JArray parts) =>
                  List.filter (fun part => isRecord (Some part)) parts
              | _ => []
              end
          | _ => []
          end
      | _ => []
      end
  | _ => []
  end.

Definition extractUsageFromUnknown (payload : json) : option json :=
  match payload with
  | JObject p => JsObject.get p (u "usageMetadata")
  | _ => None
  end.

Section Adapter.

Variable isZero : jsstring -> bool.
Context {number : Type}.

(** [None] is [null]. *)
Definition sseEventToGenerateContentResponse (event : Sse.SseEvent number)
  : option json :=
  let json := parseJsonOrNull (Sse.data event) in
  if negb (truthy isZero (Some json)) then None
  else
    let parts := extractPartsFromUnknown json in
    match parts with
    | [] => None
    | _ :: _ =>
        Some (buildMinimalResponseFromParts parts (extractUsageFromUnknown json))
    end.

(** The loop of the generator [adapted] of [streamChat] over the
    events: the chunks that it yields, and the thought buffer and
    signature cache at its end. *)
Fixpoint adapted (st : state) (family : AntigravityModelFamily)
    (sessionId : jsstring) (acc : thoughts)
    (rawEvents : list (Sse.SseEvent number)) : list json * thoughts :=
  match rawEvents with
  | [] => ([], acc)
  | event :: rest =>
      match sseEventToGenerateContentResponse event with
      | Some chunk =>
          let chunk1 := normalizeToolArgsInResponse st chunk in
          let chunk2 := unsanitizeToolNamesInResponseBody st chunk1 in
          let acc1 :=
            cacheThoughtSignatureFromResponseBody family sessionId acc chunk2 in
          let (chunks, acc2) := adapted st family sessionId acc1 rest in
          (chunk2 :: chunks, acc2)
      | None => adapted st family sessionId acc rest
      end
  end.

End Adapter.

End StreamAdapter.

(** * Notions used in the statements *)

Import ToolSchemaCache NormalizeToolArgs ThoughtSignatureCache AntigravityClient.

(** ** Thinking configuration *)

Definition levelKey : jsstring := u "thinkingLevel".
Definition budgetKey : jsstring := u "thinkingBudget".

(** Thinking is switched off by the type tag or by the effort. *)
Definition thinkingOff (t : Thinking) : bool :=
  JsString.eqb (thinkingType t) (u "disabled") || isEffortNone (effort t).

(** The level that the level representation carries, if any. *)
Definition expectedLevel (t : Thinking) : option value :=
  if thinkingOff t then Some (VString (u "minimal"))
  else match effort t with
       | Some e => Some (VString (mapThinkingEffortToLevelString e))
       | None => None
       end.

(** The budget that the budget representation carries. *)
Definition expectedBudget (t : Thinking) : Z :=
  if thinkingOff t then 0%Z
  else match budgetTokens t with
       | Some b => b
       | None => (-1)%Z
       end.

(** ** Endpoint fallback *)

Section FallbackNotions.

Variable formatAntigravityHttpError : Z -> jsstring -> jsstring -> jsstring.
Variable modelId : jsstring.
Variable streaming : bool.

(** An attempt that the loop does not stop at. *)
Definition failedAttempt (a : jsstring * FetchOutcome) : Prop :=
  match snd a with
  | Resolved r => accepted streaming r = false
  | Rejected _ => True
  end.

(** What a failed attempt leaves in [lastError]. *)
Definition recordedError (a : jsstring * FetchOutcome) : jsstring :=
  match snd a with
  | Resolved r => httpError formatAntigravityHttpError modelId r
  | Rejected e => thrownMessage e
  end.

(** [lastError] after a run of failed attempts. *)
Definition lastRecorded (before : option jsstring)
    (failed : list (jsstring * FetchOutcome)) : option jsstring :=
  match last failed with
  | Some a => Some (recordedError a)
  | None => before
  end.

End FallbackNotions.

(** What the network answers to requests sent one after the other,
    each from the world that the one before left: the requests with
    their outcomes, and the world after the last. *)
Fixpoint fetchAll (World : Type)
    (customFetch : World -> jsstring -> FetchOutcome * World)
    (w : World) (urls : list jsstring)
  : list (jsstring * FetchOutcome) * World :=
  match urls with
  | [] => ([], w)
  | url :: rest =>
      let (outcome, w1) := customFetch w url in
      let (answers, w2) := fetchAll World customFetch w1 rest in
      ((url, outcome) :: answers, w2)
  end.

(** ** Literals of the examples *)

(** Carriage return, line feed. *)
Definition CR : Byte.byte := Byte.x0d.
Definition LF : Byte.byte := Byte.x0a.

(** Code units of a literal in which the apostrophe stands for the
    double quote. *)
Definition dq (s : string) : jsstring :=
  map (fun c => if N.eqb c 39 then 34%N else c) (u s).

(** Text in which every line feed directly follows a carriage return,
    [prev] being the code unit before the text. *)
Fixpoint lfOnlyAfterCr (prev : N) (s : jsstring) : bool :=
  match s with
  | [] => true
  | c :: r => (if N.eqb c 10 then N.eqb prev 13 else true) && lfOnlyAfterCr c r
  end.

(** ** Weight and nesting of values *)

(** Total weight of the property values of an object. *)
Definition weightProps (o : list (jsstring * json)) : nat :=
  list_sum (map (fun kv => weight (snd kv)) o).

(** Arrays nested [d] deep around a value. *)
Fixpoint nested (d : nat) (v : json) : json :=
  match d with
  | 0 => v
  | S d' => JArray [nested d' v]
  end.

(** ** Escape-sequence cleanup and argument normalization, as specified *)

(** Follows the spec's words, unescape it as a single JSON string
    literal: the value of the text read as the inside of one JSON
    string literal, where a double quote of the text stands for
    itself; [None] when the text is not the inside of a literal. *)
Fixpoint jsonStringLiteralUnescape (s : jsstring) : option jsstring :=
  match s with
  | [] => Some []
  | c :: r =>
      if N.eqb c 92 then
        match r with
        | [] => None
        | e :: r1 =>
            if N.eqb e 117 then
              match r1 with
              | h1 :: h2 :: h3 :: h4 :: r2 =>
                  match hex4 h1 h2 h3 h4, jsonStringLiteralUnescape r2 with
                  | Some x, Some t => Some (x :: t)
                  | _, _ => None
                  end
              | _ => None
              end
            else
              match simpleEscape e, jsonStringLiteralUnescape r1 with
              | Some x, Some t => Some (x :: t)
              | _, _ => None
              end
        end
      else if N.ltb c 32 then None
      else match jsonStringLiteralUnescape r with
           | Some t => Some (c :: t)
           | None => None
           end
  end.

(** Follows the spec's words: escape-sequence cleanup. *)
Definition escapeSequenceCleanup (value : json) : json :=
  match value with
  | JString s =>
      if (includes s (u "\n") || includes s (u "\t"))
         && negb (includes s backslashQuote || includes s backslashBackslash)
      then match jsonStringLiteralUnescape s with
           | Some t => JString t
           | None => value
           end
      else value
  | _ => value
  end.

(** Follows the spec's words: what an argument becomes, by the
    declared type of its parameter. *)
Definition normalizedArgument (expectedType : option jsstring) (value : json)
  : json :=
  match expectedType, value with
  | Some t, JString s =>
      if JsString.eqb t (u "string") then escapeSequenceCleanup value
      else if JsString.eqb t (u "array") || JsString.eqb t (u "object") then
        match JSON_parse s with
        | Ok parsed => parsed
        | _ => escapeSequenceCleanup value
        end
      else escapeSequenceCleanup value
  | _, _ => escapeSequenceCleanup value
  end.

(** The text with a backslash before each of its double quotes. *)
Definition escapeQuotes (s : jsstring) : jsstring :=
  join backslashQuote (split 34 s).

(** The four hexadecimal digits that a text starts with. *)
Definition hexPrefix (l : jsstring) : option N :=
  match l with
  | h1 :: h2 :: h3 :: h4 :: _ => hex4 h1 h2 h3 h4
  | _ => None
  end.

(** The properties that assignments to an object made by a literal
    define: those under a key other than __proto__. *)
Definition withoutProto {V : Type} (props : list (jsstring * V))
  : list (jsstring * V) :=
  List.filter (fun kv => negb (JsString.eqb (fst kv) (u "__proto__"))) props.

(** ** An example cache *)

(** A cache that declares the parameters of one tool. *)
Definition exampleCache : state :=
  mkState
    {[ u "edit" :=
         <[ u "lines" := mkSchemaInfo (u "array") (Some (mkSchemaInfo (u "number") None None)) None ]>
         (<[ u "text" := mkSchemaInfo (u "string") None None ]>
         (<[ u "options" := mkSchemaInfo (u "object") None None ]> ∅)) ]}
    ∅.

Definition exampleArgs : list (jsstring * json) :=
  [(u "lines", JString (u "[1,2,3]"));
   (u "text", JString (u "a\nb"));
   (u "options", JString (u "{"));
   (u "note", JString (u "x\ty"))].

(** ** Lines of a frame *)

(** The field name that [parseLine] reads off a line. *)
Definition fieldName (line : jsstring) : jsstring :=
  if Z.eqb (indexOf line (u ":")) (-1) then line
  else slice line 0 (indexOf line (u ":")).

(** A line that holds no line feed and does not end in a carriage
    return. *)
Definition plainLine (line : jsstring) : Prop :=
  ~ In 10%N line /\ last line <> Some 13%N.

(** ** Header values *)

(** A value as the merged header lists it: not empty, without white
    space around it, without a comma. *)
Definition headerToken (v : jsstring) : Prop :=
  v <> [] /\ trim v = v /\ ~ In 44%N v.

(** What the array of merged values holds: distinct header tokens. *)
Definition tokenList (out : list jsstring) : Prop :=
  List.NoDup out /\ Forall headerToken out.

(** *** Notions for the tool schema cache *)

Import JsValue ToolSchemaCaching.

(** The name that [sanitizeToolNameForGemini] returns. *)
Definition sanitizedNameOf (name : jsstring) : jsstring :=
  if startsWithDigit name then u "t_" ++ name else name.

(** Every entry of the map of restored names leads from the marker
    followed by a name that starts with a digit to that name. *)
Definition wellKeyed (st : state) : Prop :=
  forall k v,
    sanitizedToOriginalToolName st !! k = Some v ->
    k = u "t_" ++ v /\ startsWithDigit v = true.

(** The function declarations of the tools, in the order in which
    [cacheToolSchemas] visits them. *)
Definition declarationsOf (tools : option json) : list json :=
  match tools with
  | Some (JArray items) =>
      flat_map
        (fun tool =>
           match tool with
           | JObject t =>
               match JsObject.get t (u "functionDeclarations") with
               | Some (JArray funcDecls) => funcDecls
               | _ => []
               end
           | _ => []
           end)
        items
  | _ => []
  end.

(** The name of a declaration that has a name which is a string with
    more than white space in it. *)
Definition declaredName (funcDecl : json) : option jsstring :=
  match funcDecl with
  | JObject d =>
      match JsObject.get d (u "name") with
      | Some (JString name) =>
          if JsString.eqb (trim name) [] then None else Some name
      | _ => None
      end
  | _ => None
  end.

(** The name and the parameter schemas of a declaration that has
    both. *)
Definition declaredParameters (funcDecl : json)
  : option (jsstring * list (jsstring * json)) :=
  match declaredName funcDecl, funcDecl with
  | Some name, JObject d =>
      match (if nullish (JsObject.get d (u "parametersJsonSchema"))
             then JsObject.get d (u "parameters")
             else JsObject.get d (u "parametersJsonSchema")) with
      | Some (JObject schema) =>
          match JsObject.get schema (u "properties") with
          | Some (JObject properties) => Some (name, properties)
          | _ => None
          end
      | _ => None
      end
  | _, _ => None
  end.

(** A declaration is cached under [toolName]: under its name, and
    under its sanitized name. *)
Definition cachedUnder (toolName : jsstring)
    (d : jsstring * list (jsstring * json)) : bool :=
  JsString.eqb (fst d) toolName
  || JsString.eqb (sanitizedNameOf (fst d)) toolName.

(** The shape of a [SchemaInfo]: items only with the type array,
    properties only with the type object, never both, the keys of
    the properties distinct, and so on inside. *)
Fixpoint shaped (info : SchemaInfo) : Prop :=
  match info with
  | mkSchemaInfo t items properties =>
      match items with
      | Some i => t = u "array" /\ properties = None /\ shaped i
      | None => True
      end
      /\ match properties with
         | Some ps =>
             t = u "object" /\ List.NoDup (map fst ps)
             /\ (fix all (l : list (jsstring * SchemaInfo)) : Prop :=
                   match l with
                   | [] => True
                   | kv :: r => shaped (snd kv) /\ all r
                   end) ps
         | None => True
         end
  end.

(** How deep a value is nested: one for a value that is no array
    and no object, and one more than its deepest element or property
    for an array or an object. *)
Fixpoint height (v : json) : nat :=
  match v with
  | JArray items => S (list_max (map height items))
  | JObject props => S (list_max (map (fun kv => height (snd kv)) props))
  | _ => 1
  end.

(** The type that a parameter schema declares: its [type] when that
    is a string, and unknown otherwise. *)
Definition declaredType (schema : json) : jsstring :=
  match schema with
  | JObject p =>
      match JsObject.get p (u "type") with
      | Some (JString t) => t
      | _ => u "unknown"
      end
  | _ => u "unknown"
  end.

(** *** Notions for response bodies *)

Import ResponseBody.

(** The parts of a candidate, and the parts of all candidates of a
    payload in order. *)
Definition candidateParts (candidate : json) : list json :=
  match candidate with
  | JObject c =>
      match JsObject.get c (u "content") with
      | Some (JObject content) =>
          match JsObject.get content (u "parts") with
          | Some (JArray parts) => parts
          | _ => []
          end
      | _ => []
      end
  | _ => []
  end.

Definition payloadParts (payload : json) : list json :=
  match payload with
  | JObject p =>
      match JsObject.get p (u "candidates") with
      | Some (JArray candidates) => flat_map candidateParts candidates
      | _ => []
      end
  | _ => []
  end.

(** The tool name that a part carries under [key], which is
    functionCall or functionResponse. *)
Definition callName (key : jsstring) (part : json) : option jsstring :=
  match part with
  | JObject record =>
      match JsObject.get record key with
      | Some (JObject call) =>
          match JsObject.get call (u "name") with
          | Some (JString name) => Some name
          | _ => None
          end
      | _ => None
      end
  | _ => None
  end.

Definition callKey (key : jsstring) : Prop :=
  key = u "functionCall" \/ key = u "functionResponse".

(** The text of a part that is a thought, and the thought signature
    of a part; empty when there is none. *)
Definition thoughtText (part : json) : jsstring :=
  match part with
  | JObject p =>
      match JsObject.get p (u "thought"), JsObject.get p (u "text") with
      | Some (JBool true), Some (JString text) => text
      | _, _ => []
      end
  | _ => []
  end.

Definition signatureOf (part : json) : jsstring :=
  match part with
  | JObject p =>
      match JsObject.get p (u "thoughtSignature") with
      | Some (JString signature) => signature
      | _ => []
      end
  | _ => []
  end.

(** A string of white space only. *)
Definition blank (s : jsstring) : Prop := trim s = [].

(** A map of restored names with one entry, and a payload with a
    function call, a thought and a thought signature, for the
    examples. *)
Definition exampleNames : state :=
  snd (sanitizeToolNameForGemini emptyState (u "1abc")).

Definition exampleParts : list json :=
  [JObject
     [(u "functionCall",
       JObject
         [(u "name", JString (u "t_1abc"));
          (u "args", JObject [(u "path", JString (u "a"))])])];
   JObject [(u "text", JString (u "hm")); (u "thought", JBool true)];
   JObject [(u "thoughtSignature", JString (u "sig"))]].

Definition examplePayload : json :=
  JObject
    [(u "candidates",
      JArray
        [JObject
           [(u "content", JObject [(u "parts", JArray exampleParts)])]])].

(** *** Notions for the stream adapter *)

Import StreamAdapter.

(** The record parts of the first candidate of the response that the
    data of an event holds. *)
Definition eventParts {number : Type} (event : Sse.SseEvent number) : list json :=
  extractPartsFromUnknown (parseJsonOrNull (Sse.data event)).

Definition nonEmpty {A : Type} (l : list A) : bool :=
  match l with
  | [] => false
  | _ :: _ => true
  end.

(** The response envelope of a parsed body is one that both ways of
    unwrapping read alike: in its first record, or in the body itself
    when that is a record, the response property is absent or a
    record; a body that is an array holds a record. *)
Definition plainEnvelope (parsed : json) : Prop :=
  let inner (o : list (jsstring * json)) :=
    match JsObject.get o (u "response") with
    | None | Some (JObject _) => True
    | _ => False
    end in
  match parsed with
  | JArray items =>
      match List.find (fun item => isRecord (Some item)) items with
      | Some (JObject o) => inner o
      | _ => False
      end
  | JObject o => inner o
  | _ => True
  end.

(** * Properties *)

(** ** Thinking configuration *)

(** C2, as stated, fails: with the level representation selected and
    no effort set, an enabled thinking setting with a token budget
    yields a configuration that holds neither [thinkingLevel] nor
    [thinkingBudget]. *)
Lemma thinking_config_neither_key :
  exists cfg,
    buildThinkingConfigForAntigravity
      (mkModelConfig (Some (mkThinking (u "enabled") (Some 1024%Z) None))) true
    = Some cfg
    /\ JsObject.has cfg levelKey = false
    /\ JsObject.has cfg budgetKey = false.
Proof.
  eexists. split; [reflexivity | split; reflexivity].
Qed.

(** C2 (amended): for every thinking setting the emitted configuration
    never holds both keys.  Under the level representation it holds no
    [thinkingBudget], and it holds [thinkingLevel] when thinking is off
    (level minimal) or an effort is set (xhigh gives high, none gives
    minimal), and not otherwise.  Under the budget representation it
    holds no [thinkingLevel], and [thinkingBudget] is 0 when thinking is
    off, else the explicit budgetTokens, else -1. *)
Theorem thinking_config_one_representation :
  forall (t : Thinking) (useThinkingLevel : bool),
  exists cfg,
    buildThinkingConfigForAntigravity (mkModelConfig (Some t)) useThinkingLevel
    = Some cfg
    /\ JsObject.has cfg levelKey && JsObject.has cfg budgetKey = false
    /\ JsObject.get cfg levelKey
       = (if useThinkingLevel then expectedLevel t else None)
    /\ JsObject.get cfg budgetKey
       = (if useThinkingLevel then None
          else Some (VNumber (expectedBudget t)))
    /\ mapThinkingEffortToLevelString EffortXhigh = u "high"
    /\ mapThinkingEffortToLevelString EffortNone = u "minimal".
Proof.
  intros [ty budget eff] flag.
  unfold buildThinkingConfigForAntigravity, expectedLevel, expectedBudget,
    thinkingOff; cbn [thinking thinkingType effort budgetTokens].
  destruct (JsString.eqb ty (u "disabled") || isEffortNone eff) eqn:Hoff.
  - destruct flag; eexists; repeat split; reflexivity.
  - destruct eff as [e|], budget as [b|], flag;
      eexists; repeat split; try reflexivity;
      destruct e; reflexivity.
Qed.

(** ** Endpoint fallback *)

Section FallbackProperties.

Variable World : Type.
Variable customFetch : World -> jsstring -> FetchOutcome * World.
Variable formatAntigravityHttpError : Z -> jsstring -> jsstring -> jsstring.
Variable modelId : jsstring.
Variable streaming : bool.

Abbreviation tryEndpoints :=
  (tryEndpoints World customFetch formatAntigravityHttpError modelId streaming).
Abbreviation loopState := (loopState World).

Abbreviation failedAttempt' := (failedAttempt streaming).
Abbreviation recordedError' := (recordedError formatAntigravityHttpError modelId).
Abbreviation lastRecorded' := (lastRecorded formatAntigravityHttpError modelId).

Lemma lastRecorded_cons before a failed :
  lastRecorded' (Some (recordedError' a)) failed = lastRecorded' before (a :: failed).
Proof.
  unfold lastRecorded. rewrite last_cons.
  destruct (last failed); reflexivity.
Qed.

(** The loop from any state: it sends its requests to a prefix of
    the endpoints in their order, each from the world that the one
    before left, and logs what the network answers; either every
    endpoint was tried and failed, or the last request is the first
    accepted one. *)
Lemma tryEndpoints_spec (endpoints : list jsstring) :
  forall st : loopState,
  exists (n : nat) (new : list (jsstring * FetchOutcome)),
    let st' := tryEndpoints st endpoints in
    requests World st' = requests World st ++ new
    /\ (new, world World st')
       = fetchAll World customFetch (world World st)
           (map (endpointOf streaming) (firstn n endpoints))
    /\ ((response World st' = response World st
         /\ n = length endpoints
         /\ Forall failedAttempt' new
         /\ lastError World st' = lastRecorded' (lastError World st) new)
        \/ (exists failed e r,
              new = failed ++ [(e, Resolved r)]
              /\ response World st' = Some r
              /\ accepted streaming r = true
              /\ Forall failedAttempt' failed
              /\ lastError World st' = lastRecorded' (lastError World st) failed)).
Proof.
  induction endpoints as [|baseUrl rest IH]; intros st.
  - exists 0, []. cbn. rewrite app_nil_r. split; [reflexivity|].
    split; [reflexivity|]. left. repeat split. constructor.
  - cbn [AntigravityClient.tryEndpoints].
    destruct (customFetch (world World st) (endpointOf streaming baseUrl))
      as [outcome w] eqn:Hfetch.
    set (a := (endpointOf streaming baseUrl, outcome)).
    assert (Hstep : forall err,
      failedAttempt' a -> recordedError' a = err ->
      exists n new,
        let st' := tryEndpoints
          (mkLoopState World (response World st) (Some err)
             (requests World st ++ [a]) w) rest in
        requests World st' = requests World st ++ new
        /\ (new, world World st')
           = fetchAll World customFetch (world World st)
               (map (endpointOf streaming) (firstn n (baseUrl :: rest)))
        /\ ((response World st' = response World st
             /\ n = length (baseUrl :: rest)
             /\ Forall failedAttempt' new
             /\ lastError World st' = lastRecorded' (lastError World st) new)
            \/ (exists failed e r,
                  new = failed ++ [(e, Resolved r)]
                  /\ response World st' = Some r
                  /\ accepted streaming r = true
                  /\ Forall failedAttempt' failed
                  /\ lastError World st'
                     = lastRecorded' (lastError World st) failed))).
    { intros err Hfail Herr.
      destruct (IH (mkLoopState World (response World st) (Some err)
                      (requests World st ++ [a]) w))
        as (n & new & Hreq & Htrace & Hcases).
      exists (S n), (a :: new). cbn zeta in *.
      cbn [requests response lastError world] in *.
      split; [rewrite Hreq, <- app_assoc; reflexivity|].
      split.
      { cbn [firstn map fetchAll]. rewrite Hfetch, <- Htrace. reflexivity. }
      destruct Hcases as [(Hresp & Hn & Hall & Hlast)
                         | (failed & e & r & Hnew & Hresp & Hacc & Hall & Hlast)].
      - left. repeat split; try assumption.
        + cbn. congruence.
        + constructor; assumption.
        + rewrite Hlast, <- Herr. apply lastRecorded_cons.
      - right. exists (a :: failed), e, r. repeat split; try assumption.
        + rewrite Hnew. reflexivity.
        + constructor; assumption.
        + rewrite Hlast, <- Herr. apply lastRecorded_cons. }
    destruct outcome as [r|e].
    + destruct (accepted streaming r) eqn:Hacc.
      * exists 1, [a]. cbn zeta. cbn [requests response lastError world].
        split; [reflexivity|].
        split; [cbn [firstn map fetchAll]; rewrite Hfetch; reflexivity|].
        right. exists [], (endpointOf streaming baseUrl), r.
        repeat split; try assumption. constructor.
      * apply Hstep; [exact Hacc | reflexivity].
    + apply Hstep; [exact I | reflexivity].
Qed.

End FallbackProperties.


(** Three endpoints of which only the third answers 2xx: the result is
    the third response, after two recorded failures. *)
Example fallback_third_endpoint :
  let fetch (w : nat) (_ : jsstring) :=
    (if w <? 2 then Resolved (mkResponse 503 true (Some (u "busy")))
     else Resolved (mkResponse 200 true None), S w) in
  let run := requestWithFallback nat fetch (fun _ text _ => text) (u "m") true 0
               CODE_ASSIST_ENDPOINT_FALLBACKS in
  fst run = inr (mkResponse 200 true None)
  /\ length (requests nat (snd run)) = 3
  /\ lastError nat (snd run) = Some (u "HTTP 503 busy").
Proof. repeat split; reflexivity. Qed.

(** ** Tool-name sanitization *)

Lemma jsstring_eqb_eq (a b : jsstring) : JsString.eqb a b = true <-> a = b.
Proof.
  revert b. induction a as [|x a IH]; intros [|y b]; cbn; try easy.
  rewrite andb_true_iff, N.eqb_eq, IH. split.
  - intros [-> ->]. reflexivity.
  - intros [= -> ->]. split; reflexivity.
Qed.

Lemma jsstring_eqb_refl (a : jsstring) : JsString.eqb a a = true.
Proof. apply jsstring_eqb_eq. reflexivity. Qed.

Lemma jsstring_eqb_neq (a b : jsstring) : JsString.eqb a b = false <-> a <> b.
Proof.
  rewrite <- jsstring_eqb_eq. destruct (JsString.eqb a b); split; congruence.
Qed.

Lemma marker_changes_name (name : jsstring) :
  JsString.eqb (u "t_" ++ name) name = false.
Proof.
  apply jsstring_eqb_neq. intros Heq.
  apply (f_equal (@length N)) in Heq. cbn in Heq. lia.
Qed.

(** C7, as stated, fails: once the name 1abc was sanitized, the name
    t_1abc, which needs no sanitization, is resolved to 1abc. *)
Lemma sanitize_resolve_collision :
  let st1 := snd (sanitizeToolNameForGemini emptyState (u "1abc")) in
  let (sanitized, st2) := sanitizeToolNameForGemini st1 (u "t_1abc") in
  sanitized = u "t_1abc"
  /\ resolveOriginalToolName st2 sanitized = u "1abc"
  /\ resolveOriginalToolName st2 sanitized <> u "t_1abc".
Proof.
  cbn zeta.
  change (sanitizeToolNameForGemini
            (snd (sanitizeToolNameForGemini emptyState (u "1abc"))) (u "t_1abc"))
    with (u "t_1abc",
          mkState ∅ (<[u "t_1abc" := u "1abc"]> (∅ : gmap jsstring jsstring))).
  unfold resolveOriginalToolName. cbn [sanitizedToOriginalToolName].
  rewrite lookup_insert_eq. repeat split. discriminate.
Qed.

(** C7 (amended): sanitizing a name that starts with a digit prefixes
    the marker t_ and records the mapping, and the reverse lookup then
    recovers the name; sanitizing any other name changes nothing, and
    the reverse lookup returns that name provided it is not itself
    recorded as the sanitized form of an earlier name. *)
Theorem sanitize_then_resolve :
  forall (st : state) (name : jsstring),
    startsWithDigit name = true
    \/ sanitizedToOriginalToolName st !! name = None ->
    let (sanitized, st') := sanitizeToolNameForGemini st name in
    resolveOriginalToolName st' sanitized = name
    /\ (if startsWithDigit name
        then sanitized = u "t_" ++ name
             /\ sanitizedToOriginalToolName st' !! sanitized = Some name
        else sanitized = name /\ st' = st).
Proof.
  intros st name H. unfold sanitizeToolNameForGemini.
  destruct (startsWithDigit name) eqn:Hd.
  - rewrite marker_changes_name. cbn [negb]. unfold resolveOriginalToolName.
    cbn [sanitizedToOriginalToolName]. rewrite lookup_insert_eq. auto.
  - rewrite jsstring_eqb_refl. cbn [negb]. unfold resolveOriginalToolName.
    destruct H as [H|H]; [discriminate|]. rewrite H. auto.
Qed.

Lemma sanitize_then_resolve_witness :
  (startsWithDigit (u "1abc") = true
   \/ sanitizedToOriginalToolName emptyState !! u "1abc" = None)
  /\ let (sanitized, st') := sanitizeToolNameForGemini emptyState (u "1abc") in
     resolveOriginalToolName st' sanitized = u "1abc"
     /\ (if startsWithDigit (u "1abc")
         then sanitized = u "t_" ++ u "1abc"
              /\ sanitizedToOriginalToolName st' !! sanitized = Some (u "1abc")
         else sanitized = u "1abc" /\ st' = emptyState).
Proof.
  split.
  - left. reflexivity.
  - apply (sanitize_then_resolve emptyState (u "1abc")).
    left. reflexivity.
Defined.

(** In a process that has sanitized no name yet, the round trip holds
    for every name. *)
Corollary sanitize_then_resolve_fresh (name : jsstring) :
  resolveOriginalToolName
    (snd (sanitizeToolNameForGemini emptyState name))
    (fst (sanitizeToolNameForGemini emptyState name)) = name.
Proof.
  unfold sanitizeToolNameForGemini, resolveOriginalToolName.
  destruct (startsWithDigit name).
  - rewrite marker_changes_name.
    cbn [negb fst snd sanitizedToOriginalToolName].
    rewrite lookup_insert_eq. reflexivity.
  - rewrite jsstring_eqb_refl.
    cbn [negb fst snd sanitizedToOriginalToolName emptyState].
    rewrite lookup_empty. reflexivity.
Qed.

(** ** Thought-signature cache *)

(** C8, as stated, fails: the hashed text joins its parts with colons,
    so session s1 with text a:b and session s1:a with text b share a
    key, and the signature recorded under the first is returned by a
    lookup under the second, for which nothing was recorded. *)
Lemma signature_leaks_across_sessions :
  u "s1" <> u "s1:a"
  /\ getCachedThoughtSignature
       (cacheThoughtSignature ∅ Claude (u "s1") (u "a:b") (u "sig-A"))
       Claude (u "s1:a") (u "b")
     = Some (u "sig-A").
Proof.
  split; [discriminate|].
  unfold getCachedThoughtSignature, cacheThoughtSignature, getSignatureKey.
  change (keyInput Claude (u "s1:a") (u "b"))
    with (keyInput Claude (u "s1") (u "a:b")).
  apply lookup_insert_eq.
Qed.

(** Two texts cut at a separator that their first parts do not hold
    are equal part by part. *)
Lemma app_sep_inj (c : N) (a a' b b' : jsstring) :
  ~ In c a -> ~ In c a' -> a ++ c :: b = a' ++ c :: b' -> a = a' /\ b = b'.
Proof.
  revert a'. induction a as [|x a IH]; intros [|x' a'] Ha Ha' H; cbn in *.
  - injection H as <-. split; reflexivity.
  - injection H as <- _. tauto.
  - injection H as -> _. tauto.
  - injection H as <- H. destruct (IH a') as [<- <-]; tauto.
Qed.

Lemma familyString_no_colon (family : AntigravityModelFamily) :
  ~ In 58%N (familyString family).
Proof. destruct family; cbn; intuition discriminate. Qed.

Lemma familyString_inj (f1 f2 : AntigravityModelFamily) :
  familyString f1 = familyString f2 -> f1 = f2.
Proof. destruct f1, f2; cbn; intros H; try reflexivity; discriminate H. Qed.

Lemma keyInput_eq (f1 f2 : AntigravityModelFamily) (s1 t1 s2 t2 : jsstring) :
  keyInput f1 s1 t1 = keyInput f2 s2 t2
  <-> f1 = f2 /\ s1 ++ u ":" ++ trim t1 = s2 ++ u ":" ++ trim t2.
Proof.
  unfold keyInput, normalizeThoughtText. change (u ":") with [58%N].
  cbn [app]. split.
  - intros H. apply app_sep_inj in H; try apply familyString_no_colon.
    destruct H as [Hf H]. split; [apply familyString_inj, Hf|exact H].
  - intros [-> H]. rewrite H. reflexivity.
Qed.

(** C8 (amended): a signature recorded under a family, session and
    text is returned by the lookup under the same three (so recording
    sig-A under claude, s1, thinking... and looking it up returns
    sig-A), the key being the SHA-256 digest of
    family:session:trimmed-text.  A lookup under any family, session
    and text returns the recorded signature when the two digests are
    equal, and what the cache held before when they differ.  The
    hashed texts of two lookups are equal exactly when the families
    are equal and the texts session:trimmed-text are equal; for
    session ids that hold no colon, exactly when family, session and
    trimmed text are equal. *)
Theorem signature_record_lookup :
  forall (cache : gmap jsstring jsstring)
         (f1 f2 : AntigravityModelFamily) (s1 t1 s2 t2 sig : jsstring),
    getCachedThoughtSignature
      (cacheThoughtSignature cache f1 s1 t1 sig) f1 s1 t1 = Some sig
    /\ getSignatureKey f1 s1 t1
       = Sha256.sha256Hex (familyString f1 ++ u ":" ++ s1 ++ u ":" ++ trim t1)
    /\ getCachedThoughtSignature
         (cacheThoughtSignature cache f1 s1 t1 sig) f2 s2 t2
       = (if JsString.eqb (getSignatureKey f1 s1 t1) (getSignatureKey f2 s2 t2)
          then Some sig
          else getCachedThoughtSignature cache f2 s2 t2)
    /\ (keyInput f1 s1 t1 = keyInput f2 s2 t2
        <-> f1 = f2 /\ s1 ++ u ":" ++ trim t1 = s2 ++ u ":" ++ trim t2)
    /\ (~ In 58%N s1 -> ~ In 58%N s2 ->
        (keyInput f1 s1 t1 = keyInput f2 s2 t2
         <-> f1 = f2 /\ s1 = s2 /\ trim t1 = trim t2)).
Proof.
  intros cache f1 f2 s1 t1 s2 t2 sig.
  unfold getCachedThoughtSignature, cacheThoughtSignature.
  split; [apply lookup_insert_eq|].
  split; [reflexivity|].
  split.
  - destruct (JsString.eqb _ _) eqn:E.
    + apply jsstring_eqb_eq in E. rewrite <- E. apply lookup_insert_eq.
    + apply jsstring_eqb_neq in E. apply lookup_insert_ne, E.
  - split; [apply keyInput_eq|].
    intros H1 H2. rewrite keyInput_eq. change (u ":") with [58%N]. cbn [app].
    split.
    + intros [Hf H]. apply app_sep_inj in H; tauto.
    + intros (-> & -> & ->). split; reflexivity.
Qed.

Lemma signature_record_lookup_witness :
  getCachedThoughtSignature
    (cacheThoughtSignature ∅ Claude (u "s1") (u "thinking...") (u "sig-A"))
    Claude (u "s1") (u "thinking...") = Some (u "sig-A")
  /\ getCachedThoughtSignature
       (cacheThoughtSignature ∅ Claude (u "s1") (u "thinking...") (u "sig-A"))
       Claude (u "s2") (u "thinking...") = None.
Proof.
  destruct (signature_record_lookup ∅ Claude Claude (u "s1") (u "thinking...")
              (u "s2") (u "thinking...") (u "sig-A"))
    as (Hsame & _ & Hother & _).
  split; [exact Hsame|].
  rewrite Hother.
  replace (JsString.eqb (getSignatureKey Claude (u "s1") (u "thinking..."))
             (getSignatureKey Claude (u "s2") (u "thinking...")))
    with false by (vm_compute; reflexivity).
  apply lookup_empty.
Defined.

(** White space around the reasoning text does not change the key. *)
Example signature_key_trims_text :
  getSignatureKey Claude (u "s1") (u "  thinking... ")
  = getSignatureKey Claude (u "s1") (u "thinking...").
Proof.
  unfold getSignatureKey. apply f_equal. vm_compute. reflexivity.
Qed.

(** The key of the recorded example is the digest that Node prints. *)
Example signature_key_example :
  getSignatureKey Claude (u "s1") (u "thinking...")
  = u "6036c141fdbf3935bd43f9097975ac13a568f6fd8523aad92e0ebbb2d3dd4a1a".
Proof. vm_compute. reflexivity. Qed.

(** ** Searching and slicing strings *)

Lemma startsWith_app (s p t : jsstring) :
  startsWith s p = true -> startsWith (s ++ t) p = true.
Proof.
  revert s. induction p as [|y p IH]; intros [|x s]; cbn; try easy.
  rewrite !andb_true_iff. intros [Hx Hs]. split; [exact Hx | apply IH, Hs].
Qed.

Lemma startsWith_length (s p : jsstring) :
  startsWith s p = true -> length p <= length s.
Proof.
  revert s. induction p as [|y p IH]; intros [|x s]; cbn; try easy; try lia.
  rewrite andb_true_iff. intros [_ Hs]. apply IH in Hs. lia.
Qed.

Lemma startsWith_false_app (s p t : jsstring) :
  startsWith s p = false -> length p <= length s ->
  startsWith (s ++ t) p = false.
Proof.
  revert s. induction p as [|y p IH]; intros [|x s]; cbn; try easy; try lia.
  rewrite !andb_false_iff. intros [Hx|Hs] Hlen; [left; exact Hx|].
  right. apply IH; [exact Hs | lia].
Qed.

(** A found index lies in the string, with room for the pattern. *)
Lemma indexOf_from_found (s p : jsstring) (i : Z) :
  indexOf_from i s p <> (-1)%Z -> (0 <= i)%Z ->
  exists k : nat,
    indexOf_from i s p = (i + Z.of_nat k)%Z
    /\ k + length p <= length s
    /\ startsWith (skipn k s) p = true.
Proof.
  revert i. induction s as [|x s IH]; intros i Hfound Hi.
  - cbn in *. destruct (startsWith [] p) eqn:Hp; [|congruence].
    exists 0. split; [lia|]. split; [|exact Hp].
    apply startsWith_length in Hp. cbn in *. lia.
  - cbn [indexOf_from] in *. destruct (startsWith (x :: s) p) eqn:Hp.
    + exists 0. split; [lia|]. split; [|exact Hp].
      apply startsWith_length in Hp. lia.
    + destruct (IH (i + 1)%Z Hfound ltac:(lia)) as (k & Hk & Hlen & Hst).
      exists (S k). split; [lia|]. split; [cbn [length]; lia | exact Hst].
Qed.

Lemma indexOf_from_app (s p t : jsstring) (i : Z) :
  indexOf_from i s p <> (-1)%Z -> (0 <= i)%Z ->
  indexOf_from i (s ++ t) p = indexOf_from i s p.
Proof.
  revert i. induction s as [|x s IH]; intros i Hfound Hi.
  - cbn in Hfound. destruct (startsWith [] p) eqn:Hp; [|congruence].
    destruct p; [|discriminate]. destruct t; reflexivity.
  - cbn [indexOf_from app] in *. destruct (startsWith (x :: s) p) eqn:Hp.
    + change (x :: s ++ t) with ((x :: s) ++ t).
      rewrite (startsWith_app _ _ t Hp). reflexivity.
    + destruct (indexOf_from_found s p (i + 1)%Z Hfound ltac:(lia))
        as (k & _ & Hlen & _).
      change (x :: s ++ t) with ((x :: s) ++ t).
      rewrite (startsWith_false_app _ _ t Hp) by (cbn [length]; lia).
      apply IH; [exact Hfound | lia].
Qed.

Lemma slice_prefix (s : jsstring) (k : nat) :
  k <= length s -> slice s 0 (Z.of_nat k) = firstn k s.
Proof.
  intros Hk. unfold slice, rel_index.
  replace (0 <? 0)%Z with false by reflexivity.
  destruct (Z.of_nat k <? 0)%Z eqn:Hneg; [apply Z.ltb_lt in Hneg; lia|].
  rewrite (Z.min_l 0) by lia. rewrite (Z.min_l (Z.of_nat k)) by lia.
  cbn [Z.to_nat skipn]. f_equal. lia.
Qed.

Lemma slice_from_suffix (s : jsstring) (k : nat) :
  k <= length s -> slice_from s (Z.of_nat k) = skipn k s.
Proof.
  intros Hk. unfold slice_from, slice, rel_index.
  destruct (Z.of_nat k <? 0)%Z eqn:Hneg; [apply Z.ltb_lt in Hneg; lia|].
  destruct (Z.of_nat (length s) <? 0)%Z eqn:Hneg2;
    [apply Z.ltb_lt in Hneg2; lia|].
  rewrite (Z.min_l (Z.of_nat k)) by lia. rewrite Z.min_id.
  rewrite Nat2Z.id. apply firstn_all2. rewrite length_skipn. lia.
Qed.

(** ** The SSE parser *)

Section SseProperties.

Variable number : Type.
Variable Number : jsstring -> number.
Variable Number_isNaN : number -> bool.
Variable Number_isFinite : number -> bool.

Abbreviation parseFrame := (Sse.parseFrame number Number Number_isNaN Number_isFinite).
Abbreviation drain := (Sse.drain number Number Number_isNaN Number_isFinite).
Abbreviation drainFrames :=
  (Sse.drainFrames number Number Number_isNaN Number_isFinite).
Abbreviation readLoop := (Sse.readLoop number Number Number_isNaN Number_isFinite).
Abbreviation parseSseStream :=
  (Sse.parseSseStream number Number Number_isNaN Number_isFinite).

(** What one round of the inner loop does to a buffer that holds a
    blank line: the frame before it is cut off with the blank line. *)
Lemma boundary_cut (buffer : jsstring) :
  indexOf buffer Sse.LFLF <> (-1)%Z ->
  exists k : nat,
    indexOf buffer Sse.LFLF = Z.of_nat k
    /\ k + 2 <= length buffer
    /\ slice buffer 0 (indexOf buffer Sse.LFLF) = firstn k buffer
    /\ slice_from buffer (indexOf buffer Sse.LFLF + 2) = skipn (k + 2) buffer.
Proof.
  intros Hfound.
  destruct (indexOf_from_found buffer Sse.LFLF 0 Hfound ltac:(lia))
    as (k & Hk & Hlen & _).
  fold (indexOf buffer Sse.LFLF) in Hk. cbn [length Sse.LFLF] in Hlen.
  exists k. rewrite Hk, Z.add_0_l. split; [reflexivity|]. split; [exact Hlen|].
  split; [apply slice_prefix; lia|].
  replace (Z.of_nat k + 2)%Z with (Z.of_nat (k + 2)) by lia.
  apply slice_from_suffix. lia.
Qed.

(** The inner loop never runs short of rounds: any number of rounds
    from the length of the buffer on gives the same result. *)
Lemma drain_fuel (f1 : nat) :
  forall (f2 : nat) (buffer : jsstring),
    length buffer <= f1 -> length buffer <= f2 ->
    drain f1 buffer = drain f2 buffer.
Proof.
  induction f1 as [|f1 IH]; intros f2 buffer H1 H2.
  - destruct buffer; [|cbn in H1; lia]. destruct f2; reflexivity.
  - destruct f2 as [|f2].
    + destruct buffer; [reflexivity | cbn in H2; lia].
    + cbn [Sse.drain].
      destruct (Z.eqb (indexOf buffer Sse.LFLF) (-1)) eqn:Hb; [reflexivity|].
      apply Z.eqb_neq in Hb.
      destruct (boundary_cut buffer Hb) as (k & _ & Hlen & _ & Hrest).
      rewrite Hrest.
      rewrite (IH f2 (skipn (k + 2) buffer)); [reflexivity | |];
        rewrite length_skipn; lia.
Qed.

(** Unfolding of the inner loop, one round at a time. *)
Lemma drainFrames_step (buffer : jsstring) :
  drainFrames buffer =
    if Z.eqb (indexOf buffer Sse.LFLF) (-1) then ([], buffer)
    else
      let raw := slice buffer 0 (indexOf buffer Sse.LFLF) in
      let buffer' := slice_from buffer (indexOf buffer Sse.LFLF + 2) in
      let (evs, rest) := drainFrames buffer' in
      match parseFrame raw with
      | Some e => (e :: evs, rest)
      | None => (evs, rest)
      end.
Proof.
  unfold Sse.drainFrames.
  destruct (Z.eqb (indexOf buffer Sse.LFLF) (-1)) eqn:Hb.
  - destruct buffer as [|x buffer]; [reflexivity|].
    cbn [length Sse.drain]. rewrite Hb. reflexivity.
  - pose proof Hb as Hb'. apply Z.eqb_neq in Hb'.
    destruct (boundary_cut buffer Hb') as (k & _ & Hlen & _ & Hrest).
    destruct buffer as [|x buffer]; [cbn in Hlen; lia|].
    cbn [length Sse.drain]. rewrite Hb. cbn zeta. rewrite Hrest.
    rewrite (drain_fuel (length buffer) (length (skipn (k + 2) (x :: buffer))));
      [reflexivity | | lia].
    rewrite length_skipn. cbn [length]. lia.
Qed.

(** The buffer that the inner loop leaves holds no blank line. *)
Lemma drainFrames_rest (n : nat) :
  forall buffer : jsstring,
    length buffer <= n ->
    indexOf (snd (drainFrames buffer)) Sse.LFLF = (-1)%Z.
Proof.
  induction n as [|n IH]; intros buffer Hn; rewrite drainFrames_step;
    destruct (Z.eqb (indexOf buffer Sse.LFLF) (-1)) eqn:Hb;
    try (apply Z.eqb_eq in Hb; exact Hb);
    apply Z.eqb_neq in Hb;
    destruct (boundary_cut buffer Hb) as (k & _ & Hlen & _ & Hrest).
  - lia.
  - cbn zeta. rewrite Hrest.
    specialize (IH (skipn (k + 2) buffer)).
    destruct (drainFrames (skipn (k + 2) buffer)) as [evs rest].
    assert (Hr : indexOf rest Sse.LFLF = (-1)%Z)
      by (apply IH; rewrite length_skipn; lia).
    destruct (parseFrame _); exact Hr.
Qed.

(** Text that arrives later does not change the frames already cut:
    draining a buffer extended by [text] is draining the buffer, then
    draining what is left extended by [text]. *)
Lemma drainFrames_app (n : nat) :
  forall buffer text : jsstring,
    length buffer <= n ->
    drainFrames (buffer ++ text) =
      let (evs1, rest1) := drainFrames buffer in
      let (evs2, rest2) := drainFrames (rest1 ++ text) in
      (evs1 ++ evs2, rest2).
Proof.
  induction n as [|n IH]; intros buffer text Hn;
    rewrite (drainFrames_step buffer);
    destruct (Z.eqb (indexOf buffer Sse.LFLF) (-1)) eqn:Hb;
    try (destruct (drainFrames (buffer ++ text)); reflexivity);
    apply Z.eqb_neq in Hb;
    destruct (boundary_cut buffer Hb) as (k & Hk & Hlen & Hraw & Hrest).
  - lia.
  - cbn zeta. rewrite Hraw, Hrest.
    rewrite (drainFrames_step (buffer ++ text)).
    assert (Hidx : indexOf (buffer ++ text) Sse.LFLF = Z.of_nat k).
    { unfold indexOf. rewrite indexOf_from_app; [exact Hk | exact Hb | lia]. }
    assert (Hb2 : indexOf (buffer ++ text) Sse.LFLF <> (-1)%Z) by lia.
    destruct (boundary_cut (buffer ++ text) Hb2) as (k' & Hk' & _ & Hraw' & Hrest').
    assert (k' = k) by lia. subst k'.
    apply Z.eqb_neq in Hb2. rewrite Hb2. cbn zeta. rewrite Hraw', Hrest'.
    rewrite firstn_app, skipn_app.
    replace (k - length buffer) with 0 by lia.
    replace (k + 2 - length buffer) with 0 by lia.
    rewrite skipn_O, firstn_O, app_nil_r.
    rewrite (IH (skipn (k + 2) buffer) text) by (rewrite length_skipn; lia).
    destruct (drainFrames (skipn (k + 2) buffer)) as [evs1 rest1].
    destruct (parseFrame (firstn k buffer));
      destruct (drainFrames (rest1 ++ text)) as [evs2 rest2]; reflexivity.
Qed.

End SseProperties.

Lemma decode_app (a b : list Byte.byte) :
  forall d : Utf8.decoder,
    Utf8.decode d (a ++ b) =
      let (d1, text1) := Utf8.decode d a in
      let (d2, text2) := Utf8.decode d1 b in
      (d2, text1 ++ text2).
Proof.
  induction a as [|x a IH]; intros d.
  - cbn. destruct (Utf8.decode d b). reflexivity.
  - cbn [app Utf8.decode]. destruct (Utf8.decodeByte d x) as [d0 out0].
    rewrite IH. destruct (Utf8.decode d0 a) as [d1 text1].
    destruct (Utf8.decode d1 b) as [d2 text2].
    rewrite app_assoc. reflexivity.
Qed.

Section SseStreamProperties.

Variable number : Type.
Variable Number : jsstring -> number.
Variable Number_isNaN : number -> bool.
Variable Number_isFinite : number -> bool.

Abbreviation drainFrames' :=
  (Sse.drainFrames number Number Number_isNaN Number_isFinite).
Abbreviation readLoop' := (Sse.readLoop number Number Number_isNaN Number_isFinite).
Abbreviation parseSseStream' :=
  (Sse.parseSseStream number Number Number_isNaN Number_isFinite).

(** Two chunks read one after the other leave the loop where the two
    chunks read as one leave it, with the same events yielded. *)
Lemma readLoop_merge (d : Utf8.decoder) (buffer : jsstring)
    (c1 c2 : list Byte.byte) (more : list (list Byte.byte)) :
  readLoop' d buffer (c1 :: c2 :: more) = readLoop' d buffer ((c1 ++ c2) :: more).
Proof.
  cbn [Sse.readLoop]. rewrite decode_app.
  destruct (Utf8.decode d c1) as [d1 text1].
  destruct (Utf8.decode d1 c2) as [d2 text2].
  rewrite (app_assoc buffer text1 text2).
  rewrite (drainFrames_app number Number Number_isNaN Number_isFinite
             (length (buffer ++ text1)) (buffer ++ text1) text2 (le_n _)).
  destruct (drainFrames' (buffer ++ text1)) as [evs1 rest1].
  destruct (drainFrames' (rest1 ++ text2)) as [evs2 rest2].
  destruct (readLoop' d2 rest2 more) as [evs3 final].
  rewrite app_assoc. reflexivity.
Qed.

Lemma readLoop_concat (more : list (list Byte.byte)) :
  forall (d : Utf8.decoder) (buffer : jsstring) (c : list Byte.byte),
    readLoop' d buffer (c :: more) = readLoop' d buffer [concat (c :: more)].
Proof.
  induction more as [|c' more IH]; intros d buffer c.
  - cbn [concat]. rewrite app_nil_r. reflexivity.
  - rewrite readLoop_merge, IH. cbn [concat]. rewrite app_assoc. reflexivity.
Qed.

Lemma readLoop_app (chunks chunks' : list (list Byte.byte)) :
  forall (d : Utf8.decoder) (buffer : jsstring),
    readLoop' d buffer (chunks ++ chunks') =
      let (evs1, st) := readLoop' d buffer chunks in
      let (evs2, final) := readLoop' (fst st) (snd st) chunks' in
      (evs1 ++ evs2, final).
Proof.
  induction chunks as [|c chunks IH]; intros d buffer.
  - cbn. destruct (readLoop' d buffer chunks'). reflexivity.
  - cbn [app Sse.readLoop]. destruct (Utf8.decode d c) as [d1 text].
    destruct (drainFrames' (buffer ++ text)) as [evs rest].
    rewrite IH. destruct (readLoop' d1 rest chunks) as [evs1 st].
    destruct (readLoop' (fst st) (snd st) chunks') as [evs2 final].
    rewrite app_assoc. reflexivity.
Qed.

End SseStreamProperties.

(** C3: however the bytes of a stream are split into chunks, the
    parser yields the events that it yields when all the bytes arrive
    as a single chunk.  This holds for every byte input, well-formed or
    not. *)
Theorem sse_chunk_boundary_independence :
  forall (number : Type) (Number : jsstring -> number)
         (Number_isNaN Number_isFinite : number -> bool)
         (chunks : list (list Byte.byte)),
    Sse.parseSseStream number Number Number_isNaN Number_isFinite chunks
    = Sse.parseSseStream number Number Number_isNaN Number_isFinite
        [concat chunks].
Proof.
  intros number Number Number_isNaN Number_isFinite [|c more].
  - reflexivity.
  - unfold Sse.parseSseStream. rewrite readLoop_concat. reflexivity.
Qed.

(** C10: when the stream ends after a last chunk whose text, joined to
    what the buffer still holds, contains no blank line, that text
    stays in the buffer and is dropped with it: the events are those
    yielded before that chunk, and the trailing frame is not among
    them. *)
Theorem sse_unterminated_tail_discarded :
  forall (number : Type) (Number : jsstring -> number)
         (Number_isNaN Number_isFinite : number -> bool)
         (chunks : list (list Byte.byte)) (tail : list Byte.byte),
    let st := snd (Sse.readLoop number Number Number_isNaN Number_isFinite
                     Utf8.newDecoder [] chunks) in
    let pending := snd st ++ snd (Utf8.decode (fst st) tail) in
    indexOf pending Sse.LFLF = (-1)%Z ->
    Sse.parseSseStream number Number Number_isNaN Number_isFinite
      (chunks ++ [tail])
    = Sse.parseSseStream number Number Number_isNaN Number_isFinite chunks
    /\ snd (snd (Sse.readLoop number Number Number_isNaN Number_isFinite
                   Utf8.newDecoder [] (chunks ++ [tail]))) = pending.
Proof.
  intros number Number Number_isNaN Number_isFinite chunks tail st pending Hnone.
  subst st pending.
  unfold Sse.parseSseStream. rewrite readLoop_app.
  destruct (Sse.readLoop number Number Number_isNaN Number_isFinite
              Utf8.newDecoder [] chunks) as [evs1 [d1 buffer1]].
  cbn [fst snd Sse.readLoop] in *.
  destruct (Utf8.decode d1 tail) as [d2 text]. cbn [snd] in Hnone.
  rewrite (drainFrames_step number Number Number_isNaN Number_isFinite).
  rewrite Hnone. cbn. rewrite !app_nil_r. split; reflexivity.
Qed.

Lemma sse_unterminated_tail_discarded_witness :
  let chunks := [Utf8.bytes "data: a" ++ [LF; LF]] in
  let tail := Utf8.bytes "data: b" in
  let st := snd (Sse.readLoop (option N) Sse.decimalNumber Sse.decimal_isNaN
                   Sse.decimal_isFinite Utf8.newDecoder [] chunks) in
  indexOf (snd st ++ snd (Utf8.decode (fst st) tail)) Sse.LFLF = (-1)%Z
  /\ Sse.parseSseStreamDecimal (chunks ++ [tail])
     = Sse.parseSseStreamDecimal chunks
  /\ Sse.parseSseStreamDecimal chunks = [Sse.mkSseEvent (u "a") None None None]
  /\ snd (snd (Sse.readLoop (option N) Sse.decimalNumber Sse.decimal_isNaN
                 Sse.decimal_isFinite Utf8.newDecoder [] (chunks ++ [tail])))
     = u "data: b".
Proof.
  cbn zeta.
  assert (H : indexOf
    (snd (snd (Sse.readLoop (option N) Sse.decimalNumber Sse.decimal_isNaN
                 Sse.decimal_isFinite Utf8.newDecoder []
                 [Utf8.bytes "data: a" ++ [LF; LF]]))
     ++ snd (Utf8.decode
               (fst (snd (Sse.readLoop (option N) Sse.decimalNumber
                            Sse.decimal_isNaN Sse.decimal_isFinite
                            Utf8.newDecoder []
                            [Utf8.bytes "data: a" ++ [LF; LF]])))
               (Utf8.bytes "data: b"))) Sse.LFLF = (-1)%Z)
    by (vm_compute; reflexivity).
  split; [exact H|].
  destruct (sse_unterminated_tail_discarded (option N) Sse.decimalNumber
              Sse.decimal_isNaN Sse.decimal_isFinite
              [Utf8.bytes "data: a" ++ [LF; LF]] (Utf8.bytes "data: b") H)
    as [Hev Hbuf].
  split; [exact Hev|]. split; [vm_compute; reflexivity|].
  rewrite Hbuf. vm_compute. reflexivity.
Defined.

(** A frame cut in the middle of a character of two bytes, and cut
    again inside the blank line, is parsed as when it arrives whole. *)
Example sse_split_inside_character :
  let whole := Utf8.bytes "data: caf" ++ [Byte.xc3; Byte.xa9; LF; LF] in
  Sse.parseSseStreamDecimal
    [Utf8.bytes "data: caf" ++ [Byte.xc3]; [Byte.xa9; LF]; [LF]]
  = Sse.parseSseStreamDecimal [whole]
  /\ Sse.parseSseStreamDecimal [whole]
     = [Sse.mkSseEvent (u "caf" ++ [233%N]) None None None].
Proof. split; vm_compute; reflexivity. Qed.

(** The frame that the tail of the stream would have yielded, had a
    blank line followed it. *)
Example sse_terminated_tail_yielded :
  Sse.parseSseStreamDecimal
    [Utf8.bytes "data: a" ++ [LF; LF]; Utf8.bytes "data: b" ++ [LF; LF]]
  = [Sse.mkSseEvent (u "a") None None None;
     Sse.mkSseEvent (u "b") None None None].
Proof. vm_compute. reflexivity. Qed.

Lemma lfOnlyAfterCr_no_blank_line (s : jsstring) :
  forall prev, lfOnlyAfterCr prev s = true -> indexOf s Sse.LFLF = (-1)%Z.
Proof.
  unfold indexOf. generalize 0%Z.
  induction s as [|c s IH]; intros i prev H; [reflexivity|].
  cbn [lfOnlyAfterCr] in H. apply andb_true_iff in H as [Hc Hs].
  cbn [indexOf_from].
  destruct (startsWith (c :: s) Sse.LFLF) eqn:Hstart; [|apply (IH _ c Hs)].
  exfalso. unfold Sse.LFLF in Hstart.
  destruct s as [|c' s]; cbn [startsWith] in Hstart;
    [rewrite andb_false_r in Hstart; discriminate|].
  rewrite andb_true_r in Hstart.
  apply andb_true_iff in Hstart as [Hc10 Hc'10].
  cbn [lfOnlyAfterCr] in Hs. rewrite Hc'10 in Hs.
  apply N.eqb_eq in Hc10. subst c. discriminate.
Qed.

(** No event at all comes out of a stream whose every line feed
    follows a carriage return, whatever its frames: the buffer never
    holds two line feeds in a row. *)
Lemma sse_crlf_stream_yields_nothing :
  forall (number : Type) (Number : jsstring -> number)
         (Number_isNaN Number_isFinite : number -> bool)
         (chunks : list (list Byte.byte)),
    lfOnlyAfterCr 0 (snd (Utf8.decode Utf8.newDecoder (concat chunks))) = true ->
    Sse.parseSseStream number Number Number_isNaN Number_isFinite chunks = [].
Proof.
  intros number Number Number_isNaN Number_isFinite chunks H.
  apply lfOnlyAfterCr_no_blank_line in H.
  destruct chunks as [|c more]; [reflexivity|].
  unfold Sse.parseSseStream. rewrite readLoop_concat.
  cbn [Sse.readLoop].
  destruct (Utf8.decode Utf8.newDecoder (concat (c :: more))) as [d text].
  cbn [snd app] in *.
  rewrite (drainFrames_step number Number Number_isNaN Number_isFinite).
  rewrite H. reflexivity.
Qed.

(** C6, evaluated: a frame that ends in CR LF CR LF is never cut from
    the buffer, so it yields no event, while the same frame ending in
    LF LF yields its event; the search for the frame boundary looks for
    two line feeds in a row in text whose carriage returns are still in
    place. *)
Theorem sse_crlf_frame_yields_nothing :
  forall (number : Type) (Number : jsstring -> number)
         (Number_isNaN Number_isFinite : number -> bool),
    Sse.parseSseStream number Number Number_isNaN Number_isFinite
      [Utf8.bytes "data: a" ++ [CR; LF; CR; LF]] = []
    /\ Sse.parseSseStream number Number Number_isNaN Number_isFinite
         [Utf8.bytes "data: a" ++ [LF; LF]]
       = [Sse.mkSseEvent (u "a") None None None].
Proof.
  intros. split; vm_compute; reflexivity.
Qed.

(** ** The JSON parser: what it consumes, and that it never runs out
       of fuel *)

Lemma bind_Ok {A B} (r : result A) (k : A -> result B) (b : B) :
  bind r k = Ok b -> exists a, r = Ok a /\ k a = Ok b.
Proof. destruct r; cbn; try discriminate. eauto. Qed.

Ltac bind_inv H :=
  let a := fresh "a" in
  let Ha := fresh "Hbind" in
  apply bind_Ok in H; destruct H as (a & Ha & H); try destruct a.

Lemma skipWs_length (s : jsstring) : length (skipWs s) <= length s.
Proof.
  induction s as [|c s IH]; cbn; [lia|].
  destruct (isJsonWs c); cbn; lia.
Qed.

(** A string literal: each code unit of the value takes at least one
    of the text, and the closing quote one more. *)
Lemma parseStringBody_length (n : nat) :
  forall s t r,
    length s <= n ->
    parseStringBody s = Ok (t, r) -> length t + length r + 1 <= length s.
Proof.
  induction n as [|n IH]; intros s t r Hn H.
  - destruct s; [discriminate | cbn in Hn; lia].
  - destruct s as [|c s]; [discriminate|]. cbn [parseStringBody] in H.
    cbn [length] in *.
    destruct (N.eqb c 34); [injection H as <- <-; cbn; lia|].
    destruct (N.eqb c 92).
    + destruct s as [|e s1]; [discriminate|].
      destruct (N.eqb e 117).
      * destruct s1 as [|h1 [|h2 [|h3 [|h4 s2]]]]; try discriminate.
        destruct (hex4 h1 h2 h3 h4); [|discriminate].
        bind_inv H. injection H as <- <-.
        apply IH in Hbind; cbn [length] in *; lia.
      * destruct (simpleEscape e); [|discriminate].
        bind_inv H. injection H as <- <-.
        apply IH in Hbind; cbn [length] in *; lia.
    + destruct (N.ltb c 32); [discriminate|].
      bind_inv H. injection H as <- <-.
      apply IH in Hbind; cbn [length] in *; lia.
Qed.

Lemma takeDigits_length (s d r : jsstring) :
  takeDigits s = (d, r) -> length r <= length s.
Proof.
  revert d r. induction s as [|c s IH]; intros d r H; cbn in H.
  - injection H as <- <-. cbn. lia.
  - destruct (isDigit c).
    + destruct (takeDigits s) as [d' r'] eqn:E. injection H as <- <-.
      specialize (IH _ _ eq_refl). cbn. lia.
    + injection H as <- <-. lia.
Qed.

Lemma parseInt_length (s i r : jsstring) :
  parseInt s = Ok (i, r) -> length r < length s.
Proof.
  destruct s as [|c s]; cbn; [discriminate|].
  destruct (N.eqb c 48); [intros [= <- <-]; lia|].
  destruct (isDigit c); [|discriminate].
  destruct (takeDigits s) as [d r'] eqn:E. intros [= <- <-].
  apply takeDigits_length in E. lia.
Qed.

Lemma parseFrac_length (s f r : jsstring) :
  parseFrac s = Ok (f, r) -> length r <= length s.
Proof.
  destruct s as [|c s]; cbn; [intros [= <- <-]; cbn; lia|].
  destruct (N.eqb c 46); [|intros [= <- <-]; cbn; lia].
  destruct (takeDigits s) as [d r'] eqn:E.
  apply takeDigits_length in E.
  destruct d; [discriminate|]. intros [= <- <-]. lia.
Qed.

Lemma parseExp_length (s e r : jsstring) :
  parseExp s = Ok (e, r) -> length r <= length s.
Proof.
  destruct s as [|c s]; cbn; [intros [= <- <-]; cbn; lia|].
  destruct (N.eqb c 101 || N.eqb c 69); [|intros [= <- <-]; cbn; lia].
  set (sg := match s with
             | g :: r' => if N.eqb g 43 || N.eqb g 45 then ([g], r') else ([], s)
             | [] => ([], s)
             end).
  assert (Es : length (snd sg) <= length s).
  { subst sg. destruct s as [|g s']; cbn [snd length]; [lia|].
    destruct (N.eqb g 43 || N.eqb g 45); cbn [snd length]; lia. }
  destruct sg as [sign r1]. cbn [snd] in Es.
  destruct (takeDigits r1) as [d r'] eqn:E. apply takeDigits_length in E.
  destruct d; [discriminate|]. intros [= <- <-]. lia.
Qed.

Lemma parseNumber_length (s n r : jsstring) :
  parseNumber s = Ok (n, r) -> length r < length s.
Proof.
  unfold parseNumber.
  destruct (match s with
            | c :: r0 => if N.eqb c 45 then ([c], r0) else ([], s)
            | [] => ([], s)
            end) as [minus r0] eqn:E0.
  assert (H0 : length r0 <= length s).
  { destruct s as [|c s']; [injection E0 as <- <-; lia|].
    destruct (N.eqb c 45); injection E0 as <- <-; cbn; lia. }
  intros H. bind_inv H. bind_inv H. bind_inv H. injection H as <- <-.
  apply parseInt_length in Hbind. apply parseFrac_length in Hbind0.
  apply parseExp_length in Hbind1. lia.
Qed.

Lemma weightProps_cons (k : jsstring) (v : json) (o : list (jsstring * json)) :
  weightProps ((k, v) :: o) = weight v + weightProps o.
Proof. reflexivity. Qed.

Lemma weightProps_set (o : list (jsstring * json)) (k : jsstring) (v : json) :
  weightProps (JsObject.set o k v) <= weightProps o + weight v.
Proof.
  induction o as [|[k' v'] o IH]; cbn [JsObject.set].
  - rewrite weightProps_cons. lia.
  - destruct (JsString.eqb k' k); rewrite !weightProps_cons; lia.
Qed.

Lemma weightProps_members (ms : list (jsstring * json)) :
  forall acc,
    weightProps (fold_left (fun o kv => JsObject.set o (fst kv) (snd kv)) ms acc)
    <= weightProps acc + weightProps ms.
Proof.
  induction ms as [|[k v] ms IH]; intros acc; cbn [fold_left fst snd].
  - lia.
  - specialize (IH (JsObject.set acc k v)).
    pose proof (weightProps_set acc k v).
    rewrite weightProps_cons. lia.
Qed.

Lemma weight_array_cons (v : json) (vs : list json) :
  list_sum (map weight (v :: vs)) = weight v + list_sum (map weight vs).
Proof. reflexivity. Qed.

Lemma weight_pos (v : json) : 1 <= weight v.
Proof. destruct v; cbn; lia. Qed.

Lemma startsWith_cons_length (s p : jsstring) :
  startsWith s p = true -> length (skipn (length p) s) + length p = length s.
Proof.
  intros H. apply startsWith_length in H. rewrite length_skipn. lia.
Qed.

(** A parsed value weighs no more than the text it was read from. *)
Lemma parse_weight (f : nat) :
  (forall s v r, parseValue f s = Ok (v, r) ->
     weight v + length r <= length s)
  /\ (forall s vs r, parseElements f s = Ok (vs, r) ->
        list_sum (map weight vs) + length r + 1 <= length s)
  /\ (forall s ms r, parseMembers f s = Ok (ms, r) ->
        weightProps ms + length r + 1 <= length s).
Proof.
  induction f as [|f (IHv & IHe & IHm)];
    [repeat split; intros; discriminate|].
  split; [|split].
  - intros s v r H. cbn [parseValue] in H.
    pose proof (skipWs_length s) as Hws.
    destruct (skipWs s) as [|c r0]; [discriminate|]. cbn [length] in Hws.
    destruct (N.eqb c 91).
    { pose proof (skipWs_length r0) as Hws0.
      destruct (skipWs r0) as [|c' r'] eqn:E0; [discriminate|].
      cbn [length] in Hws0.
      destruct (N.eqb c' 93).
      - injection H as <- <-. cbn. lia.
      - bind_inv H. injection H as <- <-. apply IHe in Hbind. cbn. lia. }
    destruct (N.eqb c 123).
    { pose proof (skipWs_length r0) as Hws0.
      destruct (skipWs r0) as [|c' r'] eqn:E0; [discriminate|].
      cbn [length] in Hws0.
      destruct (N.eqb c' 125).
      - injection H as <- <-. cbn. lia.
      - bind_inv H. injection H as <- <-. apply IHm in Hbind.
        pose proof (weightProps_members l []) as Hw.
        unfold objOfMembers. cbn [weight]. fold (weightProps
          (fold_left (fun o kv => JsObject.set o (fst kv) (snd kv)) l [])).
        unfold weightProps at 2 in Hw. cbn in Hw. lia. }
    destruct (N.eqb c 34).
    { bind_inv H. injection H as <- <-.
      apply (parseStringBody_length _ _ _ _ (le_n _)) in Hbind. cbn. lia. }
    destruct (startsWith (c :: r0) (u "null")) eqn:E1.
    { injection H as <- <-. apply startsWith_cons_length in E1.
      cbn [length u map list_ascii_of_string] in *. cbn. cbn in E1. lia. }
    destruct (startsWith (c :: r0) (u "true")) eqn:E2.
    { injection H as <- <-. apply startsWith_cons_length in E2.
      cbn. cbn in E2. lia. }
    destruct (startsWith (c :: r0) (u "false")) eqn:E3.
    { injection H as <- <-. apply startsWith_cons_length in E3.
      cbn. cbn in E3. lia. }
    bind_inv H. injection H as <- <-. apply parseNumber_length in Hbind.
    cbn [length weight] in *. lia.
  - intros s vs r H. cbn [parseElements] in H.
    bind_inv H. apply IHv in Hbind.
    pose proof (skipWs_length l) as Hws.
    destruct (skipWs l) as [|c r'] eqn:E0; [discriminate|].
    cbn [length] in Hws.
    destruct (N.eqb c 44).
    + bind_inv H. injection H as <- <-. apply IHe in Hbind0.
      rewrite weight_array_cons. lia.
    + destruct (N.eqb c 93); [|discriminate].
      injection H as <- <-. rewrite weight_array_cons.
      change (list_sum (map weight [])) with 0. lia.
  - intros s ms r H. cbn [parseMembers] in H.
    pose proof (skipWs_length s) as Hws.
    destruct (skipWs s) as [|c r0]; [discriminate|]. cbn [length] in Hws.
    destruct (N.eqb c 34); [|discriminate].
    bind_inv H. apply (parseStringBody_length _ _ _ _ (le_n _)) in Hbind.
    pose proof (skipWs_length l0) as Hws1.
    destruct (skipWs l0) as [|c1 r2]; [discriminate|]. cbn [length] in Hws1.
    destruct (N.eqb c1 58); [|discriminate].
    bind_inv H. apply IHv in Hbind0.
    pose proof (skipWs_length l1) as Hws3.
    destruct (skipWs l1) as [|c3 r4]; [discriminate|]. cbn [length] in Hws3.
    destruct (N.eqb c3 44).
    + bind_inv H. injection H as <- <-. apply IHm in Hbind1.
      rewrite weightProps_cons. lia.
    + destruct (N.eqb c3 125); [|discriminate].
      injection H as <- <-. rewrite weightProps_cons.
      change (weightProps []) with 0. lia.
Qed.

Lemma JSON_parse_weight (text : jsstring) (v : json) :
  JSON_parse text = Ok v -> weight v <= length text.
Proof.
  unfold JSON_parse. intros H. bind_inv H.
  apply (proj1 (parse_weight _)) in Hbind.
  destruct (skipWs l); [|discriminate]. injection H as <-. lia.
Qed.

Lemma bind_fuel {A B} (r : result A) (k : A -> result B) :
  r <> OutOfFuel -> (forall a, r = Ok a -> k a <> OutOfFuel) ->
  bind r k <> OutOfFuel.
Proof. destruct r; cbn; auto; discriminate. Qed.

Lemma parseStringBody_fuel (n : nat) :
  forall s, length s <= n -> parseStringBody s <> OutOfFuel.
Proof.
  induction n as [|n IH]; intros s Hn.
  - destruct s; [discriminate | cbn in Hn; lia].
  - destruct s as [|c s]; [discriminate|]. cbn [parseStringBody length] in *.
    destruct (N.eqb c 34); [discriminate|].
    destruct (N.eqb c 92).
    + destruct s as [|e s1]; [discriminate|].
      destruct (N.eqb e 117).
      * destruct s1 as [|h1 [|h2 [|h3 [|h4 s2]]]]; try discriminate.
        destruct (hex4 h1 h2 h3 h4); [|discriminate].
        apply bind_fuel; [apply IH; cbn [length] in *; lia|].
        intros [t rest] _. discriminate.
      * destruct (simpleEscape e); [|discriminate].
        apply bind_fuel; [apply IH; cbn [length] in *; lia|].
        intros [t rest] _. discriminate.
    + destruct (N.ltb c 32); [discriminate|].
      apply bind_fuel; [apply IH; lia|].
      intros [t rest] _. discriminate.
Qed.

Lemma parseNumber_fuel (s : jsstring) : parseNumber s <> OutOfFuel.
Proof.
  unfold parseNumber.
  destruct (match s with
            | c :: r0 => if N.eqb c 45 then ([c], r0) else ([], s)
            | [] => ([], s)
            end) as [minus r0].
  apply bind_fuel.
  { unfold parseInt. destruct r0 as [|c r]; [discriminate|].
    destruct (N.eqb c 48); [discriminate|].
    destruct (isDigit c); [|discriminate].
    destruct (takeDigits r). discriminate. }
  intros [i r1] _. apply bind_fuel.
  { unfold parseFrac. destruct r1 as [|c r]; [discriminate|].
    destruct (N.eqb c 46); [|discriminate].
    destruct (takeDigits r) as [[|] ?]; discriminate. }
  intros [f r2] _. apply bind_fuel; [|intros [e r3] _; discriminate].
  unfold parseExp. destruct r2 as [|c r]; [discriminate|].
  destruct (N.eqb c 101 || N.eqb c 69); [|discriminate].
  destruct (match r with
            | g :: r' => if N.eqb g 43 || N.eqb g 45 then ([g], r') else ([], r)
            | [] => ([], r)
            end) as [sign r1'].
  destruct (takeDigits r1') as [[|] ?]; discriminate.
Qed.

(** The parser never uses up a fuel of twice the length of the text
    and one, or one more for a list of elements or members. *)
Lemma parse_fuel (f : nat) :
  (forall s, 2 * length s + 1 <= f -> parseValue f s <> OutOfFuel)
  /\ (forall s, 2 * length s + 2 <= f -> parseElements f s <> OutOfFuel)
  /\ (forall s, 2 * length s + 2 <= f -> parseMembers f s <> OutOfFuel).
Proof.
  induction f as [|f (IHv & IHe & IHm)]; [repeat split; intros; lia|].
  split; [|split].
  - intros s Hf. cbn [parseValue].
    pose proof (skipWs_length s) as Hws.
    destruct (skipWs s) as [|c r0]; [discriminate|]. cbn [length] in Hws.
    destruct (N.eqb c 91).
    { destruct (skipWs r0) as [|c' r']; [discriminate|].
      destruct (N.eqb c' 93); [discriminate|].
      apply bind_fuel; [apply IHe; lia | intros [vs r2] _; discriminate]. }
    destruct (N.eqb c 123).
    { destruct (skipWs r0) as [|c' r']; [discriminate|].
      destruct (N.eqb c' 125); [discriminate|].
      apply bind_fuel; [apply IHm; lia | intros [ms r2] _; discriminate]. }
    destruct (N.eqb c 34).
    { apply bind_fuel; [apply (parseStringBody_fuel _ _ (le_n _))|].
      intros [t r'] _. discriminate. }
    destruct (startsWith (c :: r0) (u "null")); [discriminate|].
    destruct (startsWith (c :: r0) (u "true")); [discriminate|].
    destruct (startsWith (c :: r0) (u "false")); [discriminate|].
    apply bind_fuel; [apply parseNumber_fuel | intros [n r'] _; discriminate].
  - intros s Hf. cbn [parseElements].
    apply bind_fuel; [apply IHv; lia|].
    intros [v l] Hv. apply (proj1 (parse_weight f)) in Hv.
    pose proof (weight_pos v). pose proof (skipWs_length l) as Hws.
    destruct (skipWs l) as [|c r']; [discriminate|]. cbn [length] in Hws.
    destruct (N.eqb c 44).
    + apply bind_fuel; [apply IHe; lia | intros [vs r2] _; discriminate].
    + destruct (N.eqb c 93); discriminate.
  - intros s Hf. cbn [parseMembers].
    pose proof (skipWs_length s) as Hws.
    destruct (skipWs s) as [|c r0]; [discriminate|]. cbn [length] in Hws.
    destruct (N.eqb c 34); [|discriminate].
    apply bind_fuel; [apply (parseStringBody_fuel _ _ (le_n _))|].
    intros [k r1] Hk. apply (parseStringBody_length _ _ _ _ (le_n _)) in Hk.
    pose proof (skipWs_length r1) as Hws1.
    destruct (skipWs r1) as [|c1 r2]; [discriminate|]. cbn [length] in Hws1.
    destruct (N.eqb c1 58); [|discriminate].
    apply bind_fuel; [apply IHv; lia|].
    intros [v r3] Hv. apply (proj1 (parse_weight f)) in Hv.
    pose proof (skipWs_length r3) as Hws3.
    destruct (skipWs r3) as [|c3 r4]; [discriminate|]. cbn [length] in Hws3.
    destruct (N.eqb c3 44).
    + apply bind_fuel; [apply IHm; lia | intros [ms r5] _; discriminate].
    + destruct (N.eqb c3 125); discriminate.
Qed.

(** [JSON.parse] returns a value or throws: the model never stops for
    lack of fuel. *)
Lemma JSON_parse_total (text : jsstring) : JSON_parse text <> OutOfFuel.
Proof.
  unfold JSON_parse. apply bind_fuel.
  - apply (proj1 (parse_fuel _)). unfold parseFuel. lia.
  - intros [v r] _. destruct (skipWs r); discriminate.
Qed.

(** ** The walk over a function response *)

Lemma length_trimStart (s : jsstring) : length (trimStart s) <= length s.
Proof.
  induction s as [|c s IH]; cbn [trimStart length]; [lia|].
  destruct (isTrimSpace c); cbn [length]; lia.
Qed.

Lemma length_trim (s : jsstring) : length (trim s) <= length s.
Proof.
  unfold trim, trimEnd. rewrite length_rev.
  etransitivity; [apply length_trimStart|]. rewrite length_rev.
  apply length_trimStart.
Qed.

Lemma length_slice (s : jsstring) (a b : Z) : length (slice s a b) <= length s.
Proof.
  unfold slice. rewrite length_firstn, length_skipn. lia.
Qed.

Lemma attempt_ext (recur recur' : json -> option json) (text : jsstring)
    (otherwise otherwise' : json) (bound : nat) :
  length text <= bound ->
  (forall p, weight p <= bound -> recur p = recur' p) ->
  otherwise = otherwise' ->
  attempt recur text otherwise = attempt recur' text otherwise'.
Proof.
  intros Hlen Hrec <-. unfold attempt.
  destruct (JSON_parse text) as [parsed| |] eqn:E; try reflexivity.
  apply JSON_parse_weight in E. rewrite Hrec by lia. reflexivity.
Qed.

(** The string case calls itself only on values parsed from a text
    that is no longer than the string. *)
Lemma walkString_ext (recur recur' : json -> option json) (s : jsstring) :
  (forall p, weight p <= length s -> recur p = recur' p) ->
  walkString recur s = walkString recur' s.
Proof.
  intros Hrec. unfold walkString.
  destruct (if hasControlCharEscapes s && negb (hasIntentionalEscapes s)
            then match JSON_parse (quoted s) with
                 | Ok (JString t) => Some t
                 | _ => None
                 end
            else None) as [t|]; [reflexivity|].
  pose proof (length_trim s) as Htrim.
  pose proof (length_slice (trim s) 0 (lastIndexOf (trim s) (u "}") + 1)) as Hbrace.
  pose proof (length_slice (trim s) 0 (lastIndexOf (trim s) (u "]") + 1)) as Hbracket.
  cbn zeta.
  repeat match goal with
         | |- context [if ?b then _ else _] => destruct b
         end;
    repeat first [ reflexivity
                 | apply (attempt_ext recur recur' _ _ _ (length s));
                   [lia | exact Hrec | ] ].
Qed.

Lemma mapM_Some {A B} (g : A -> option B) (l : list A) :
  Forall (fun x => exists y, g x = Some y) l -> exists ys, mapM g l = Some ys.
Proof.
  induction 1 as [|x l [y Hy] _ [ys Hys]]; cbn [mapM]; [eauto|].
  rewrite Hy, Hys. eauto.
Qed.

Lemma mapM_ext {A B} (g g' : A -> option B) (l : list A) :
  (forall x, In x l -> g x = g' x) -> mapM g l = mapM g' l.
Proof.
  induction l as [|x l IH]; intros Hg; cbn [mapM]; [reflexivity|].
  rewrite (Hg x (or_introl eq_refl)), IH; [reflexivity|].
  intros y Hy. apply Hg. right. exact Hy.
Qed.

Lemma walkProps_None (g : json -> option json) (props : list (jsstring * json)) :
  walkProps g props None = None.
Proof. induction props as [|kv props IH]; [reflexivity | exact IH]. Qed.

Lemma walkProps_Some (g : json -> option json) (props : list (jsstring * json)) :
  Forall (fun kv => exists y, g (snd kv) = Some y) props ->
  forall o, exists out, walkProps g props (Some o) = Some out.
Proof.
  induction 1 as [|kv props [y Hy] _ IH]; intros o; [cbn; eauto|].
  unfold walkProps. cbn [fold_left]. rewrite Hy. apply IH.
Qed.

Lemma walkProps_ext (g g' : json -> option json)
    (props : list (jsstring * json)) :
  (forall kv, In kv props -> g (snd kv) = g' (snd kv)) ->
  forall o, walkProps g props o = walkProps g' props o.
Proof.
  unfold walkProps.
  induction props as [|kv props IH]; intros Hg o; cbn [fold_left]; [reflexivity|].
  rewrite (Hg kv (or_introl eq_refl)). apply IH.
  intros kv' Hin. apply Hg. right. exact Hin.
Qed.

Lemma weight_In (x : json) (items : list json) :
  In x items -> weight x <= list_sum (map weight items).
Proof.
  induction items as [|y items IH]; [easy|].
  rewrite weight_array_cons. intros [<-|Hin]; [lia|]. apply IH in Hin. lia.
Qed.

Lemma weightProps_In (kv : jsstring * json) (props : list (jsstring * json)) :
  In kv props -> weight (snd kv) <= weightProps props.
Proof.
  induction props as [|[k v] props IH]; [easy|].
  rewrite weightProps_cons. intros [<-|Hin]; [cbn [snd]; lia|].
  apply IH in Hin. lia.
Qed.

(** A stack that holds as many nested calls as the value weighs is
    enough: no call throws. *)
Lemma walk_terminates (stack : nat) :
  forall v, weight v <= stack -> exists r, walk stack v = Some r.
Proof.
  induction stack as [|f IH]; intros v Hw.
  - pose proof (weight_pos v). lia.
  - destruct v as [| b | n | s | items | props]; cbn [walk]; eauto.
    + destruct (mapM_Some (walk f) items) as [ys Hys]; [|rewrite Hys; eauto].
      apply List.Forall_forall. intros x Hin. apply IH.
      apply weight_In in Hin. cbn [weight] in Hw. lia.
    + destruct (walkProps_Some (walk f) props) with (o := @nil (jsstring * json))
        as [out Hout].
      * apply List.Forall_forall. intros kv Hin. apply IH.
        apply weightProps_In in Hin. cbn [weight] in Hw.
        fold (weightProps props) in Hw. lia.
      * rewrite Hout. eauto.
Qed.

(** Two stacks that both hold as many nested calls as the value
    weighs give the same. *)
Lemma walk_enough (f1 : nat) :
  forall f2 v, weight v <= f1 -> weight v <= f2 -> walk f1 v = walk f2 v.
Proof.
  induction f1 as [|f1 IH]; intros f2 v H1 H2.
  - pose proof (weight_pos v). lia.
  - destruct f2 as [|f2]; [pose proof (weight_pos v); lia|].
    destruct v as [| b | n | s | items | props]; cbn [walk]; try reflexivity.
    + cbn [weight] in H1, H2. f_equal. apply walkString_ext.
      intros p Hp. apply IH; lia.
    + cbn [weight] in H1, H2.
      rewrite (mapM_ext (walk f1) (walk f2)); [reflexivity|].
      intros x Hin. apply weight_In in Hin. apply IH; lia.
    + cbn [weight] in H1, H2. fold (weightProps props) in H1, H2.
      rewrite (walkProps_ext (walk f1) (walk f2)); [reflexivity|].
      intros kv Hin. apply weightProps_In in Hin. apply IH; lia.
Qed.

Lemma weight_nested (d : nat) (v : json) : weight (nested d v) = d + weight v.
Proof.
  induction d as [|d IH]; [reflexivity|].
  cbn [nested weight]. rewrite weight_array_cons, IH.
  change (list_sum (map weight [])) with 0. lia.
Qed.

Lemma nested_inj (d : nat) (v w : json) : nested d v = nested d w -> v = w.
Proof.
  induction d as [|d IH]; cbn [nested]; [auto|]. intros [= H]. auto.
Qed.

(** Arrays nested [d] deep: the leaf is reached when the stack holds
    more than [d] nested calls, and the call throws otherwise. *)
Lemma walk_nested (d : nat) :
  forall stack leaf,
    walk stack (nested d leaf)
    = if d <? stack then option_map (nested d) (walk (stack - d) leaf)
      else None.
Proof.
  induction d as [|d IH]; intros stack leaf.
  - cbn [nested]. rewrite Nat.sub_0_r.
    destruct stack as [|n]; [reflexivity|].
    change (0 <? S n) with true. cbv iota.
    destruct (walk (S n) leaf); reflexivity.
  - destruct stack as [|n]; [reflexivity|].
    cbn [nested walk mapM]. rewrite IH.
    change (S d <? S n) with (d <? n). change (S n - S d) with (n - d).
    destruct (d <? n); [|reflexivity].
    destruct (walk (n - d) leaf); reflexivity.
Qed.

(** A stack that holds as many nested calls as the value weighs, or
    more, gives the one result. *)
Lemma walk_at_weight (value : json) (stack : nat) :
  weight value <= stack ->
  walk stack value = Some (recursivelyParseJsonStrings value).
Proof.
  intros Hstack.
  destruct (walk_terminates (weight value) value (le_n _)) as [r Hr].
  unfold recursivelyParseJsonStrings. rewrite Hr.
  rewrite (walk_enough stack (weight value) value Hstack (le_n _)). exact Hr.
Qed.

Lemma recursivelyParseJsonStrings_nested (d : nat) (leaf : json) :
  recursivelyParseJsonStrings (nested d leaf)
  = nested d (recursivelyParseJsonStrings leaf).
Proof.
  pose proof (walk_at_weight (nested d leaf) (d + weight leaf)) as Hn.
  rewrite weight_nested in Hn. specialize (Hn (le_n _)).
  rewrite walk_nested in Hn.
  pose proof (weight_pos leaf) as Hpos.
  replace (d <? d + weight leaf) with true in Hn
    by (symmetry; apply Nat.ltb_lt; lia).
  replace (d + weight leaf - d) with (weight leaf) in Hn by lia.
  rewrite (walk_at_weight leaf (weight leaf) (le_n _)) in Hn.
  cbn [option_map] in Hn. congruence.
Qed.

(** No depth limits the walk while the stack holds: whatever the
    limit, a string that lies deeper in nested arrays is still
    rewritten. *)
Lemma walk_has_no_depth_limit :
  ~ exists limit : nat,
      forall (d : nat) (leaf : json),
        limit < d -> recursivelyParseJsonStrings (nested d leaf) = nested d leaf.
Proof.
  intros [limit H].
  specialize (H (S limit) (JString (u "\n")) (Nat.lt_succ_diag_r limit)).
  rewrite recursivelyParseJsonStrings_nested in H.
  apply nested_inj in H. vm_compute in H. discriminate.
Qed.

(** A string whose text parses to a value that the stack does not
    hold is returned as it is when it is no truncated text: the
    [RangeError] of the nested call is caught with the errors of the
    parse. *)
Lemma walk_string_swallows_overflow (stack : nat) (s : jsstring) (parsed : json) :
  hasControlCharEscapes s && negb (hasIntentionalEscapes s) = false ->
  (startsWith (trim s) (u "[") && negb (endsWith (trim s) (u "]")) = false) ->
  (startsWith (trim s) (u "{") && negb (endsWith (trim s) (u "}")) = false) ->
  JSON_parse s = Ok parsed ->
  walk stack parsed = None ->
  walk (S stack) (JString s) = Some (JString s).
Proof.
  intros Hesc Hbracket Hbrace Hparse Hover.
  cbn [walk]. unfold walkString, attempt.
  rewrite Hesc, Hbracket, Hbrace, Hparse, Hover.
  repeat match goal with
         | |- context [if ?b then _ else _] => destruct b
         end; reflexivity.
Qed.


(** On a stack of three nested calls: arrays nested three deep
    throw, and the string of their text is returned as it is, where
    a deeper stack gives the arrays. *)
Example walk_overflow_example :
  walk 3 (nested 3 JNull) = None
  /\ walk 4 (JString (u "[[[null]]]")) = Some (JString (u "[[[null]]]"))
  /\ walk 5 (JString (u "[[[null]]]")) = Some (nested 3 JNull).
Proof. repeat split; vm_compute; reflexivity. Qed.

(** ** Repair of truncated JSON *)

Lemma startsWith_one (s : jsstring) (a b : N) :
  startsWith s [a] = true -> startsWith s [b] = N.eqb a b.
Proof.
  destruct s as [|x s]; cbn [startsWith]; [discriminate|].
  rewrite !andb_true_r. intros H. apply N.eqb_eq in H. subst x. reflexivity.
Qed.

Lemma startsWith_nonempty (s : jsstring) (a : N) :
  startsWith s [a] = true -> JsString.eqb s [] = false.
Proof. destruct s; [discriminate | reflexivity]. Qed.

(** C5, as stated, fails: the example string holds no closing square
    bracket to trim to, so the walk returns it as it is and not the
    array of its first element, which is what its repaired text would
    parse to. *)
Lemma truncated_example_not_repaired :
  recursivelyParseJsonStrings (JString (dq "[{'a':1},{'b':2"))
  = JString (dq "[{'a':1},{'b':2")
  /\ JSON_parse (dq "[{'a':1}]") = Ok (JArray [JObject [(u "a", JNumber (u "1"))]])
  /\ recursivelyParseJsonStrings (JString (dq "[{'a':1},{'b':2"))
     <> JArray [JObject [(u "a", JNumber (u "1"))]].
Proof.
  split; [vm_compute; reflexivity|].
  split; [vm_compute; reflexivity|].
  vm_compute. discriminate.
Qed.

(** A truncated array whose text up to its last closing square bracket
    parses is replaced by what that text parses to. *)
Example truncated_array_repaired :
  recursivelyParseJsonStrings (JString (dq "[{'a':1}],{'b':2"))
  = JArray [JObject [(u "a", JNumber (u "1"))]].
Proof. vm_compute. reflexivity. Qed.

(** C5 (amended): for a string that looks like a truncated array or
    object (its trimmed text starts with the opening bracket and does
    not end with the closing bracket of the same kind) and to which
    the escape heuristic does not apply, on a stack that holds as
    many nested calls as the string weighs: when a closing bracket of
    that kind occurs after the first position and the trimmed text up
    to the last such bracket parses, the result is the normalization
    of what it parses to; in every other case the string is returned
    unmodified.  The string [{"a":1},{"b":2 holds no closing square
    bracket and is returned unmodified. *)
Theorem truncated_json_repair :
  forall (s opening closing : jsstring) (stack : nat),
    (opening = u "[" /\ closing = u "]") \/ (opening = u "{" /\ closing = u "}") ->
    startsWith (trim s) opening = true ->
    endsWith (trim s) closing = false ->
    hasControlCharEscapes s && negb (hasIntentionalEscapes s) = false ->
    weight (JString s) <= stack ->
    walk stack (JString s)
    = Some
        (if (0 <? lastIndexOf (trim s) closing)%Z then
           match JSON_parse
                   (slice (trim s) 0 (lastIndexOf (trim s) closing + 1)) with
           | Ok parsed => recursivelyParseJsonStrings parsed
           | _ => JString s
           end
         else JString s).
Proof.
  intros s opening closing stack Hkind Hstart Hend Hesc Hstack.
  destruct stack as [|f]; [cbn in Hstack; lia|].
  cbn [weight] in Hstack. cbn [walk]. f_equal.
  unfold walkString. rewrite Hesc.
  pose proof (length_trim s) as Htrim.
  pose proof (length_slice (trim s) 0 (lastIndexOf (trim s) closing + 1)) as Hcut.
  assert (Hattempt :
    attempt (walk f)
      (slice (trim s) 0 (lastIndexOf (trim s) closing + 1)) (JString s)
    = match JSON_parse (slice (trim s) 0 (lastIndexOf (trim s) closing + 1)) with
      | Ok parsed => recursivelyParseJsonStrings parsed
      | _ => JString s
      end).
  { unfold attempt.
    destruct (JSON_parse _) as [parsed| |] eqn:E; try reflexivity.
    apply JSON_parse_weight in E. rewrite walk_at_weight by lia. reflexivity. }
  destruct Hkind as [[-> ->]|[-> ->]];
    rewrite (startsWith_nonempty _ _ Hstart).
  - assert (Hother : startsWith (trim s) (u "{") = false)
      by (exact (startsWith_one (trim s) 91 123 Hstart)).
    rewrite Hother, Hstart, Hend. cbn [negb andb orb].
    destruct (0 <? lastIndexOf (trim s) (u "]"))%Z; [|reflexivity].
    exact Hattempt.
  - assert (Hother : startsWith (trim s) (u "[") = false)
      by (exact (startsWith_one (trim s) 123 91 Hstart)).
    rewrite Hother, Hstart, Hend. cbn [negb andb orb].
    destruct (0 <? lastIndexOf (trim s) (u "}"))%Z; [|reflexivity].
    exact Hattempt.
Qed.

Lemma truncated_json_repair_witness :
  let s := dq "[{'a':'[1]'}],{'b':2" in
  startsWith (trim s) (u "[") = true
  /\ endsWith (trim s) (u "]") = false
  /\ hasControlCharEscapes s && negb (hasIntentionalEscapes s) = false
  /\ weight (JString s) <= 30
  /\ walk 30 (JString s)
     = Some (JArray [JObject [(u "a", JArray [JNumber (u "1")])]]).
Proof.
  cbn zeta.
  assert (H1 : startsWith (trim (dq "[{'a':'[1]'}],{'b':2")) (u "[") = true)
    by (vm_compute; reflexivity).
  assert (H2 : endsWith (trim (dq "[{'a':'[1]'}],{'b':2")) (u "]") = false)
    by (vm_compute; reflexivity).
  assert (H3 : hasControlCharEscapes (dq "[{'a':'[1]'}],{'b':2")
               && negb (hasIntentionalEscapes (dq "[{'a':'[1]'}],{'b':2")) = false)
    by (vm_compute; reflexivity).
  assert (H4 : weight (JString (dq "[{'a':'[1]'}],{'b':2")) <= 30)
    by (vm_compute; lia).
  repeat (split; [assumption|]).
  rewrite (truncated_json_repair (dq "[{'a':'[1]'}],{'b':2") (u "[") (u "]") 30
             (or_introl (conj eq_refl eq_refl)) H1 H2 H3 H4).
  vm_compute. reflexivity.
Defined.

(** ** Escape-sequence cleanup and tool-call arguments *)

Lemma split_nonempty (c : N) (s : jsstring) : split c s <> [].
Proof.
  destruct s as [|x s]; cbn [split]; [discriminate|].
  destruct (N.eqb x c); [discriminate|]. destruct (split c s); discriminate.
Qed.

Lemma escapeQuotes_cons (x : N) (s : jsstring) :
  escapeQuotes (x :: s)
  = if N.eqb x 34 then 92%N :: 34%N :: escapeQuotes s else x :: escapeQuotes s.
Proof.
  unfold escapeQuotes. cbn [split].
  pose proof (split_nonempty 34 s) as Hne.
  destruct (N.eqb x 34); destruct (split 34 s) as [|h t]; try congruence.
  - reflexivity.
  - destruct t; reflexivity.
Qed.

Lemma indexOf_from_shift (s p : jsstring) :
  forall i j, (0 <= i)%Z -> (0 <= j)%Z ->
    indexOf_from i s p = (-1)%Z -> indexOf_from j s p = (-1)%Z.
Proof.
  induction s as [|x s IH]; intros i j Hi Hj; cbn [indexOf_from];
    destruct (startsWith _ p); try lia; auto.
  apply IH; lia.
Qed.

Lemma includes_cons (x : N) (s p : jsstring) :
  includes (x :: s) p = startsWith (x :: s) p || includes s p.
Proof.
  unfold includes, indexOf. cbn [indexOf_from].
  destruct (startsWith (x :: s) p); [reflexivity|]. cbn [orb].
  destruct (Z.eqb_spec (indexOf_from 0 s p) (-1)) as [E|E].
  - rewrite (indexOf_from_shift s p 0 (0 + 1) ltac:(lia) ltac:(lia) E).
    reflexivity.
  - destruct (Z.eqb_spec (indexOf_from (0 + 1) s p) (-1)) as [E'|E'];
      [|reflexivity].
    exfalso. apply E.
    apply (indexOf_from_shift s p (0 + 1) 0 ltac:(lia) ltac:(lia) E').
Qed.

Lemma noBackslashQuote_cons (x : N) (s : jsstring) :
  includes (x :: s) backslashQuote = false ->
  includes s backslashQuote = false
  /\ (N.eqb x 92 = true -> startsWith s quote = false).
Proof.
  rewrite includes_cons. intros H. apply orb_false_iff in H as [Hs Hi].
  split; [exact Hi|]. intros Hx. unfold backslashQuote in Hs.
  cbn [startsWith] in Hs. rewrite Hx in Hs. cbn [andb] in Hs.
  unfold quote. destruct s as [|y s]; [reflexivity|].
  cbn [startsWith] in *. exact Hs.
Qed.

Lemma hexValue_quote : hexValue 34 = None.
Proof. reflexivity. Qed.

Lemma hexValue_backslash : hexValue 92 = None.
Proof. reflexivity. Qed.

Lemma hexValue_not_quote (h v : N) : hexValue h = Some v -> N.eqb h 34 = false.
Proof.
  intros H. destruct (N.eqb_spec h 34) as [->|]; [|reflexivity].
  rewrite hexValue_quote in H. discriminate.
Qed.

Lemma hex4_Some (h1 h2 h3 h4 x : N) :
  hex4 h1 h2 h3 h4 = Some x ->
  N.eqb h1 34 = false /\ N.eqb h2 34 = false
  /\ N.eqb h3 34 = false /\ N.eqb h4 34 = false.
Proof.
  unfold hex4.
  destruct (hexValue h1) eqn:E1; [|discriminate].
  destruct (hexValue h2) eqn:E2; [|discriminate].
  destruct (hexValue h3) eqn:E3; [|discriminate].
  destruct (hexValue h4) eqn:E4; [|discriminate].
  intros _. repeat split; eapply hexValue_not_quote; eassumption.
Qed.

Ltac hex_none :=
  cbn [app hexPrefix]; unfold hex4;
  rewrite ?hexValue_quote, ?hexValue_backslash;
  repeat match goal with
         | |- context [hexValue ?h] =>
             lazymatch h with
             | 34%N => fail
             | 92%N => fail
             | _ => destruct (hexValue h)
             end
         end;
  rewrite ?hexValue_quote, ?hexValue_backslash; try reflexivity.

(** After the letter u: either four hexadecimal digits follow, in the
    text and in the text with its quotes escaped alike, or neither
    starts with four hexadecimal digits. *)
Lemma hexPrefix_escaped (s1 : jsstring) :
  (exists h1 h2 h3 h4 s2 x,
      s1 = h1 :: h2 :: h3 :: h4 :: s2
      /\ hex4 h1 h2 h3 h4 = Some x
      /\ escapeQuotes s1 = h1 :: h2 :: h3 :: h4 :: escapeQuotes s2)
  \/ (hexPrefix s1 = None /\ hexPrefix (escapeQuotes s1 ++ [34%N]) = None).
Proof.
  destruct s1 as [|h1 [|h2 [|h3 [|h4 s2]]]].
  - right. split; reflexivity.
  - right. split; [reflexivity|]. rewrite !escapeQuotes_cons.
    destruct (N.eqb h1 34); reflexivity.
  - right. split; [reflexivity|]. rewrite !escapeQuotes_cons.
    destruct (N.eqb h1 34), (N.eqb h2 34); hex_none.
  - right. split; [reflexivity|]. rewrite !escapeQuotes_cons.
    destruct (N.eqb h1 34), (N.eqb h2 34), (N.eqb h3 34); hex_none.
  - destruct (hex4 h1 h2 h3 h4) as [x|] eqn:E.
    + left. exists h1, h2, h3, h4, s2, x. split; [reflexivity|].
      split; [exact E|]. apply hex4_Some in E as (E1 & E2 & E3 & E4).
      rewrite !escapeQuotes_cons, E1, E2, E3, E4. reflexivity.
    + right. split; [exact E|]. rewrite !escapeQuotes_cons.
      destruct (N.eqb_spec h1 34) as [->|], (N.eqb_spec h2 34) as [->|],
        (N.eqb_spec h3 34) as [->|], (N.eqb_spec h4 34) as [->|];
        try (cbn [app hexPrefix]; exact E); hex_none.
Qed.

Lemma hexPrefix_None_parse {A} (l : jsstring)
    (k : N -> jsstring -> result A) :
  hexPrefix l = None ->
  match l with
  | h1 :: h2 :: h3 :: h4 :: r2 =>
      match hex4 h1 h2 h3 h4 with
      | Some x => k x r2
      | None => SyntaxError
      end
  | _ => SyntaxError
  end = SyntaxError.
Proof.
  destruct l as [|h1 [|h2 [|h3 [|h4 r2]]]]; try reflexivity.
  cbn [hexPrefix]. intros ->. reflexivity.
Qed.

Lemma hexPrefix_None_unescape (l : jsstring) (k : N -> jsstring -> option jsstring) :
  hexPrefix l = None ->
  match l with
  | h1 :: h2 :: h3 :: h4 :: r2 =>
      match hex4 h1 h2 h3 h4, jsonStringLiteralUnescape r2 with
      | Some x, Some t => Some (x :: t)
      | _, _ => None
      end
  | _ => None
  end = None.
Proof.
  destruct l as [|h1 [|h2 [|h3 [|h4 r2]]]]; try reflexivity.
  cbn [hexPrefix]. intros ->. reflexivity.
Qed.

(** Reading the text with its quotes escaped, up to a closing quote,
    is unescaping the text as one string literal, provided no quote of
    the text follows a backslash. *)
Lemma parseStringBody_escaped (n : nat) :
  forall s,
    length s <= n ->
    includes s backslashQuote = false ->
    parseStringBody (escapeQuotes s ++ [34%N])
    = match jsonStringLiteralUnescape s with
      | Some t => Ok (t, [])
      | None => SyntaxError
      end.
Proof.
  induction n as [|n IH]; intros s Hn Hbq.
  - destruct s; [reflexivity | cbn in Hn; lia].
  - destruct s as [|c s]; [reflexivity|].
    cbn [length] in Hn.
    destruct (noBackslashQuote_cons c s Hbq) as [Hs Hnext].
    rewrite escapeQuotes_cons.
    destruct (N.eqb_spec c 34) as [->|Hc34].
    { cbn [app parseStringBody jsonStringLiteralUnescape].
      change (N.eqb 92 34) with false. change (N.eqb 92 92) with true.
      change (N.eqb 34 117) with false. change (N.eqb 34 92) with false.
      change (N.ltb 34 32) with false. change (simpleEscape 34) with (Some 34%N).
      cbv iota. rewrite (IH s ltac:(lia) Hs).
      destruct (jsonStringLiteralUnescape s); reflexivity. }
    cbn [app parseStringBody jsonStringLiteralUnescape].
    apply N.eqb_neq in Hc34. rewrite Hc34.
    destruct (N.eqb c 92) eqn:Hc92.
    + specialize (Hnext eq_refl).
      destruct s as [|e s1].
      { cbn [escapeQuotes split join app].
        change (N.eqb 34 117) with false. change (simpleEscape 34) with (Some 34%N).
        reflexivity. }
      assert (He : N.eqb e 34 = false).
      { unfold quote in Hnext. cbn [startsWith] in Hnext.
        rewrite andb_true_r in Hnext. exact Hnext. }
      destruct (noBackslashQuote_cons e s1 Hs) as [Hs1 _].
      rewrite escapeQuotes_cons, He. cbn [app].
      destruct (N.eqb e 117).
      * destruct (hexPrefix_escaped s1)
          as [(h1 & h2 & h3 & h4 & s2 & x & -> & Hx & Hesc) | [Hn1 Hn2]].
        -- rewrite Hesc. cbn [app]. rewrite Hx.
           assert (Hs2 : includes s2 backslashQuote = false).
           { repeat match goal with
                    | H : includes (_ :: _) backslashQuote = false |- _ =>
                        apply noBackslashQuote_cons in H as [H _]
                    end. assumption. }
           rewrite (IH s2 ltac:(cbn [length] in Hn; lia) Hs2).
           destruct (jsonStringLiteralUnescape s2); reflexivity.
        -- rewrite (hexPrefix_None_parse _ _ Hn2).
           rewrite (hexPrefix_None_unescape _ (fun _ _ => None) Hn1).
           reflexivity.
      * destruct (simpleEscape e); [|reflexivity].
        rewrite (IH s1 ltac:(cbn [length] in Hn; lia) Hs1).
        destruct (jsonStringLiteralUnescape s1); reflexivity.
    + destruct (N.ltb c 32); [reflexivity|].
      rewrite (IH s ltac:(lia) Hs).
      destruct (jsonStringLiteralUnescape s); reflexivity.
Qed.

(** [JSON.parse] of the quoted text. *)
Lemma JSON_parse_quoted (s : jsstring) :
  includes s backslashQuote = false ->
  JSON_parse (quoted s)
  = match jsonStringLiteralUnescape s with
    | Some t => Ok (JString t)
    | None => SyntaxError
    end.
Proof.
  intros Hbq. unfold JSON_parse, quoted, parseFuel, quote.
  fold (escapeQuotes s).
  cbn [app length Nat.mul Nat.add parseValue skipWs].
  change (isJsonWs 34) with false. cbv iota.
  change (N.eqb 34 91) with false. change (N.eqb 34 123) with false.
  change (N.eqb 34 34) with true. cbv iota.
  rewrite (parseStringBody_escaped _ s (le_n _) Hbq).
  destruct (jsonStringLiteralUnescape s); reflexivity.
Qed.

(** The cleanup of the code is the cleanup of the spec. *)
Lemma processEscapeSequencesOnly_spec (value : json) :
  processEscapeSequencesOnly value = escapeSequenceCleanup value.
Proof.
  destruct value as [| b | n | s | items | props]; try reflexivity.
  unfold processEscapeSequencesOnly, escapeSequenceCleanup,
    hasControlCharEscapes, hasIntentionalEscapes.
  destruct (includes s (u "\n") || includes s (u "\t")); [|reflexivity].
  destruct (includes s backslashQuote) eqn:Hbq; [reflexivity|].
  destruct (includes s backslashBackslash); [reflexivity|].
  cbn [orb negb andb]. rewrite (JSON_parse_quoted s Hbq).
  destruct (jsonStringLiteralUnescape s); reflexivity.
Qed.

Lemma normalizeEntry_spec (st : state) (toolName : jsstring)
    (result : list (jsstring * json)) (key : jsstring) (value : json) :
  normalizeEntry st toolName result (key, value)
  = JsObject.assign result key
      (normalizedArgument (getParamType st toolName key) value).
Proof.
  unfold normalizeEntry, normalizedArgument.
  rewrite !processEscapeSequencesOnly_spec.
  destruct (getParamType st toolName key) as [t|].
  - destruct (JsString.eqb t (u "string")).
    + destruct value; reflexivity.
    + destruct value as [| b | n | s | items | props]; cbn [isString andb];
        try reflexivity.
      destruct (JsString.eqb t (u "array") || JsString.eqb t (u "object"));
        [|reflexivity].
      destruct (JSON_parse s); reflexivity.
  - destruct value; reflexivity.
Qed.

Lemma set_fresh {V} (o : list (jsstring * V)) (k : jsstring) (v : V) :
  ~ In k (map fst o) -> JsObject.set o k v = o ++ [(k, v)].
Proof.
  induction o as [|[k' v'] o IH]; intros Hfresh; [reflexivity|].
  cbn [JsObject.set map fst In app] in *.
  destruct (JsString.eqb k' k) eqn:E.
  - apply jsstring_eqb_eq in E. tauto.
  - rewrite IH by tauto. reflexivity.
Qed.

(** Assignments under distinct keys append one property each, but
    for the key __proto__, which defines none. *)
Lemma fold_assign_distinct {V} (f : jsstring * json -> V)
    (props : list (jsstring * json)) :
  forall acc : list (jsstring * V),
    List.NoDup (map fst acc ++ map fst props) ->
    fold_left (fun o kv => JsObject.assign o (fst kv) (f kv)) props acc
    = acc ++ map (fun kv => (fst kv, f kv)) (withoutProto props).
Proof.
  induction props as [|[k v] props IH]; intros acc Hnd;
    cbn [fold_left map fst withoutProto List.filter].
  - rewrite app_nil_r. reflexivity.
  - cbn [map fst] in Hnd. unfold JsObject.assign at 2.
    destruct (JsString.eqb k (u "__proto__")); cbn [negb].
    + apply IH. apply NoDup_remove_1 in Hnd. exact Hnd.
    + assert (Hfresh : ~ In k (map fst acc)).
      { apply NoDup_remove_2 in Hnd. intros Hin. apply Hnd.
        apply in_or_app. left. exact Hin. }
      rewrite (set_fresh acc k (f (k, v)) Hfresh).
      fold (withoutProto props). rewrite IH.
      * cbn [map fst]. rewrite <- app_assoc. reflexivity.
      * rewrite map_app. cbn [map fst]. rewrite <- app_assoc. exact Hnd.
Qed.




(** The examples of the arguments: a declared array is parsed, a
    declared string is unescaped, an unparseable declared object and
    an undeclared argument are cleaned up. *)
Example normalize_tool_call_args_example :
  normalizeToolCallArgs exampleCache (JObject exampleArgs) (u "edit")
  = JObject
      [(u "lines", JArray [JNumber (u "1"); JNumber (u "2"); JNumber (u "3")]);
       (u "text", JString [97; 10; 98]%N);
       (u "options", JString (u "{"));
       (u "note", JString [120; 9; 121]%N)].
Proof. vm_compute. reflexivity. Qed.

(** An argument named __proto__ is left out of the result. *)
Example normalize_tool_call_args_proto :
  normalizeToolCallArgs exampleCache
    (JObject [(u "__proto__", JString (u "x")); (u "note", JString (u "y"))])
    (u "edit")
  = JObject [(u "note", JString (u "y"))].
Proof. vm_compute. reflexivity. Qed.

(** * Further properties of the code *)

(** ** The SSE parser: events and buffer *)

Section SseFurther.

Variable number : Type.
Variable Number : jsstring -> number.
Variable Number_isNaN : number -> bool.
Variable Number_isFinite : number -> bool.

Abbreviation parseLine0 := (Sse.parseLine number Number Number_isNaN Number_isFinite).
Abbreviation parseFrame0 := (Sse.parseFrame number Number Number_isNaN Number_isFinite).
Abbreviation drain0 := (Sse.drain number Number Number_isNaN Number_isFinite).
Abbreviation drainFrames0 :=
  (Sse.drainFrames number Number Number_isNaN Number_isFinite).
Abbreviation readLoop0 := (Sse.readLoop number Number Number_isNaN Number_isFinite).

Lemma parseFrame_data (raw : jsstring) (e : Sse.SseEvent number) :
  parseFrame0 raw = Some e -> Sse.data e <> [].
Proof.
  unfold Sse.parseFrame.
  destruct (JsString.eqb (join [10%N] _) []) eqn:E; [discriminate|].
  intros [= <-]. cbn [Sse.data]. apply jsstring_eqb_neq. exact E.
Qed.

Lemma drain_data (fuel : nat) :
  forall buffer, Forall (fun e => Sse.data e <> []) (fst (drain0 fuel buffer)).
Proof.
  induction fuel as [|f IH]; intros buffer; cbn [Sse.drain]; [constructor|].
  destruct (Z.eqb (indexOf buffer Sse.LFLF) (-1)); [constructor|].
  specialize (IH (slice_from buffer (indexOf buffer Sse.LFLF + 2))).
  destruct (drain0 f _) as [evs rest]. cbn [fst] in IH.
  destruct (parseFrame0 _) as [e|] eqn:E; cbn [fst]; [|exact IH].
  constructor; [exact (parseFrame_data _ _ E) | exact IH].
Qed.

Lemma readLoop_data (chunks : list (list Byte.byte)) :
  forall d buffer,
    Forall (fun e => Sse.data e <> []) (fst (readLoop0 d buffer chunks)).
Proof.
  induction chunks as [|c chunks IH]; intros d buffer; cbn [Sse.readLoop];
    [constructor|].
  destruct (Utf8.decode d c) as [d1 text].
  pose proof (drain_data (length (buffer ++ text)) (buffer ++ text)) as Hd.
  fold (drainFrames0 (buffer ++ text)) in Hd.
  destruct (drainFrames0 (buffer ++ text)) as [evs buffer1].
  specialize (IH d1 buffer1). destruct (readLoop0 d1 buffer1 chunks) as [evs' final].
  cbn [fst] in *. apply Forall_app. split; assumption.
Qed.

Lemma readLoop_buffer (chunks : list (list Byte.byte)) :
  forall d buffer,
    indexOf buffer Sse.LFLF = (-1)%Z ->
    indexOf (snd (snd (readLoop0 d buffer chunks))) Sse.LFLF = (-1)%Z.
Proof.
  induction chunks as [|c chunks IH]; intros d buffer Hb; cbn [Sse.readLoop];
    [exact Hb|].
  destruct (Utf8.decode d c) as [d1 text].
  pose proof (drainFrames_rest number Number Number_isNaN Number_isFinite
                _ (buffer ++ text) (le_n _)) as Hrest.
  destruct (drainFrames0 (buffer ++ text)) as [evs buffer1]. cbn [snd] in Hrest.
  specialize (IH d1 buffer1 Hrest).
  destruct (readLoop0 d1 buffer1 chunks) as [evs' final]. exact IH.
Qed.

(** A line that is skipped or names another field than data leaves
    the data of the frame as it is. *)
Lemma parseLine_no_data (st : Sse.fields number) (line : jsstring) :
  line = [] \/ startsWith line (u ":") = true \/ fieldName line <> u "data" ->
  Sse.dataParts number (parseLine0 st line) = Sse.dataParts number st.
Proof.
  intros H. unfold Sse.parseLine.
  destruct (JsString.eqb line [] || startsWith line (u ":")) eqn:Hskip;
    [reflexivity|].
  apply orb_false_iff in Hskip as [Hne Hcomment].
  destruct H as [-> | [H | H]]; [discriminate | congruence |].
  unfold fieldName in H.
  destruct (Z.eqb (indexOf line (u ":")) (-1)).
  - apply jsstring_eqb_neq in H. rewrite H.
    repeat match goal with
           | |- context [if ?b then _ else _] => destruct b
           end; reflexivity.
  - apply jsstring_eqb_neq in H. rewrite H.
    repeat match goal with
           | |- context [if ?b then _ else _] => destruct b
           end; reflexivity.
Qed.

Lemma splitLines_first (x : N) (s : jsstring) (line : jsstring)
    (rest : list jsstring) :
  x <> 10%N ->
  (x = 13%N -> match s with
               | y :: _ => y <> 10%N
               | [] => True
               end) ->
  splitLines s = line :: rest ->
  splitLines (x :: s) = (x :: line) :: rest.
Proof.
  intros Hx Hy Hs. cbn [splitLines]. rewrite Hs.
  apply N.eqb_neq in Hx. rewrite Hx.
  destruct (N.eqb x 13) eqn:E; [|reflexivity].
  apply N.eqb_eq in E. specialize (Hy E).
  destruct s as [|y s']; [reflexivity|].
  apply N.eqb_neq in Hy. rewrite Hy. reflexivity.
Qed.

Lemma splitLines_plain (line : jsstring) :
  ~ In 10%N line -> splitLines line = [line].
Proof.
  induction line as [|x line IH]; intros Hlf; [reflexivity|].
  apply splitLines_first.
  - intros ->. apply Hlf. left. reflexivity.
  - intros _. destruct line as [|y line']; [exact I|].
    intros ->. apply Hlf. right. left. reflexivity.
  - apply IH. intros Hin. apply Hlf. right. exact Hin.
Qed.

Lemma splitLines_plain_lf (line rest : jsstring) :
  plainLine line -> splitLines (line ++ [10%N] ++ rest) = line :: splitLines rest.
Proof.
  induction line as [|x line IH]; intros [Hlf Hcr]; [reflexivity|].
  cbn [app]. apply splitLines_first.
  - intros ->. apply Hlf. left. reflexivity.
  - intros ->. destruct line as [|y line']; cbn [app].
    + cbn in Hcr. congruence.
    + intros ->. apply Hlf. right. left. reflexivity.
  - destruct line as [|y line'].
    + reflexivity.
    + apply IH. split.
      * intros Hin. apply Hlf. right. exact Hin.
      * rewrite last_cons in Hcr.
        destruct (last (y :: line')) as [z|] eqn:E; [exact Hcr|].
        discriminate.
Qed.

Lemma splitLines_plain_crlf (line rest : jsstring) :
  ~ In 10%N line ->
  splitLines (line ++ [13%N; 10%N] ++ rest) = line :: splitLines rest.
Proof.
  induction line as [|x line IH]; intros Hlf; [reflexivity|].
  cbn [app]. apply splitLines_first.
  - intros ->. apply Hlf. left. reflexivity.
  - intros _. destruct line as [|y line']; cbn [app]; [discriminate|].
    intros ->. apply Hlf. right. left. reflexivity.
  - apply IH. intros Hin. apply Hlf. right. exact Hin.
Qed.

Lemma splitLines_join (sep : jsstring) (lines : list jsstring) :
  sep = [10%N] \/ sep = [13%N; 10%N] ->
  lines <> [] ->
  Forall plainLine lines ->
  splitLines (join sep lines) = lines.
Proof.
  intros Hsep Hne Hall. induction Hall as [|line rest Hline Hrest IH];
    [congruence|].
  destruct rest as [|line' rest'].
  - cbn [join]. apply splitLines_plain, Hline.
  - change (join sep (line :: line' :: rest'))
      with (line ++ sep ++ join sep (line' :: rest')).
    destruct Hsep as [-> | ->].
    + rewrite splitLines_plain_lf by exact Hline. rewrite IH; [reflexivity|discriminate].
    + rewrite splitLines_plain_crlf by apply Hline.
      rewrite IH; [reflexivity|discriminate].
Qed.

End SseFurther.

(** X1: every event that the parser yields carries data that is not
    empty, whatever the bytes and the chunks. *)
Theorem sse_events_carry_data :
  forall (number : Type) (Number : jsstring -> number)
         (Number_isNaN Number_isFinite : number -> bool)
         (chunks : list (list Byte.byte)),
    Forall (fun e => Sse.data e <> [])
      (Sse.parseSseStream number Number Number_isNaN Number_isFinite chunks).
Proof.
  intros. unfold Sse.parseSseStream. apply readLoop_data.
Qed.

(** X2: when the reader reports done, the buffer holds no blank line:
    every frame that was complete has been cut off and handled. *)
Theorem sse_buffer_holds_no_complete_frame :
  forall (number : Type) (Number : jsstring -> number)
         (Number_isNaN Number_isFinite : number -> bool)
         (chunks : list (list Byte.byte)),
    indexOf
      (snd (snd (Sse.readLoop number Number Number_isNaN Number_isFinite
                   Utf8.newDecoder [] chunks)))
      Sse.LFLF = (-1)%Z.
Proof.
  intros. apply readLoop_buffer. reflexivity.
Qed.

(** X3: the events yielded for the chunks read so far are a prefix of
    the events yielded when more chunks follow: later input never
    changes an event already yielded. *)
Theorem sse_events_grow_by_suffix :
  forall (number : Type) (Number : jsstring -> number)
         (Number_isNaN Number_isFinite : number -> bool)
         (chunks more : list (list Byte.byte)),
  exists later,
    Sse.parseSseStream number Number Number_isNaN Number_isFinite (chunks ++ more)
    = Sse.parseSseStream number Number Number_isNaN Number_isFinite chunks
      ++ later.
Proof.
  intros. unfold Sse.parseSseStream. rewrite readLoop_app.
  destruct (Sse.readLoop number Number Number_isNaN Number_isFinite
              Utf8.newDecoder [] chunks) as [evs1 st].
  destruct (Sse.readLoop number Number Number_isNaN Number_isFinite
              (fst st) (snd st) more) as [evs2 final].
  exists evs2. reflexivity.
Qed.

(** X4: a frame none of whose lines is a data line (each line is
    empty, a comment, or names another field) yields no event. *)
Theorem sse_frame_without_data_yields_nothing :
  forall (number : Type) (Number : jsstring -> number)
         (Number_isNaN Number_isFinite : number -> bool) (raw : jsstring),
    Forall (fun line => line = [] \/ startsWith line (u ":") = true
                        \/ fieldName line <> u "data")
      (splitLines raw) ->
    Sse.parseFrame number Number Number_isNaN Number_isFinite raw = None.
Proof.
  intros number Number Number_isNaN Number_isFinite raw Hall.
  unfold Sse.parseFrame.
  assert (Hparts : forall st,
            Sse.dataParts number
              (fold_left (Sse.parseLine number Number Number_isNaN Number_isFinite)
                 (splitLines raw) st)
            = Sse.dataParts number st).
  { induction Hall as [|line rest Hline _ IH]; intros st; [reflexivity|].
    cbn [fold_left]. rewrite IH. apply parseLine_no_data. exact Hline. }
  rewrite Hparts. reflexivity.
Qed.

Lemma sse_frame_without_data_yields_nothing_witness :
  Forall (fun line => line = [] \/ startsWith line (u ":") = true
                      \/ fieldName line <> u "data")
    (splitLines (u ": keep-alive" ++ [10%N] ++ u "event: ping" ++ [10%N]
                   ++ u "id: 7"))
  /\ Sse.parseFrame (option N) Sse.decimalNumber Sse.decimal_isNaN
       Sse.decimal_isFinite
       (u ": keep-alive" ++ [10%N] ++ u "event: ping" ++ [10%N] ++ u "id: 7")
     = None.
Proof.
  assert (H : Forall (fun line => line = [] \/ startsWith line (u ":") = true
                                  \/ fieldName line <> u "data")
                (splitLines (u ": keep-alive" ++ [10%N] ++ u "event: ping"
                               ++ [10%N] ++ u "id: 7"))).
  { replace (splitLines (u ": keep-alive" ++ [10%N] ++ u "event: ping"
                           ++ [10%N] ++ u "id: 7"))
      with [u ": keep-alive"; u "event: ping"; u "id: 7"]
      by (vm_compute; reflexivity).
    constructor; [right; left; reflexivity|].
    constructor; [right; right; vm_compute; discriminate|].
    constructor; [right; right; vm_compute; discriminate|].
    constructor. }
  split; [exact H|].
  apply (sse_frame_without_data_yields_nothing (option N) Sse.decimalNumber
           Sse.decimal_isNaN Sse.decimal_isFinite _ H).
Defined.

(** X5: inside a frame, lines joined by CR LF give the event that
    the same lines joined by LF give, for lines that hold no line
    feed and do not end in a carriage return; a carriage return
    inside a line is kept either way. *)
Theorem sse_frame_crlf_lines_as_lf :
  forall (number : Type) (Number : jsstring -> number)
         (Number_isNaN Number_isFinite : number -> bool)
         (lines : list jsstring),
    Forall plainLine lines ->
    Sse.parseFrame number Number Number_isNaN Number_isFinite
      (join [13%N; 10%N] lines)
    = Sse.parseFrame number Number Number_isNaN Number_isFinite
        (join [10%N] lines).
Proof.
  intros number Number Number_isNaN Number_isFinite lines Hall.
  destruct lines as [|line rest]; [reflexivity|].
  unfold Sse.parseFrame.
  rewrite !splitLines_join; auto; discriminate.
Qed.

Lemma sse_frame_crlf_lines_as_lf_witness :
  Forall plainLine [u "event: delta"; u "data: a" ++ [13%N] ++ u "b"; u "data: c"]
  /\ Sse.parseFrame (option N) Sse.decimalNumber Sse.decimal_isNaN
       Sse.decimal_isFinite
       (join [13%N; 10%N]
          [u "event: delta"; u "data: a" ++ [13%N] ++ u "b"; u "data: c"])
     = Sse.parseFrame (option N) Sse.decimalNumber Sse.decimal_isNaN
         Sse.decimal_isFinite
         (join [10%N]
            [u "event: delta"; u "data: a" ++ [13%N] ++ u "b"; u "data: c"]).
Proof.
  assert (H : Forall plainLine
                [u "event: delta"; u "data: a" ++ [13%N] ++ u "b"; u "data: c"]).
  { repeat constructor; cbn; intuition discriminate. }
  split; [exact H|].
  apply (sse_frame_crlf_lines_as_lf (option N) Sse.decimalNumber
           Sse.decimal_isNaN Sse.decimal_isFinite _ H).
Defined.

(** ** Merging header values *)

Lemma trimStart_head (s : jsstring) :
  match trimStart s with
  | [] => True
  | c :: _ => isTrimSpace c = false
  end.
Proof.
  induction s as [|c s IH]; cbn [trimStart]; [exact I|].
  destruct (isTrimSpace c) eqn:E; [exact IH | exact E].
Qed.

Lemma trimStart_fixed (c : N) (s : jsstring) :
  isTrimSpace c = false -> trimStart (c :: s) = c :: s.
Proof. intros H. cbn [trimStart]. rewrite H. reflexivity. Qed.

Lemma trimStart_idem (s : jsstring) : trimStart (trimStart s) = trimStart s.
Proof.
  pose proof (trimStart_head s) as H.
  destruct (trimStart s) as [|c t]; [reflexivity|].
  apply trimStart_fixed, H.
Qed.

Lemma trimStart_snoc (l : jsstring) (c : N) :
  isTrimSpace c = false -> trimStart (l ++ [c]) = trimStart l ++ [c].
Proof.
  intros Hc. induction l as [|x l IH]; cbn [app trimStart].
  - rewrite Hc. reflexivity.
  - destruct (isTrimSpace x); [exact IH | reflexivity].
Qed.

Lemma trimEnd_cons (c : N) (s : jsstring) :
  isTrimSpace c = false -> trimEnd (c :: s) = c :: trimEnd s.
Proof.
  intros Hc. unfold trimEnd. cbn [rev].
  rewrite (trimStart_snoc _ _ Hc), rev_app_distr. reflexivity.
Qed.

Lemma trimEnd_idem (s : jsstring) : trimEnd (trimEnd s) = trimEnd s.
Proof. unfold trimEnd. rewrite rev_involutive, trimStart_idem. reflexivity. Qed.

Lemma trim_idem (s : jsstring) : trim (trim s) = trim s.
Proof.
  unfold trim. pose proof (trimStart_head s) as H.
  destruct (trimStart s) as [|c t]; [reflexivity|].
  rewrite (trimEnd_cons _ _ H), (trimStart_fixed _ _ H), (trimEnd_cons _ _ H).
  rewrite trimEnd_idem. reflexivity.
Qed.

Lemma In_trimStart (x : N) (s : jsstring) : In x (trimStart s) -> In x s.
Proof.
  induction s as [|c s IH]; cbn [trimStart]; [easy|].
  destruct (isTrimSpace c); [intros H; right; exact (IH H) | easy].
Qed.

Lemma In_trim (x : N) (s : jsstring) : In x (trim s) -> In x s.
Proof.
  unfold trim, trimEnd. intros H. apply in_rev in H.
  apply In_trimStart in H. apply in_rev in H. apply In_trimStart in H. exact H.
Qed.

Lemma split_sep_free (c : N) (s : jsstring) :
  Forall (fun p => ~ In c p) (split c s).
Proof.
  induction s as [|x s IH]; cbn [split]; [repeat constructor; easy|].
  destruct (N.eqb_spec x c) as [->|Hx]; [constructor; [easy | exact IH]|].
  destruct (split c s) as [|h t]; [repeat constructor; cbn; intuition|].
  inversion IH as [|? ? Hh Ht]; subst. constructor; [|exact Ht].
  cbn. intuition.
Qed.

Lemma split_plain (c : N) (p : jsstring) : ~ In c p -> split c p = [p].
Proof.
  induction p as [|x p IH]; intros H; [reflexivity|]. cbn [split].
  destruct (N.eqb_spec x c) as [->|Hx]; [exfalso; apply H; left; reflexivity|].
  rewrite IH; [reflexivity|]. intros Hin. apply H. right. exact Hin.
Qed.

Lemma split_app_sep (c : N) (p rest : jsstring) :
  ~ In c p -> split c (p ++ c :: rest) = p :: split c rest.
Proof.
  induction p as [|x p IH]; intros H; cbn [app split].
  - rewrite N.eqb_refl. reflexivity.
  - destruct (N.eqb_spec x c) as [->|Hx]; [exfalso; apply H; left; reflexivity|].
    rewrite IH; [reflexivity|]. intros Hin. apply H. right. exact Hin.
Qed.

(** Splitting what was joined gives the parts back. *)
Lemma split_join (c : N) (parts : list jsstring) :
  parts <> [] -> Forall (fun p => ~ In c p) parts ->
  split c (join [c] parts) = parts.
Proof.
  intros Hne Hall. induction Hall as [|p rest Hp Hrest IH]; [congruence|].
  destruct rest as [|q rest'].
  - cbn [join]. apply split_plain, Hp.
  - change (join [c] (p :: q :: rest')) with (p ++ c :: join [c] (q :: rest')).
    rewrite (split_app_sep _ _ _ Hp), IH; [reflexivity | discriminate].
Qed.

Lemma existsb_eqb_In (v : jsstring) (out : list jsstring) :
  existsb (fun x => JsString.eqb x v) out = true <-> In v out.
Proof.
  rewrite existsb_exists. split.
  - intros (x & Hin & Heq). apply jsstring_eqb_eq in Heq. subst. exact Hin.
  - intros Hin. exists v. split; [exact Hin | apply jsstring_eqb_refl].
Qed.

Lemma mergeParts_tokens (parts : list jsstring) :
  forall out,
    Forall (fun p => ~ In 44%N p) parts ->
    tokenList out -> tokenList (Utils.mergeParts out parts).
Proof.
  induction parts as [|part rest IH]; intros out Hparts Hout; [exact Hout|].
  inversion Hparts as [|? ? Hpart Hrest]; subst.
  cbn [Utils.mergeParts]. cbv zeta.
  destruct (JsString.eqb (trim part) []) eqn:Hempty; [apply IH; assumption|].
  destruct (existsb (fun x => JsString.eqb x (trim part)) out) eqn:Hin;
    cbn [negb]; [apply IH; assumption|].
  apply IH; [assumption|]. destruct Hout as [Hnd Hall]. split.
  - apply List.NoDup_app.
    + exact Hnd.
    + repeat constructor. easy.
    + intros x Hx [Heq|[]]. subst x.
      apply existsb_eqb_In in Hx. congruence.
  - apply Forall_app. split; [exact Hall|]. constructor; [|constructor].
    split; [apply jsstring_eqb_neq; exact Hempty|].
    split; [apply trim_idem|]. intros H44. apply Hpart. apply In_trim. exact H44.
Qed.

Lemma mergedValues_tokens_from (values : list jsstring) :
  forall out,
    tokenList out ->
    tokenList (fold_left (fun out raw => Utils.mergeParts out (split 44 raw))
                 values out).
Proof.
  induction values as [|raw values IH]; intros out Hout; [exact Hout|].
  cbn [fold_left]. apply IH. apply mergeParts_tokens; [|exact Hout].
  apply split_sep_free.
Qed.

Lemma mergedValues_tokens (values : list jsstring) :
  tokenList (Utils.mergedValues values).
Proof.
  apply mergedValues_tokens_from. split; constructor.
Qed.

Lemma split_merged (values : list jsstring) :
  Utils.mergedValues values <> [] ->
  split 44 (Utils.mergeCommaSeparatedHeaderValues values)
  = Utils.mergedValues values.
Proof.
  intros Hne. unfold Utils.mergeCommaSeparatedHeaderValues.
  change (u ",") with [44%N]. apply split_join; [exact Hne|].
  destruct (mergedValues_tokens values) as [_ Hall].
  eapply List.Forall_impl; [|exact Hall]. intros v (_ & _ & H). exact H.
Qed.

Lemma mergeParts_fresh (parts : list jsstring) :
  forall out,
    List.NoDup (out ++ parts) ->
    Forall (fun v => v <> [] /\ trim v = v) parts ->
    Utils.mergeParts out parts = out ++ parts.
Proof.
  induction parts as [|v rest IH]; intros out Hnd Hall.
  - rewrite app_nil_r. reflexivity.
  - inversion Hall as [|? ? [Hne Htrim] Hrest]; subst.
    cbn [Utils.mergeParts]. cbv zeta. rewrite Htrim.
    apply jsstring_eqb_neq in Hne. rewrite Hne.
    assert (Hfresh : existsb (fun x => JsString.eqb x v) out = false).
    { destruct (existsb (fun x => JsString.eqb x v) out) eqn:E; [|reflexivity].
      apply existsb_eqb_In in E. apply NoDup_remove_2 in Hnd.
      exfalso. apply Hnd. apply in_or_app. left. exact E. }
    rewrite Hfresh. cbn [negb]. rewrite IH.
    + rewrite <- app_assoc. reflexivity.
    + rewrite <- app_assoc. exact Hnd.
    + exact Hrest.
Qed.

Lemma mergeParts_In (v : jsstring) (parts : list jsstring) :
  forall out,
    In v (Utils.mergeParts out parts)
    <-> In v out \/ (v <> [] /\ exists part, In part parts /\ trim part = v).
Proof.
  induction parts as [|part rest IH]; intros out.
  - cbn [Utils.mergeParts]. split; [auto|]. intros [H|(_ & part & [] & _)]. exact H.
  - cbn [Utils.mergeParts]. cbv zeta.
    destruct (JsString.eqb (trim part) []) eqn:Hempty.
    + rewrite IH. apply jsstring_eqb_eq in Hempty. split.
      * intros [H|(Hne & p & Hp & Ht)]; [auto|]. right. split; [exact Hne|].
        exists p. split; [right; exact Hp | exact Ht].
      * intros [H|(Hne & p & [<-|Hp] & Ht)]; [auto | congruence |].
        right. split; [exact Hne|]. exists p. auto.
    + apply jsstring_eqb_neq in Hempty.
      destruct (existsb (fun x => JsString.eqb x (trim part)) out) eqn:Hin;
        cbn [negb]; rewrite IH.
      * apply existsb_eqb_In in Hin. split.
        -- intros [H|(Hne & p & Hp & Ht)]; [auto|]. right. split; [exact Hne|].
           exists p. split; [right; exact Hp | exact Ht].
        -- intros [H|(Hne & p & [<-|Hp] & Ht)]; [auto | subst v; auto |].
           right. split; [exact Hne|]. exists p. auto.
      * rewrite in_app_iff. cbn [In]. split.
        -- intros [[H|[H|[]]]|(Hne & p & Hp & Ht)]; [auto | |].
           ++ right. split; [congruence|]. exists part. split; [left; reflexivity | exact H].
           ++ right. split; [exact Hne|]. exists p. split; [right; exact Hp | exact Ht].
        -- intros [H|(Hne & p & [<-|Hp] & Ht)]; [auto | auto |].
           right. split; [exact Hne|]. exists p. auto.
Qed.

Lemma mergedValues_In_from (v : jsstring) (values : list jsstring) :
  forall out,
    In v (fold_left (fun out raw => Utils.mergeParts out (split 44 raw)) values out)
    <-> In v out
        \/ (v <> [] /\ exists raw part,
              In raw values /\ In part (split 44 raw) /\ trim part = v).
Proof.
  induction values as [|raw values IH]; intros out; cbn [fold_left].
  - split; [auto|]. intros [H|(_ & raw & part & [] & _)]. exact H.
  - rewrite IH, mergeParts_In. split.
    + intros [[H|(Hne & part & Hp & Ht)]|(Hne & r & part & Hr & Hp & Ht)].
      * auto.
      * right. split; [exact Hne|]. exists raw, part.
        split; [left; reflexivity | auto].
      * right. split; [exact Hne|]. exists r, part.
        split; [right; exact Hr | auto].
    + intros [H|(Hne & r & part & [<-|Hr] & Hp & Ht)].
      * auto.
      * left. right. split; [exact Hne|]. exists part. auto.
      * right. split; [exact Hne|]. exists r, part. auto.
Qed.

(** X6: the merged header value is empty, or it is a list, separated
    by commas, of values that are distinct, not empty, and without
    white space around them. *)
Theorem merged_header_lists_distinct_tokens :
  forall values : list jsstring,
    Utils.mergeCommaSeparatedHeaderValues values = []
    \/ tokenList (split 44 (Utils.mergeCommaSeparatedHeaderValues values)).
Proof.
  intros values.
  destruct (Utils.mergedValues values) as [|v out] eqn:E.
  - left. unfold Utils.mergeCommaSeparatedHeaderValues. rewrite E. reflexivity.
  - right. rewrite split_merged by (rewrite E; discriminate).
    apply mergedValues_tokens.
Qed.

(** X7: merging is idempotent: the merged value, merged again as the
    only value, comes back as it is. *)
Theorem merged_header_idempotent :
  forall values : list jsstring,
    Utils.mergeCommaSeparatedHeaderValues
      [Utils.mergeCommaSeparatedHeaderValues values]
    = Utils.mergeCommaSeparatedHeaderValues values.
Proof.
  intros values.
  unfold Utils.mergeCommaSeparatedHeaderValues at 1 3. f_equal.
  unfold Utils.mergedValues at 1. cbn [fold_left].
  destruct (Utils.mergedValues values) as [|v out] eqn:E.
  - unfold Utils.mergeCommaSeparatedHeaderValues. rewrite E. reflexivity.
  - rewrite split_merged by (rewrite E; discriminate). rewrite E.
    destruct (mergedValues_tokens values) as [Hnd Hall]. rewrite E in Hnd, Hall.
    apply (mergeParts_fresh (v :: out) []); [exact Hnd|].
    eapply List.Forall_impl; [|exact Hall]. intros x (H1 & H2 & _). auto.
Qed.

(** X8: a value that is not empty is listed in the merged header
    exactly when it is what is left, white space removed, of a part
    between commas of one of the values merged. *)
Theorem merged_header_lists_every_part :
  forall (values : list jsstring) (v : jsstring),
    v <> [] ->
    (In v (split 44 (Utils.mergeCommaSeparatedHeaderValues values))
     <-> exists raw part,
           In raw values /\ In part (split 44 raw) /\ trim part = v).
Proof.
  intros values v Hne.
  pose proof (mergedValues_In_from v values []) as Hin.
  fold (Utils.mergedValues values) in Hin.
  destruct (Utils.mergedValues values) as [|w out] eqn:E.
  - unfold Utils.mergeCommaSeparatedHeaderValues. rewrite E. cbn [join split In].
    split; [intros [H|[]]; congruence|].
    intros Hex. destruct (proj2 Hin (or_intror (conj Hne Hex))).
  - rewrite split_merged by (rewrite E; discriminate). rewrite E, Hin.
    split; [intros [[]|(_ & H)]; exact H|]. intros H. right. auto.
Qed.

Lemma merged_header_lists_every_part_witness :
  u "interleaved-thinking-2025-05-14" <> []
  /\ (In (u "interleaved-thinking-2025-05-14")
        (split 44 (Utils.mergeCommaSeparatedHeaderValues
                     [u "a, b"; u "interleaved-thinking-2025-05-14"]))
      <-> exists raw part,
            In raw [u "a, b"; u "interleaved-thinking-2025-05-14"]
            /\ In part (split 44 raw)
            /\ trim part = u "interleaved-thinking-2025-05-14").
Proof.
  assert (H : u "interleaved-thinking-2025-05-14" <> []) by discriminate.
  split; [exact H|].
  apply (merged_header_lists_every_part
           [u "a, b"; u "interleaved-thinking-2025-05-14"] _ H).
Defined.

(** The header of the thinking models: the marker is added once, also
    when the header already lists it. *)
Example merged_header_example :
  Utils.mergeCommaSeparatedHeaderValues
    [u "a , interleaved-thinking-2025-05-14,,a"; u "interleaved-thinking-2025-05-14"]
  = u "a,interleaved-thinking-2025-05-14".
Proof. vm_compute. reflexivity. Qed.

(** ** The tool schema cache *)

Lemma get_set_eq {V} (o : list (jsstring * V)) (k : jsstring) (v : V) :
  JsObject.get (JsObject.set o k v) k = Some v.
Proof.
  induction o as [|[k' v'] o IH]; cbn [JsObject.set JsObject.get].
  - rewrite jsstring_eqb_refl. reflexivity.
  - destruct (JsString.eqb k' k) eqn:E; cbn [JsObject.get]; rewrite E; auto.
Qed.

Lemma get_set_ne {V} (o : list (jsstring * V)) (k k' : jsstring) (v : V) :
  k <> k' -> JsObject.get (JsObject.set o k v) k' = JsObject.get o k'.
Proof.
  intros Hne. induction o as [|[k0 v0] o IH]; cbn [JsObject.set JsObject.get].
  - apply jsstring_eqb_neq in Hne. rewrite Hne. reflexivity.
  - destruct (JsString.eqb k0 k) eqn:E; cbn [JsObject.get].
    + apply jsstring_eqb_eq in E. subst k0.
      apply jsstring_eqb_neq in Hne. rewrite Hne. reflexivity.
    + rewrite IH. reflexivity.
Qed.

Lemma set_get_id {V} (o : list (jsstring * V)) (k : jsstring) (v : V) :
  JsObject.get o k = Some v -> JsObject.set o k v = o.
Proof.
  induction o as [|[k' v'] o IH]; cbn [JsObject.set JsObject.get]; [easy|].
  destruct (JsString.eqb k' k) eqn:E.
  - intros [= ->]. reflexivity.
  - intros H. rewrite (IH H). reflexivity.
Qed.

Lemma keys_set {V} (o : list (jsstring * V)) (k : jsstring) (v : V) :
  map fst (JsObject.set o k v)
  = if existsb (fun x => JsString.eqb x k) (map fst o) then map fst o
    else map fst o ++ [k].
Proof.
  induction o as [|[k' v'] o IH]; cbn [JsObject.set map fst existsb app];
    [reflexivity|].
  destruct (JsString.eqb k' k) eqn:E; cbn [orb map fst]; [reflexivity|].
  rewrite IH. destruct (existsb _ _); reflexivity.
Qed.

Lemma keys_set_NoDup {V} (o : list (jsstring * V)) (k : jsstring) (v : V) :
  List.NoDup (map fst o) -> List.NoDup (map fst (JsObject.set o k v)).
Proof.
  intros Hnd. rewrite keys_set.
  destruct (existsb _ _) eqn:E; [exact Hnd|].
  apply List.NoDup_app; [exact Hnd|repeat constructor; easy|].
  intros x Hin [Hx|[]]. subst x.
  assert (existsb (fun y => JsString.eqb y k) (map fst o) = true) as Hex.
  { apply existsb_exists. exists k. split; [exact Hin|apply jsstring_eqb_refl]. }
  congruence.
Qed.

Lemma keys_assign_NoDup {V} (o : list (jsstring * V)) (k : jsstring) (v : V) :
  List.NoDup (map fst o) -> List.NoDup (map fst (JsObject.assign o k v)).
Proof.
  intros Hnd. unfold JsObject.assign.
  destruct (JsString.eqb k (u "__proto__")); [exact Hnd|].
  apply keys_set_NoDup, Hnd.
Qed.

Lemma sanitize_spec (st : state) (name : jsstring) :
  sanitizeToolNameForGemini st name
  = (sanitizedNameOf name,
     if startsWithDigit name
     then mkState (toolSchemaCache st)
            (<[u "t_" ++ name := name]> (sanitizedToOriginalToolName st))
     else st).
Proof.
  unfold sanitizeToolNameForGemini, sanitizedNameOf.
  destruct (startsWithDigit name).
  - rewrite marker_changes_name. reflexivity.
  - rewrite jsstring_eqb_refl. reflexivity.
Qed.

Lemma sanitizedNameOf_eqb (name : jsstring) :
  JsString.eqb (sanitizedNameOf name) name = negb (startsWithDigit name).
Proof.
  unfold sanitizedNameOf. destruct (startsWithDigit name).
  - apply marker_changes_name.
  - apply jsstring_eqb_refl.
Qed.

Lemma fold_left_flat_map {A B C} (f : A -> C -> A) (g : B -> list C)
    (l : list B) (a : A) :
  fold_left f (flat_map g l) a
  = fold_left (fun acc x => fold_left f (g x) acc) l a.
Proof.
  revert a. induction l as [|x l IH]; intros a; cbn [flat_map fold_left];
    [reflexivity|].
  rewrite fold_left_app. apply IH.
Qed.

Section Caching.

Variable isZero : jsstring -> bool.

Lemma cacheToolSchemas_fold (st : state) (tools : option json) :
  cacheToolSchemas isZero st tools
  = fold_left (cacheFunctionDeclaration isZero) (declarationsOf tools) st.
Proof.
  destruct tools as [[| | | |items|]|]; try reflexivity.
  cbn [cacheToolSchemas declarationsOf]. rewrite fold_left_flat_map.
  revert st. induction items as [|tool items IH]; intros st; [reflexivity|].
  cbn [fold_left]. rewrite <- IH. f_equal.
  destruct tool as [| | | | |t]; try reflexivity.
  cbn [cacheTool]. destruct (JsObject.get t _) as [[]|]; reflexivity.
Qed.

(** What one declaration does to the two maps. *)
Lemma cacheFunctionDeclaration_spec (st : state) (funcDecl : json) :
  cacheFunctionDeclaration isZero st funcDecl
  = mkState
      match declaredParameters funcDecl with
      | Some (name, properties) =>
          <[name := paramMapOf isZero properties]>
            (<[sanitizedNameOf name := paramMapOf isZero properties]>
               (toolSchemaCache st))
      | None => toolSchemaCache st
      end
      match declaredName funcDecl with
      | Some name =>
          if startsWithDigit name
          then <[u "t_" ++ name := name]> (sanitizedToOriginalToolName st)
          else sanitizedToOriginalToolName st
      | None => sanitizedToOriginalToolName st
      end.
Proof.
  destruct st as [cache names].
  unfold declaredParameters.
  destruct funcDecl as [| | | | |d]; try reflexivity.
  cbn [cacheFunctionDeclaration declaredName].
  destruct (JsObject.get d (u "name")) as [[| | |name| |]|]; try reflexivity.
  destruct (JsString.eqb (trim name) []); [reflexivity|].
  rewrite sanitize_spec.
  set (candidate := if nullish _ then _ else _).
  destruct candidate as [[| | | | |schema]|];
    try (destruct (startsWithDigit name); reflexivity).
  destruct (JsObject.get schema (u "properties")) as [[| | | | |properties]|];
    try (destruct (startsWithDigit name); reflexivity).
  rewrite sanitizedNameOf_eqb. unfold sanitizedNameOf.
  destruct (startsWithDigit name); cbn [negb toolSchemaCache
    sanitizedToOriginalToolName].
  - rewrite insert_insert_eq. reflexivity.
  - rewrite insert_insert_eq. reflexivity.
Qed.

Lemma cacheFunctionDeclaration_lookup (st : state) (funcDecl : json)
    (toolName : jsstring) :
  toolSchemaCache (cacheFunctionDeclaration isZero st funcDecl) !! toolName
  = match declaredParameters funcDecl with
    | Some d =>
        if cachedUnder toolName d then Some (paramMapOf isZero (snd d))
        else toolSchemaCache st !! toolName
    | None => toolSchemaCache st !! toolName
    end.
Proof.
  rewrite cacheFunctionDeclaration_spec. cbn [toolSchemaCache].
  destruct (declaredParameters funcDecl) as [[name properties]|]; [|reflexivity].
  unfold cachedUnder. cbn [fst snd].
  destruct (JsString.eqb name toolName) eqn:E1.
  - apply jsstring_eqb_eq in E1. subst. rewrite lookup_insert_eq. reflexivity.
  - apply jsstring_eqb_neq in E1. rewrite lookup_insert_ne by exact E1.
    cbn [orb]. destruct (JsString.eqb (sanitizedNameOf name) toolName) eqn:E2.
    + apply jsstring_eqb_eq in E2. subst. rewrite lookup_insert_eq. reflexivity.
    + apply jsstring_eqb_neq in E2. rewrite lookup_insert_ne by exact E2.
      reflexivity.
Qed.

Lemma cache_fold_lookup (decls : list json) (st : state) (toolName : jsstring) :
  toolSchemaCache (fold_left (cacheFunctionDeclaration isZero) decls st)
    !! toolName
  = match List.find (cachedUnder toolName)
            (rev (omap declaredParameters decls)) with
    | Some d => Some (paramMapOf isZero (snd d))
    | None => toolSchemaCache st !! toolName
    end.
Proof.
  induction decls as [|d decls IH] using rev_ind; [reflexivity|].
  rewrite fold_left_app. cbn [fold_left].
  rewrite cacheFunctionDeclaration_lookup, omap_app, rev_app_distr.
  cbn [omap list_omap].
  destruct (declaredParameters d) as [p|]; cbn [rev app List.find].
  - destruct (cachedUnder toolName p); [reflexivity|exact IH].
  - exact IH.
Qed.

Lemma wellKeyed_step (st : state) (funcDecl : json) :
  wellKeyed st -> wellKeyed (cacheFunctionDeclaration isZero st funcDecl).
Proof.
  intros Hwk k v. rewrite cacheFunctionDeclaration_spec.
  cbn [sanitizedToOriginalToolName].
  destruct (declaredName funcDecl) as [name|]; [|apply Hwk].
  destruct (startsWithDigit name) eqn:Hd; [|apply Hwk].
  destruct (decide (u "t_" ++ name = k)) as [<-|Hne].
  - rewrite lookup_insert_eq. intros [= <-]. split; [reflexivity|exact Hd].
  - rewrite lookup_insert_ne by exact Hne. apply Hwk.
Qed.

Lemma wellKeyed_fold (decls : list json) (st : state) :
  wellKeyed st ->
  wellKeyed (fold_left (cacheFunctionDeclaration isZero) decls st).
Proof.
  revert st. induction decls as [|d decls IH]; intros st Hwk; [exact Hwk|].
  cbn [fold_left]. apply IH, wellKeyed_step, Hwk.
Qed.

Lemma names_fold_digit (decls : list json) (st : state) (name : jsstring) :
  In (Some name) (map declaredName decls) ->
  startsWithDigit name = true ->
  sanitizedToOriginalToolName
    (fold_left (cacheFunctionDeclaration isZero) decls st)
    !! (u "t_" ++ name) = Some name.
Proof.
  induction decls as [|d decls IH] using rev_ind; [easy|].
  rewrite map_app, in_app_iff, fold_left_app. cbn [fold_left map In].
  intros Hin Hd. rewrite cacheFunctionDeclaration_spec.
  cbn [sanitizedToOriginalToolName].
  destruct (declaredName d) as [name'|] eqn:Hn.
  - destruct (startsWithDigit name') eqn:Hd'.
    + destruct (decide (name' = name)) as [->|Hne].
      * apply lookup_insert_eq.
      * rewrite lookup_insert_ne by (intros [= ?]; easy).
        destruct Hin as [Hin|[[= ?]|[]]]; [|easy]. apply IH; assumption.
    + destruct Hin as [Hin|[[= ->]|[]]]; [|congruence]. apply IH; assumption.
  - destruct Hin as [Hin|[?|[]]]; [|easy]. apply IH; assumption.
Qed.

End Caching.

Lemma wellKeyed_sanitize (st : state) (name : jsstring) :
  wellKeyed st -> wellKeyed (snd (sanitizeToolNameForGemini st name)).
Proof.
  intros Hwk. rewrite sanitize_spec. cbn [snd].
  destruct (startsWithDigit name) eqn:Hd; [|exact Hwk].
  intros k v. cbn [sanitizedToOriginalToolName].
  destruct (decide (u "t_" ++ name = k)) as [<-|Hne].
  - rewrite lookup_insert_eq. intros [= <-]. split; [reflexivity|exact Hd].
  - rewrite lookup_insert_ne by exact Hne. apply Hwk.
Qed.

Lemma wellKeyed_resolve_fixed (st : state) (name : jsstring) :
  wellKeyed st ->
  resolveOriginalToolName st (resolveOriginalToolName st name)
  = resolveOriginalToolName st name.
Proof.
  intros Hwk. unfold resolveOriginalToolName.
  destruct (sanitizedToOriginalToolName st !! name) as [v|] eqn:E.
  - destruct (Hwk _ _ E) as [_ Hd].
    destruct (sanitizedToOriginalToolName st !! v) as [w|] eqn:E'; [|reflexivity].
    destruct (Hwk _ _ E') as [-> _]. discriminate Hd.
  - rewrite E. reflexivity.
Qed.

(** X9. After [cacheToolSchemas], the schema cache holds for a tool
    name the parameter map of the last declaration, among those with a
    name and parameter schemas, whose name or sanitized name it is;
    for a name of no such declaration the cache is as before. *)
Theorem cache_holds_last_declaration (isZero : jsstring -> bool)
    (st : state) (tools : option json) (toolName : jsstring) :
  toolSchemaCache (cacheToolSchemas isZero st tools) !! toolName
  = match List.find (cachedUnder toolName)
            (rev (omap declaredParameters (declarationsOf tools))) with
    | Some d => Some (paramMapOf isZero (snd d))
    | None => toolSchemaCache st !! toolName
    end.
Proof. rewrite cacheToolSchemas_fold. apply cache_fold_lookup. Qed.

(** X10. The map of restored names stays well keyed: when every
    entry leads from the marker followed by a name that starts with a
    digit to that name, the same holds after [cacheToolSchemas] and
    after [sanitizeToolNameForGemini]. *)
Theorem restored_names_stay_well_keyed (isZero : jsstring -> bool)
    (st : state) (tools : option json) (name : jsstring) :
  wellKeyed st ->
  wellKeyed (cacheToolSchemas isZero st tools)
  /\ wellKeyed (snd (sanitizeToolNameForGemini st name)).
Proof.
  intros Hwk. split.
  - rewrite cacheToolSchemas_fold. apply wellKeyed_fold, Hwk.
  - apply wellKeyed_sanitize, Hwk.
Qed.

Lemma restored_names_stay_well_keyed_witness :
  wellKeyed emptyState
  /\ wellKeyed
       (cacheToolSchemas zeroToken emptyState
          (Some (JArray [JObject [(u "functionDeclarations",
                                   JArray [JObject [(u "name", JString (u "1abc"))]])]])))
  /\ wellKeyed (snd (sanitizeToolNameForGemini emptyState (u "1abc"))).
Proof.
  assert (wellKeyed emptyState) as H.
  { intros k v. cbn. rewrite lookup_empty. discriminate. }
  split; [exact H|].
  apply (restored_names_stay_well_keyed zeroToken emptyState _ (u "1abc") H).
Defined.

(** X11. With a well-keyed map of restored names, restoring a name
    twice gives what restoring it once gives, and a name that does
    not start with the marker is restored to itself. *)
Theorem resolve_idempotent_when_well_keyed (st : state) (name : jsstring) :
  wellKeyed st ->
  resolveOriginalToolName st (resolveOriginalToolName st name)
  = resolveOriginalToolName st name
  /\ (startsWith name (u "t_") = false ->
      resolveOriginalToolName st name = name).
Proof.
  intros Hwk. split; [apply wellKeyed_resolve_fixed, Hwk|].
  intros Hsw. unfold resolveOriginalToolName.
  destruct (sanitizedToOriginalToolName st !! name) as [v|] eqn:E; [|reflexivity].
  destruct (Hwk _ _ E) as [-> _].
  rewrite (startsWith_app (u "t_") (u "t_") v) in Hsw by reflexivity.
  discriminate.
Qed.

Lemma resolve_idempotent_when_well_keyed_witness :
  wellKeyed (snd (sanitizeToolNameForGemini emptyState (u "1abc")))
  /\ resolveOriginalToolName (snd (sanitizeToolNameForGemini emptyState (u "1abc")))
       (resolveOriginalToolName
          (snd (sanitizeToolNameForGemini emptyState (u "1abc"))) (u "t_1abc"))
     = resolveOriginalToolName
         (snd (sanitizeToolNameForGemini emptyState (u "1abc"))) (u "t_1abc").
Proof.
  assert (wellKeyed (snd (sanitizeToolNameForGemini emptyState (u "1abc")))) as H.
  { apply wellKeyed_sanitize. intros k v. cbn. rewrite lookup_empty.
    discriminate. }
  split; [exact H|].
  apply (resolve_idempotent_when_well_keyed _ (u "t_1abc") H).
Defined.

(** X12. After [cacheToolSchemas], the sanitized name of every
    declared tool whose name starts with a digit is restored to that
    name, whatever the maps held before and whether or not the
    declaration has parameter schemas. *)
Theorem declared_digit_name_is_restored (isZero : jsstring -> bool)
    (st : state) (tools : option json) (name : jsstring) :
  In (Some name) (map declaredName (declarationsOf tools)) ->
  startsWithDigit name = true ->
  resolveOriginalToolName (cacheToolSchemas isZero st tools)
    (sanitizedNameOf name) = name.
Proof.
  intros Hin Hd. unfold resolveOriginalToolName, sanitizedNameOf.
  rewrite Hd, cacheToolSchemas_fold, (names_fold_digit isZero _ st name Hin Hd).
  reflexivity.
Qed.

Lemma declared_digit_name_is_restored_witness :
  startsWithDigit (u "1abc") = true
  /\ resolveOriginalToolName
    (cacheToolSchemas zeroToken emptyState
       (Some (JArray [JObject [(u "functionDeclarations",
                                JArray [JObject [(u "name", JString (u "1abc"))]])]])))
    (sanitizedNameOf (u "1abc")) = u "1abc".
Proof.
  split; [reflexivity|].
  apply (declared_digit_name_is_restored zeroToken emptyState).
  - vm_compute. left. reflexivity.
  - reflexivity.
Defined.

(** ** Extraction of schema information *)

Lemma get_In {V} (o : list (jsstring * V)) (k : jsstring) (v : V) :
  JsObject.get o k = Some v -> exists k', In (k', v) o.
Proof.
  induction o as [|[k0 v0] o IH]; cbn [JsObject.get]; [easy|].
  destruct (JsString.eqb k0 k).
  - intros [= ->]. exists k0. left. reflexivity.
  - intros H. destruct (IH H) as [k' Hin]. exists k'. right. exact Hin.
Qed.

Lemma get_weight (o : list (jsstring * json)) (k : jsstring) (v : json) :
  JsObject.get o k = Some v -> weight v <= weightProps o.
Proof.
  intros H. destruct (get_In _ _ _ H) as [k' Hin].
  apply (weightProps_In (k', v)), Hin.
Qed.

Lemma shaped_all (ps : list (jsstring * SchemaInfo)) :
  (fix all (l : list (jsstring * SchemaInfo)) : Prop :=
     match l with
     | [] => True
     | kv :: r => shaped (snd kv) /\ all r
     end) ps
  <-> List.Forall (fun kv => shaped (snd kv)) ps.
Proof.
  induction ps as [|kv ps IH].
  - split; [constructor|easy].
  - split.
    + intros [H1 H2]. constructor; [exact H1|apply IH, H2].
    + intros H. inversion H; subst. split; [assumption|apply IH; assumption].
Qed.

Lemma Forall_set {V} (P : jsstring * V -> Prop) (o : list (jsstring * V))
    (k : jsstring) (v : V) :
  (forall k', P (k', v)) -> List.Forall P o -> List.Forall P (JsObject.set o k v).
Proof.
  intros Hv. induction 1 as [|[k0 v0] o H0 Ho IH]; cbn [JsObject.set].
  - constructor; [apply Hv|constructor].
  - destruct (JsString.eqb k0 k); constructor; auto.
Qed.

Lemma Forall_assign {V} (P : jsstring * V -> Prop) (o : list (jsstring * V))
    (k : jsstring) (v : V) :
  (forall k', P (k', v)) -> List.Forall P o ->
  List.Forall P (JsObject.assign o k v).
Proof.
  intros Hv Ho. unfold JsObject.assign.
  destruct (JsString.eqb k (u "__proto__")); [exact Ho|].
  apply Forall_set; assumption.
Qed.

Lemma height_pos (v : json) : 1 <= height v.
Proof. destruct v; cbn; lia. Qed.

Lemma list_max_In (n : nat) (l : list nat) : In n l -> n <= list_max l.
Proof.
  intros Hin. pose proof (proj1 (list_max_le l (list_max l)) (le_n _)) as H.
  rewrite List.Forall_forall in H. apply H, Hin.
Qed.

Lemma get_height (o : list (jsstring * json)) (k : jsstring) (v : json) :
  JsObject.get o k = Some v ->
  height v <= list_max (map (fun kv => height (snd kv)) o).
Proof.
  intros H. destruct (get_In _ _ _ H) as [k' Hin].
  apply list_max_In. apply (in_map (fun kv => height (snd kv))) in Hin.
  exact Hin.
Qed.

Lemma list_max_sum {A} (f g : A -> nat) (l : list A) :
  (forall x, In x l -> f x <= g x) ->
  list_max (map f l) <= list_sum (map g l).
Proof.
  induction l as [|x l IH]; intros H; [cbn; lia|].
  change (list_max (map f (x :: l))) with (Nat.max (f x) (list_max (map f l))).
  change (list_sum (map g (x :: l))) with (g x + list_sum (map g l)).
  pose proof (H x (or_introl eq_refl)).
  pose proof (IH (fun y Hy => H y (or_intror Hy))). lia.
Qed.

Lemma height_weight_bounded (n : nat) :
  forall v, weight v <= n -> height v <= weight v.
Proof.
  induction n as [|n IH]; intros v Hw; [pose proof (weight_pos v); lia|].
  destruct v as [| b | t | s | items | props]; cbn [height weight] in *; try lia.
  - apply le_n_S, list_max_sum. intros x Hin. apply IH.
    apply weight_In in Hin. lia.
  - apply le_n_S, list_max_sum. intros kv Hin. apply IH.
    apply weightProps_In in Hin. unfold weightProps in Hin. lia.
Qed.

Lemma height_weight (v : json) : height v <= weight v.
Proof. apply (height_weight_bounded (weight v)), le_n. Qed.

Section Extraction.

Variable isZero : jsstring -> bool.

Lemma extractProperties_shaped (recur : json -> option SchemaInfo)
    (entries : list (jsstring * json)) :
  (forall v info, recur v = Some info -> shaped info) ->
  forall acc ps,
    List.NoDup (map fst acc) ->
    List.Forall (fun kv => shaped (snd kv)) acc ->
    fold_left
      (fun properties kv =>
         match properties, recur (snd kv) with
         | Some ps, Some info => Some (JsObject.assign ps (fst kv) info)
         | _, _ => None
         end)
      entries (Some acc) = Some ps ->
    List.NoDup (map fst ps) /\ List.Forall (fun kv => shaped (snd kv)) ps.
Proof.
  intros Hrec. induction entries as [|[k v] entries IH]; intros acc ps Hnd Hall;
    cbn [fold_left fst snd].
  - intros [= <-]. split; assumption.
  - destruct (recur v) as [info|] eqn:E.
    + apply IH.
      * apply keys_assign_NoDup, Hnd.
      * apply Forall_assign; [intros k'; apply (Hrec _ _ E)|exact Hall].
    + intros H. exfalso. clear -H.
      induction entries as [|kv entries IH]; [discriminate H|].
      apply IH. exact H.
Qed.

Lemma extract_shaped (fuel : nat) :
  forall schema info, extract isZero fuel schema = Some info -> shaped info.
Proof.
  induction fuel as [|f IH]; intros schema info; [discriminate|].
  cbn [extract].
  destruct schema as [| | | | |p]; try (intros [= <-]; cbn; tauto).
  set (t := match JsObject.get p (u "type") with
            | Some (JString t) => t
            | _ => u "unknown"
            end).
  destruct (JsString.eqb t (u "array") && truthy isZero (JsObject.get p (u "items")))
    eqn:Earr.
  - apply andb_true_iff in Earr. destruct Earr as [Et _].
    apply jsstring_eqb_eq in Et.
    destruct (JsObject.get p (u "items")) as [items|]; [|intros [= <-]; cbn; tauto].
    destruct (extract isZero f items) as [i|] eqn:Ei; [|discriminate].
    intros [= <-]. cbn [shaped]. repeat split; try assumption.
    apply (IH _ _ Ei).
  - destruct (JsString.eqb t (u "object")
              && isRecord (JsObject.get p (u "properties"))) eqn:Eobj;
      [|intros [= <-]; cbn; tauto].
    apply andb_true_iff in Eobj. destruct Eobj as [Et _].
    apply jsstring_eqb_eq in Et.
    destruct (JsObject.get p (u "properties")) as [[| | | | |entries]|];
      try (intros [= <-]; cbn; tauto).
    destruct (extractProperties (extract isZero f) entries) as [ps|] eqn:Ep;
      [|discriminate].
    intros [= <-].
    destruct (extractProperties_shaped (extract isZero f) entries IH [] ps)
      as [Hnd Hall]; [constructor|constructor|exact Ep|].
    cbn [shaped]. repeat split; try assumption.
    apply shaped_all, Hall.
Qed.

Lemma extractProperties_total (recur : json -> option SchemaInfo)
    (entries : list (jsstring * json)) :
  (forall kv, In kv entries -> exists info, recur (snd kv) = Some info) ->
  forall acc, exists ps,
    fold_left
      (fun properties kv =>
         match properties, recur (snd kv) with
         | Some ps, Some info => Some (JsObject.assign ps (fst kv) info)
         | _, _ => None
         end)
      entries (Some acc) = Some ps.
Proof.
  induction entries as [|[k v] entries IH]; intros Hrec acc; cbn [fold_left].
  - exists acc. reflexivity.
  - destruct (Hrec (k, v)) as [info E]; [left; reflexivity|].
    cbn [fst snd] in *. rewrite E. apply IH.
    intros kv Hin. apply Hrec. right. exact Hin.
Qed.

Lemma extract_total (fuel : nat) :
  forall schema, weight schema <= fuel ->
    exists info, extract isZero fuel schema = Some info
                 /\ type info = declaredType schema.
Proof.
  induction fuel as [|f IH]; intros schema Hw.
  - pose proof (weight_pos schema). lia.
  - cbn [extract].
    destruct schema as [| | | | |p]; try (eexists; split; reflexivity).
    change (weight (JObject p)) with (S (weightProps p)) in Hw.
    cbn [declaredType].
    set (t := match JsObject.get p (u "type") with
              | Some (JString t) => t
              | _ => u "unknown"
              end).
    destruct (JsString.eqb t (u "array")
              && truthy isZero (JsObject.get p (u "items"))).
    + destruct (JsObject.get p (u "items")) as [items|] eqn:Ei;
        [|eexists; split; reflexivity].
      apply get_weight in Ei.
      destruct (IH items) as [i [-> _]]; [lia|].
      eexists; split; reflexivity.
    + destruct (JsString.eqb t (u "object")
                && isRecord (JsObject.get p (u "properties")));
        [|eexists; split; reflexivity].
      destruct (JsObject.get p (u "properties")) as [[| | | | |entries]|] eqn:Ep;
        try (eexists; split; reflexivity).
      apply get_weight in Ep.
      change (weight (JObject entries)) with (S (weightProps entries)) in Ep.
      destruct (extractProperties_total (extract isZero f) entries) with (acc := @nil (jsstring * SchemaInfo))
        as [ps Hps].
      { intros kv Hin. apply weightProps_In in Hin.
        destruct (IH (snd kv)) as [info [E _]]; [lia|]. exists info. exact E. }
      unfold extractProperties. rewrite Hps.
      eexists; split; reflexivity.
Qed.

Lemma extractSchemaInfo_type (schema : json) :
  type (extractSchemaInfo isZero schema) = declaredType schema.
Proof.
  unfold extractSchemaInfo.
  destruct (extract_total (weight schema) schema) as [info [-> Ht]];
    [lia|exact Ht].
Qed.

Lemma paramMapOf_fresh (properties : list (jsstring * json)) (k : jsstring) :
  forall m : gmap jsstring SchemaInfo,
    ~ In k (map fst properties) ->
    fold_left
      (fun paramMap kv => <[fst kv := extractSchemaInfo isZero (snd kv)]> paramMap)
      properties m !! k = m !! k.
Proof.
  induction properties as [|[k0 v0] properties IH]; intros m Hfresh;
    cbn [fold_left fst snd]; [reflexivity|].
  cbn [map fst In] in Hfresh.
  rewrite IH by tauto. apply lookup_insert_ne. tauto.
Qed.

Lemma paramMapOf_fold_lookup (properties : list (jsstring * json))
    (k : jsstring) :
  forall m : gmap jsstring SchemaInfo,
    List.NoDup (map fst properties) ->
    fold_left
      (fun paramMap kv => <[fst kv := extractSchemaInfo isZero (snd kv)]> paramMap)
      properties m !! k
    = match JsObject.get properties k with
      | Some schema => Some (extractSchemaInfo isZero schema)
      | None => m !! k
      end.
Proof.
  induction properties as [|[k0 v0] properties IH]; intros m Hnd;
    cbn [fold_left fst snd JsObject.get]; [reflexivity|].
  cbn [map fst] in Hnd. inversion Hnd as [|? ? Hfresh Hnd']; subst.
  destruct (JsString.eqb k0 k) eqn:E.
  - apply jsstring_eqb_eq in E. subst k0.
    rewrite paramMapOf_fresh by exact Hfresh. apply lookup_insert_eq.
  - apply jsstring_eqb_neq in E. rewrite IH by exact Hnd'.
    destruct (JsObject.get properties k); [reflexivity|].
    apply lookup_insert_ne, E.
Qed.

Lemma paramMapOf_type (properties : list (jsstring * json)) (k : jsstring) :
  List.NoDup (map fst properties) ->
  match paramMapOf isZero properties !! k with
  | Some info => Some (type info)
  | None => None
  end
  = option_map declaredType (JsObject.get properties k).
Proof.
  intros Hnd. unfold paramMapOf. rewrite paramMapOf_fold_lookup by exact Hnd.
  destruct (JsObject.get properties k) as [schema|]; cbn [option_map].
  - rewrite extractSchemaInfo_type. reflexivity.
  - rewrite lookup_empty. reflexivity.
Qed.

End Extraction.

Lemma extractProperties_ext (recur recur' : json -> option SchemaInfo)
    (entries : list (jsstring * json)) :
  (forall kv, In kv entries -> recur (snd kv) = recur' (snd kv)) ->
  extractProperties recur entries = extractProperties recur' entries.
Proof.
  unfold extractProperties.
  generalize (Some (@nil (jsstring * SchemaInfo))).
  induction entries as [|kv entries IH]; intros acc Hrec; cbn [fold_left];
    [reflexivity|].
  rewrite (Hrec kv (or_introl eq_refl)). apply IH.
  intros kv' Hin. apply Hrec. right. exact Hin.
Qed.

(** Two stacks that both hold as many nested calls as the schema is
    deep give the same. *)
Lemma extract_enough (isZero : jsstring -> bool) (f1 : nat) :
  forall f2 schema,
    height schema <= f1 -> height schema <= f2 ->
    extract isZero f1 schema = extract isZero f2 schema.
Proof.
  induction f1 as [|f1 IH]; intros f2 schema H1 H2.
  - pose proof (height_pos schema). lia.
  - destruct f2 as [|f2]; [pose proof (height_pos schema); lia|].
    destruct schema as [| | | | |p]; try reflexivity.
    cbn [height] in H1, H2. cbn [extract].
    destruct (JsObject.get p (u "items")) as [items|] eqn:Ei.
    + apply get_height in Ei. rewrite (IH f2 items) by lia.
      destruct (JsObject.get p (u "properties")) as [[| | | | |entries]|] eqn:Ep;
        try reflexivity.
      apply get_height in Ep. cbn [height] in Ep.
      rewrite (extractProperties_ext (extract isZero f1) (extract isZero f2));
        [reflexivity|].
      intros kv Hin. apply IH.
      * apply (in_map (fun kv => height (snd kv))), list_max_In in Hin. lia.
      * apply (in_map (fun kv => height (snd kv))), list_max_In in Hin. lia.
    + destruct (JsObject.get p (u "properties")) as [[| | | | |entries]|] eqn:Ep;
        try reflexivity.
      apply get_height in Ep. cbn [height] in Ep.
      rewrite (extractProperties_ext (extract isZero f1) (extract isZero f2));
        [reflexivity|].
      intros kv Hin. apply IH.
      * apply (in_map (fun kv => height (snd kv))), list_max_In in Hin. lia.
      * apply (in_map (fun kv => height (snd kv))), list_max_In in Hin. lia.
Qed.

Lemma extract_at_height (isZero : jsstring -> bool) (schema : json)
    (stack : nat) :
  height schema <= stack ->
  extract isZero stack schema = Some (extractSchemaInfo isZero schema).
Proof.
  intros Hstack. pose proof (height_weight schema) as Hw.
  rewrite (extract_enough isZero stack (weight schema) schema Hstack Hw).
  unfold extractSchemaInfo.
  destruct (extract_total isZero (weight schema) schema) as [info [E _]];
    [lia|].
  rewrite E. reflexivity.
Qed.

Lemma extractSchemaInfo_shaped (isZero : jsstring -> bool) (schema : json) :
  shaped (extractSchemaInfo isZero schema).
Proof.
  unfold extractSchemaInfo.
  destruct (extract isZero (weight schema) schema) as [info|] eqn:E.
  - apply (extract_shaped isZero _ _ _ E).
  - cbn. tauto.
Qed.



(** X14. After [cacheToolSchemas], [getParamType] gives for a tool
    name and a parameter the type that the parameter's schema
    declares in the last declaration cached under that name, unknown
    when it declares none, and nothing for a parameter that this
    declaration does not have. *)
Theorem param_type_of_last_declaration (isZero : jsstring -> bool)
    (st : state) (tools : option json) (toolName paramName : jsstring)
    (d : jsstring * list (jsstring * json)) :
  List.find (cachedUnder toolName)
    (rev (omap declaredParameters (declarationsOf tools))) = Some d ->
  List.NoDup (map fst (snd d)) ->
  getParamType (cacheToolSchemas isZero st tools) toolName paramName
  = option_map declaredType (JsObject.get (snd d) paramName).
Proof.
  intros Hfind Hnd. unfold getParamType.
  rewrite cacheToolSchemas_fold, cache_fold_lookup, Hfind.
  apply paramMapOf_type, Hnd.
Qed.

Lemma param_type_of_last_declaration_witness :
  getParamType
    (cacheToolSchemas zeroToken emptyState
       (Some (JArray
          [JObject
             [(u "functionDeclarations",
               JArray
                 [JObject
                    [(u "name", JString (u "1abc"));
                     (u "parameters",
                      JObject
                        [(u "properties",
                          JObject
                            [(u "path", JObject [(u "type", JString (u "string"))]);
                             (u "tags", JObject [(u "type", JString (u "array"))])])])]])]])))
    (u "t_1abc") (u "tags")
  = Some (u "array").
Proof.
  apply (param_type_of_last_declaration zeroToken emptyState _ (u "t_1abc")
           (u "tags")
           (u "1abc",
            [(u "path", JObject [(u "type", JString (u "string"))]);
             (u "tags", JObject [(u "type", JString (u "array"))])])).
  - vm_compute. reflexivity.
  - cbn [snd map fst]. repeat constructor; cbn; intuition discriminate.
Defined.

(** ** Response bodies *)

Lemma candidateParts_forEach (body : json -> json) (candidate : json) :
  candidateParts (forEachPartOfCandidate body candidate)
  = map body (candidateParts candidate).
Proof.
  destruct candidate as [| | | | |c]; try reflexivity.
  cbn [forEachPartOfCandidate candidateParts].
  destruct (JsObject.get c (u "content")) as [[| | | | |content]|] eqn:Ec;
    cbn [candidateParts]; rewrite ?Ec; try reflexivity.
  destruct (JsObject.get content (u "parts")) as [[| | | |parts|]|] eqn:Ep;
    cbn [candidateParts]; rewrite ?Ec, ?Ep; try reflexivity.
  rewrite !get_set_eq. reflexivity.
Qed.

Lemma payloadParts_forEach (body : json -> json) (payload : json) :
  payloadParts (forEachPart body payload) = map body (payloadParts payload).
Proof.
  destruct payload as [| | | | |p]; try reflexivity.
  cbn [forEachPart payloadParts].
  destruct (JsObject.get p (u "candidates")) as [[| | | |candidates|]|] eqn:Ec;
    cbn [payloadParts]; rewrite ?Ec; try reflexivity.
  rewrite get_set_eq. clear Ec.
  induction candidates as [|c candidates IH]; [reflexivity|].
  cbn [map flat_map]. rewrite map_app, IH, candidateParts_forEach. reflexivity.
Qed.

Lemma forEachPartOfCandidate_fixed (body : json -> json) (candidate : json) :
  (forall part, In part (candidateParts candidate) -> body part = part) ->
  forEachPartOfCandidate body candidate = candidate.
Proof.
  destruct candidate as [| | | | |c]; try reflexivity.
  cbn [forEachPartOfCandidate candidateParts].
  destruct (JsObject.get c (u "content")) as [[| | | | |content]|] eqn:Ec;
    try reflexivity.
  destruct (JsObject.get content (u "parts")) as [[| | | |parts|]|] eqn:Ep;
    try reflexivity.
  intros Hfix.
  rewrite (map_ext_in body (fun x => x)) by exact Hfix. rewrite map_id.
  rewrite (set_get_id content _ _ Ep), (set_get_id c _ _ Ec). reflexivity.
Qed.

Lemma forEachPart_fixed (body : json -> json) (payload : json) :
  (forall part, In part (payloadParts payload) -> body part = part) ->
  forEachPart body payload = payload.
Proof.
  destruct payload as [| | | | |p]; try reflexivity.
  cbn [forEachPart payloadParts].
  destruct (JsObject.get p (u "candidates")) as [[| | | |candidates|]|] eqn:Ec;
    try reflexivity.
  intros Hfix.
  rewrite (map_ext_in (forEachPartOfCandidate body) (fun x => x)).
  - rewrite map_id, (set_get_id p _ _ Ec). reflexivity.
  - intros c Hc. apply forEachPartOfCandidate_fixed.
    intros part Hpart. apply Hfix, in_flat_map. exists c. split; assumption.
Qed.

Lemma callName_set_other (key key' : jsstring) (record : list (jsstring * json))
    (v : json) :
  key <> key' ->
  callName key' (JObject (JsObject.set record key v))
  = callName key' (JObject record).
Proof. intros Hne. cbn [callName]. rewrite get_set_ne by exact Hne. reflexivity. Qed.

Lemma callName_set_field (key field : jsstring)
    (record call : list (jsstring * json)) (v : json) :
  field <> u "name" ->
  JsObject.get record key = Some (JObject call) ->
  callName key (JObject (JsObject.set record key (JObject (JsObject.set call field v))))
  = callName key (JObject record).
Proof.
  intros Hne Hget. cbn [callName].
  rewrite get_set_eq, Hget, get_set_ne by exact Hne. reflexivity.
Qed.

Lemma callName_restoreName_same (st : state) (key : jsstring)
    (record : list (jsstring * json)) :
  callName key (JObject (restoreName st key record))
  = option_map (resolveOriginalToolName st) (callName key (JObject record)).
Proof.
  unfold restoreName. cbn [callName].
  destruct (JsObject.get record key) as [[| | | | |call]|] eqn:Ek;
    rewrite ?Ek; try reflexivity.
  destruct (JsObject.get call (u "name")) as [[| | |name| |]|] eqn:En;
    rewrite ?Ek, ?En; try reflexivity.
  rewrite !get_set_eq. reflexivity.
Qed.

Lemma callName_restoreName_other (st : state) (key key' : jsstring)
    (record : list (jsstring * json)) :
  key <> key' ->
  callName key' (JObject (restoreName st key record))
  = callName key' (JObject record).
Proof.
  intros Hne. unfold restoreName.
  destruct (JsObject.get record key) as [[| | | | |call]|]; try reflexivity.
  destruct (JsObject.get call (u "name")) as [[| | |name| |]|]; try reflexivity.
  apply callName_set_other, Hne.
Qed.

Lemma callName_unsanitizePart (st : state) (key : jsstring) (part : json) :
  callKey key ->
  callName key (unsanitizePart st part)
  = option_map (resolveOriginalToolName st) (callName key part).
Proof.
  intros Hkey. destruct part as [| | | | |record]; try reflexivity.
  cbn [unsanitizePart]. destruct Hkey as [->| ->].
  - rewrite callName_restoreName_other by discriminate.
    apply callName_restoreName_same.
  - rewrite callName_restoreName_same.
    rewrite callName_restoreName_other by discriminate. reflexivity.
Qed.

Lemma restoreName_fixed (st : state) (key : jsstring)
    (record : list (jsstring * json)) :
  (forall name, callName key (JObject record) = Some name ->
                resolveOriginalToolName st name = name) ->
  restoreName st key record = record.
Proof.
  unfold restoreName. cbn [callName].
  destruct (JsObject.get record key) as [[| | | | |call]|] eqn:Ek; try reflexivity.
  destruct (JsObject.get call (u "name")) as [[| | |name| |]|] eqn:En;
    try reflexivity.
  intros Hfix. rewrite (Hfix name eq_refl).
  rewrite (set_get_id call _ _ En), (set_get_id record _ _ Ek). reflexivity.
Qed.

Lemma unsanitizePart_fixed (st : state) (part : json) :
  (forall key name, callKey key -> callName key part = Some name ->
                    resolveOriginalToolName st name = name) ->
  unsanitizePart st part = part.
Proof.
  intros Hfix. destruct part as [| | | | |record]; try reflexivity.
  cbn [unsanitizePart].
  rewrite (restoreName_fixed st (u "functionCall") record).
  - rewrite (restoreName_fixed st (u "functionResponse") record); [reflexivity|].
    intros name. apply Hfix. right. reflexivity.
  - intros name. apply Hfix. left. reflexivity.
Qed.

Lemma callName_normalizePart (st : state) (key : jsstring) (part : json) :
  callKey key -> callName key (normalizePart st part) = callName key part.
Proof.
  intros Hkey. destruct part as [| | | | |record]; try reflexivity.
  cbn [normalizePart].
  assert (callName key (JObject (normalizeFunctionCall st record))
          = callName key (JObject record)) as Hcall.
  { unfold normalizeFunctionCall.
    destruct (JsObject.get record (u "functionCall")) as [[| | | | |call]|] eqn:Ek;
      try reflexivity.
    destruct (JsObject.get call (u "args")) as [beforeArgs|]; [|reflexivity].
    destruct (JsObject.get call (u "name")) as [[| | |name| |]|]; try reflexivity.
    destruct (JsString.eqb name []); [reflexivity|].
    destruct Hkey as [->| ->].
    - apply callName_set_field; [discriminate|exact Ek].
    - apply callName_set_other. discriminate. }
  rewrite <- Hcall. generalize (normalizeFunctionCall st record) as record1.
  intros record1. unfold normalizeFunctionResponse.
  destruct (JsObject.get record1 (u "functionResponse")) as [[| | | | |resp]|] eqn:Ek;
    try reflexivity.
  destruct (JsObject.get resp (u "response")) as [response|]; [|reflexivity].
  destruct Hkey as [->| ->].
  - apply callName_set_other. discriminate.
  - apply callName_set_field; [discriminate|exact Ek].
Qed.

(** X15. After argument normalization and the restoring of tool
    names, in this order as the client runs them, every part of every
    candidate carries under functionCall and under functionResponse
    the restored form of the name that it carried before, and no
    other part carries a name. *)
Theorem response_names_are_restored (st : state) (payload : json)
    (key : jsstring) :
  callKey key ->
  map (callName key)
    (payloadParts
       (unsanitizeToolNamesInResponseBody st
          (normalizeToolArgsInResponse st payload)))
  = map (fun part => option_map (resolveOriginalToolName st) (callName key part))
      (payloadParts payload).
Proof.
  intros Hkey.
  unfold unsanitizeToolNamesInResponseBody, normalizeToolArgsInResponse.
  rewrite !payloadParts_forEach, !map_map.
  apply map_ext. intros part.
  rewrite (callName_unsanitizePart st key _ Hkey).
  rewrite (callName_normalizePart st key _ Hkey). reflexivity.
Qed.

(** X16. Restoring tool names leaves the payload as it is when
    every name that a part carries is restored to itself, as with an
    empty map of restored names. *)
Theorem restoring_fixed_names_changes_nothing (st : state) (payload : json) :
  (forall key part name,
     callKey key -> In part (payloadParts payload) ->
     callName key part = Some name ->
     resolveOriginalToolName st name = name) ->
  unsanitizeToolNamesInResponseBody st payload = payload.
Proof.
  intros Hfix. apply forEachPart_fixed. intros part Hin.
  apply unsanitizePart_fixed. intros key name Hkey Hname.
  apply (Hfix key part name Hkey Hin Hname).
Qed.

(** X17. With a well-keyed map of restored names, restoring the
    tool names of a payload twice gives what restoring them once
    gives. *)
Theorem restoring_names_is_idempotent (st : state) (payload : json) :
  wellKeyed st ->
  unsanitizeToolNamesInResponseBody st
    (unsanitizeToolNamesInResponseBody st payload)
  = unsanitizeToolNamesInResponseBody st payload.
Proof.
  intros Hwk. apply forEachPart_fixed. intros part Hin.
  unfold unsanitizeToolNamesInResponseBody in Hin.
  rewrite payloadParts_forEach in Hin. apply in_map_iff in Hin.
  destruct Hin as [part0 [<- _]].
  apply unsanitizePart_fixed. intros key name Hkey.
  rewrite (callName_unsanitizePart st key _ Hkey).
  destruct (callName key part0) as [name0|]; [|discriminate].
  intros [= <-]. apply wellKeyed_resolve_fixed, Hwk.
Qed.

Lemma response_names_are_restored_witness :
  callKey (u "functionCall")
  /\ map (callName (u "functionCall"))
       (payloadParts
          (unsanitizeToolNamesInResponseBody exampleNames
             (normalizeToolArgsInResponse exampleNames examplePayload)))
     = [Some (u "1abc"); None; None].
Proof.
  split; [left; reflexivity|].
  rewrite (response_names_are_restored exampleNames examplePayload
             (u "functionCall") (or_introl eq_refl)).
  vm_compute. reflexivity.
Defined.

Lemma restoring_fixed_names_changes_nothing_witness :
  unsanitizeToolNamesInResponseBody emptyState examplePayload = examplePayload.
Proof.
  apply (restoring_fixed_names_changes_nothing emptyState examplePayload).
  intros key part name _ _ _. unfold resolveOriginalToolName.
  cbn [emptyState sanitizedToOriginalToolName]. rewrite lookup_empty.
  reflexivity.
Defined.

Lemma restoring_names_is_idempotent_witness :
  wellKeyed exampleNames
  /\ unsanitizeToolNamesInResponseBody exampleNames
       (unsanitizeToolNamesInResponseBody exampleNames examplePayload)
     = unsanitizeToolNamesInResponseBody exampleNames examplePayload.
Proof.
  assert (wellKeyed exampleNames) as H.
  { apply wellKeyed_sanitize. intros k v. cbn. rewrite lookup_empty.
    discriminate. }
  split; [exact H|].
  apply (restoring_names_is_idempotent exampleNames examplePayload H).
Defined.

(** ** Thought signatures of a response body *)

Lemma trimStart_blank (s : jsstring) :
  trimStart s = [] <-> forallb isTrimSpace s = true.
Proof.
  induction s as [|c s IH]; cbn [trimStart forallb]; [easy|].
  destruct (isTrimSpace c); cbn [andb]; [exact IH|easy].
Qed.

Lemma blank_spaces (s : jsstring) : blank s <-> forallb isTrimSpace s = true.
Proof.
  unfold blank, trim, trimEnd. split.
  - intros H. apply (f_equal (@rev N)) in H. rewrite rev_involutive in H.
    cbn [rev] in H. apply trimStart_blank in H.
    rewrite forallb_forall in H.
    pose proof (trimStart_head s) as Hh.
    destruct (trimStart s) as [|c t] eqn:E.
    + apply trimStart_blank, E.
    + rewrite (H c) in Hh; [discriminate|].
      apply in_rev. rewrite rev_involutive. left. reflexivity.
  - intros H. apply trimStart_blank in H. rewrite H. reflexivity.
Qed.

Lemma blank_app (a b : jsstring) : blank (a ++ b) <-> blank a /\ blank b.
Proof. rewrite !blank_spaces, forallb_app, andb_true_iff. reflexivity. Qed.

Lemma cacheSignatureOfPart_spec (family : AntigravityModelFamily)
    (sessionId : jsstring) (acc : thoughts) (part : json) :
  cacheSignatureOfPart family sessionId acc part
  = (fst acc ++ thoughtText part,
     if negb (JsString.eqb (signatureOf part) [])
        && Nat.ltb 0 (length (trim (fst acc ++ thoughtText part)))
     then cacheThoughtSignature (snd acc) family sessionId
            (fst acc ++ thoughtText part) (signatureOf part)
     else snd acc).
Proof.
  destruct acc as [buffer cache]. cbn [fst snd].
  destruct part as [| | | | |p]; cbn [cacheSignatureOfPart thoughtText signatureOf
    fst snd JsString.eqb negb andb]; rewrite ?app_nil_r; try reflexivity.
  assert ((if match JsObject.get p (u "thought") with
              | Some (JBool true) => true
              | _ => false
              end
              && negb (JsString.eqb
                         match JsObject.get p (u "text") with
                         | Some (JString t) => t
                         | _ => []
                         end [])
           then buffer ++ match JsObject.get p (u "text") with
                          | Some (JString t) => t
                          | _ => []
                          end
           else buffer)
          = buffer ++ match JsObject.get p (u "thought"),
                            JsObject.get p (u "text") with
                      | Some (JBool true), Some (JString text) => text
                      | _, _ => []
                      end) as ->.
  { destruct (JsObject.get p (u "thought")) as [[|[]| | | |]|];
      cbn [andb]; rewrite ?app_nil_r; try reflexivity.
    destruct (JsObject.get p (u "text")) as [[| | |[|c t]| |]|];
      cbn [JsString.eqb negb]; rewrite ?app_nil_r; reflexivity. }
  destruct (negb _ && _); reflexivity.
Qed.

Lemma thoughts_fold_buffer (family : AntigravityModelFamily)
    (sessionId : jsstring) (parts : list json) :
  forall acc,
    fst (fold_left (cacheSignatureOfPart family sessionId) parts acc)
    = fst acc ++ concat (map thoughtText parts).
Proof.
  induction parts as [|part parts IH]; intros acc; cbn [fold_left map concat].
  - rewrite app_nil_r. reflexivity.
  - rewrite IH, cacheSignatureOfPart_spec. cbn [fst]. rewrite app_assoc.
    reflexivity.
Qed.

Lemma blank_length (s : jsstring) :
  Nat.ltb 0 (length (trim s)) = false <-> blank s.
Proof.
  unfold blank. destruct (trim s); cbn; split; intros H; congruence.
Qed.

Lemma thoughts_fold_silent (family : AntigravityModelFamily)
    (sessionId : jsstring) (parts : list json) :
  forall acc,
    blank (fst acc ++ concat (map thoughtText parts))
    \/ List.Forall (fun part => signatureOf part = []) parts ->
    snd (fold_left (cacheSignatureOfPart family sessionId) parts acc) = snd acc.
Proof.
  induction parts as [|part parts IH]; intros acc H; cbn [fold_left]; [reflexivity|].
  rewrite IH, cacheSignatureOfPart_spec; cbn [fst snd map concat] in *.
  - destruct H as [H|H].
    + rewrite app_assoc in H. apply blank_app in H. destruct H as [H _].
      apply blank_length in H. rewrite H, andb_false_r. reflexivity.
    + inversion H as [|? ? Hs _]; subst. rewrite Hs. reflexivity.
  - rewrite cacheSignatureOfPart_spec. cbn [fst].
    destruct H as [H|H].
    + left. rewrite <- app_assoc. exact H.
    + right. inversion H; assumption.
Qed.

(** X18. The thought buffer after
    [cacheThoughtSignatureFromResponseBody] is the buffer before it
    followed by the texts of the thought parts of the first
    candidate, in order: it only grows, and caching a signature does
    not reset it. *)
Theorem thought_buffer_accumulates (family : AntigravityModelFamily)
    (sessionId : jsstring) (acc : thoughts) (payload : json) :
  fst (cacheThoughtSignatureFromResponseBody family sessionId acc payload)
  = fst acc ++ concat (map thoughtText (firstCandidateParts payload)).
Proof. apply thoughts_fold_buffer. Qed.

(** X19. A response body leaves the signature cache as it is when
    the thought text accumulated up to its end is blank, and when no
    part of its first candidate carries a signature. *)
Theorem no_signature_cached_without_thoughts (family : AntigravityModelFamily)
    (sessionId : jsstring) (acc : thoughts) (payload : json) :
  blank (fst (cacheThoughtSignatureFromResponseBody family sessionId acc payload))
  \/ List.Forall (fun part => signatureOf part = []) (firstCandidateParts payload) ->
  snd (cacheThoughtSignatureFromResponseBody family sessionId acc payload)
  = snd acc.
Proof.
  intros H. apply thoughts_fold_silent.
  destruct H as [H|H]; [left|right; exact H].
  unfold cacheThoughtSignatureFromResponseBody in H.
  rewrite thoughts_fold_buffer in H. exact H.
Qed.

Lemma no_signature_cached_without_thoughts_witness :
  snd (cacheThoughtSignatureFromResponseBody GeminiPro (u "s1") ([], ∅)
         (JObject
            [(u "candidates",
              JArray
                [JObject
                   [(u "content",
                     JObject
                       [(u "parts",
                         JArray
                           [JObject [(u "thoughtSignature", JString (u "sig"))]])])]])]))
  = ∅.
Proof.
  apply (no_signature_cached_without_thoughts GeminiPro (u "s1") ([], ∅)).
  left. vm_compute. reflexivity.
Defined.

(** X20. When a part of the first candidate carries a signature,
    the thought text accumulated up to and including that part is not
    blank, and no later part carries a signature, then after the call
    the cache gives that signature for that text. *)
Theorem signature_cached_under_accumulated_thoughts
    (family : AntigravityModelFamily) (sessionId : jsstring) (acc : thoughts)
    (payload : json) (before after : list json) (part : json) :
  firstCandidateParts payload = before ++ part :: after ->
  signatureOf part <> [] ->
  ~ blank (fst acc ++ concat (map thoughtText (before ++ [part]))) ->
  List.Forall (fun later => signatureOf later = []) after ->
  getCachedThoughtSignature
    (snd (cacheThoughtSignatureFromResponseBody family sessionId acc payload))
    family sessionId (fst acc ++ concat (map thoughtText (before ++ [part])))
  = Some (signatureOf part).
Proof.
  intros Hparts Hsig Hblank Hafter.
  unfold cacheThoughtSignatureFromResponseBody. rewrite Hparts.
  rewrite fold_left_app. cbn [fold_left].
  rewrite thoughts_fold_silent by (right; exact Hafter).
  rewrite cacheSignatureOfPart_spec, thoughts_fold_buffer. cbn [snd].
  rewrite map_app, concat_app in Hblank |- *. cbn [map concat] in Hblank |- *.
  rewrite app_nil_r in Hblank |- *. rewrite app_assoc in Hblank |- *.
  apply jsstring_eqb_neq in Hsig. rewrite Hsig. cbn [negb andb].
  destruct (Nat.ltb 0 (length (trim _))) eqn:E.
  - unfold getCachedThoughtSignature, cacheThoughtSignature.
    apply lookup_insert_eq.
  - apply blank_length in E. contradiction.
Qed.

Lemma signature_cached_under_accumulated_thoughts_witness :
  getCachedThoughtSignature
    (snd (cacheThoughtSignatureFromResponseBody GeminiPro (u "s1") ([], ∅)
            examplePayload))
    GeminiPro (u "s1") (u "hm")
  = Some (u "sig").
Proof.
  apply (signature_cached_under_accumulated_thoughts GeminiPro (u "s1") ([], ∅)
           examplePayload
           [JObject
              [(u "functionCall",
                JObject
                  [(u "name", JString (u "t_1abc"));
                   (u "args", JObject [(u "path", JString (u "a"))])])];
            JObject [(u "text", JString (u "hm")); (u "thought", JBool true)]]
           []
           (JObject [(u "thoughtSignature", JString (u "sig"))])).
  - reflexivity.
  - discriminate.
  - unfold blank. vm_compute. discriminate.
  - constructor.
Defined.

(** ** The stream adapter *)

Lemma filter_records (parts : list json) :
  List.Forall (fun part => isRecord (Some part) = true)
    (List.filter (fun part => isRecord (Some part)) parts).
Proof.
  induction parts as [|part parts IH]; cbn [List.filter]; [constructor|].
  destruct (isRecord (Some part)) eqn:E; [constructor; assumption|exact IH].
Qed.

Lemma filter_all {A} (f : A -> bool) (l : list A) :
  List.Forall (fun x => f x = true) l -> List.filter f l = l.
Proof.
  induction 1 as [|x l Hx _ IH]; cbn [List.filter]; [reflexivity|].
  rewrite Hx, IH. reflexivity.
Qed.

Lemma extractParts_records (payload : json) :
  List.Forall (fun part => isRecord (Some part) = true)
    (extractPartsFromUnknown payload).
Proof.
  destruct payload as [| | | | |p]; try constructor.
  cbn [extractPartsFromUnknown].
  destruct (JsObject.get p (u "candidates")) as [[| | | |[|[| | | | |first] ?]|]|];
    try constructor.
  destruct (JsObject.get first (u "content")) as [[| | | | |content]|];
    try constructor.
  destruct (JsObject.get content (u "parts")) as [[| | | |parts|]|];
    try constructor.
  apply filter_records.
Qed.

Lemma firstCandidateParts_build (parts : list json) (usage : option json) :
  firstCandidateParts (buildMinimalResponseFromParts parts usage) = parts.
Proof. reflexivity. Qed.

Lemma payloadParts_build (parts : list json) (usage : option json) :
  payloadParts (buildMinimalResponseFromParts parts usage) = parts.
Proof. cbn. apply app_nil_r. Qed.

Lemma extractParts_build (parts : list json) (usage : option json) :
  extractPartsFromUnknown (buildMinimalResponseFromParts parts usage)
  = List.filter (fun part => isRecord (Some part)) parts.
Proof. reflexivity. Qed.

Lemma forEachPart_build (body : json -> json) (parts : list json)
    (usage : option json) :
  forEachPart body (buildMinimalResponseFromParts parts usage)
  = buildMinimalResponseFromParts (map body parts) usage.
Proof. reflexivity. Qed.

Section AdapterProperties.

Variable isZero : jsstring -> bool.
Context {number : Type}.

Lemma sseEventToGenerateContentResponse_spec (event : Sse.SseEvent number) :
  sseEventToGenerateContentResponse isZero event
  = match eventParts event with
    | [] => None
    | _ :: _ =>
        Some (buildMinimalResponseFromParts (eventParts event)
                (extractUsageFromUnknown (parseJsonOrNull (Sse.data event))))
    end.
Proof.
  unfold sseEventToGenerateContentResponse, eventParts.
  destruct (parseJsonOrNull (Sse.data event)) as [| | | | |o];
    try (cbn [extractPartsFromUnknown]; destruct (negb _); reflexivity).
  reflexivity.
Qed.

Lemma adapted_spec (st : state) (family : AntigravityModelFamily)
    (sessionId : jsstring) (rawEvents : list (Sse.SseEvent number)) :
  forall acc,
    map payloadParts (fst (adapted isZero st family sessionId acc rawEvents))
    = map (map (fun part => unsanitizePart st (normalizePart st part)))
        (List.filter nonEmpty (map eventParts rawEvents))
    /\ snd (adapted isZero st family sessionId acc rawEvents)
       = fold_left (cacheSignatureOfPart family sessionId)
           (concat
              (map firstCandidateParts
                 (fst (adapted isZero st family sessionId acc rawEvents))))
           acc.
Proof.
  induction rawEvents as [|event rawEvents IH]; intros acc;
    cbn [adapted map List.filter]; [split; reflexivity|].
  rewrite sseEventToGenerateContentResponse_spec.
  destruct (eventParts event) as [|part parts] eqn:E; cbn [nonEmpty]; [apply IH|].
  unfold normalizeToolArgsInResponse, unsanitizeToolNamesInResponseBody.
  rewrite !forEachPart_build.
  set (acc1 := cacheThoughtSignatureFromResponseBody _ _ _ _).
  specialize (IH acc1).
  destruct (adapted isZero st family sessionId acc1 rawEvents) as [chunks acc2].
  cbn [fst snd map concat] in *. destruct IH as [IH1 IH2].
  rewrite payloadParts_build, firstCandidateParts_build, map_map, IH1.
  split; [reflexivity|].
  rewrite fold_left_app, IH2. f_equal. subst acc1.
  unfold cacheThoughtSignatureFromResponseBody.
  rewrite firstCandidateParts_build, map_map. reflexivity.
Qed.

End AdapterProperties.

(** X21. [sseEventToGenerateContentResponse] gives null exactly when
    the response in the data of the event has no record part in its
    first candidate; the chunk that it gives otherwise holds exactly
    these parts, as the parts of its only candidate. *)
Theorem adapter_chunk_holds_record_parts (isZero : jsstring -> bool)
    (number : Type) (event : Sse.SseEvent number) :
  match sseEventToGenerateContentResponse isZero event with
  | None => eventParts event = []
  | Some chunk =>
      eventParts event <> []
      /\ List.Forall (fun part => isRecord (Some part) = true) (eventParts event)
      /\ firstCandidateParts chunk = eventParts event
      /\ payloadParts chunk = eventParts event
      /\ extractPartsFromUnknown chunk = eventParts event
  end.
Proof.
  rewrite sseEventToGenerateContentResponse_spec.
  pose proof (extractParts_records (parseJsonOrNull (Sse.data event))) as Hrec.
  fold (eventParts event) in Hrec.
  destruct (eventParts event) as [|part parts] eqn:E; [reflexivity|].
  repeat split.
  - discriminate.
  - exact Hrec.
  - apply payloadParts_build.
  - rewrite extractParts_build. apply filter_all, Hrec.
Qed.

(** X22. The chunks that the adapted stream of [streamChat] yields
    hold, event by event and leaving out the events without parts,
    the record parts of the event after argument normalization and
    the restoring of tool names. *)
Theorem streamed_chunks_hold_processed_parts (isZero : jsstring -> bool)
    (number : Type) (st : state) (family : AntigravityModelFamily)
    (sessionId : jsstring) (acc : thoughts)
    (rawEvents : list (Sse.SseEvent number)) :
  map payloadParts (fst (adapted isZero st family sessionId acc rawEvents))
  = map (map (fun part => unsanitizePart st (normalizePart st part)))
      (List.filter nonEmpty (map eventParts rawEvents)).
Proof. apply adapted_spec. Qed.

(** X23. The thought buffer and the signature cache at the end of
    the adapted stream are those of one pass over the parts of all
    yielded chunks in order: the buffer is shared by the chunks of a
    stream. *)
Theorem streamed_thoughts_span_chunks (isZero : jsstring -> bool)
    (number : Type) (st : state) (family : AntigravityModelFamily)
    (sessionId : jsstring) (acc : thoughts)
    (rawEvents : list (Sse.SseEvent number)) :
  snd (adapted isZero st family sessionId acc rawEvents)
  = fold_left (cacheSignatureOfPart family sessionId)
      (concat
         (map firstCandidateParts
            (fst (adapted isZero st family sessionId acc rawEvents))))
      acc.
Proof. apply adapted_spec. Qed.

(** ** The two ways of unwrapping a response *)

Lemma find_record (items : list json) (x : json) :
  List.find (fun item => isRecord (Some item)) items = Some x ->
  exists o, x = JObject o.
Proof.
  intros H. apply find_some in H. destruct H as [_ H].
  destruct x; try discriminate. eauto.
Qed.

Lemma unwrap_record_agree (o : list (jsstring * json)) :
  unwrapRecord (Some (JObject o))
  = Some match JsObject.get o (u "response") with
         | Some (JObject response) => JObject response
         | _ => JObject o
         end
  <-> match JsObject.get o (u "response") with
      | None | Some (JObject _) => True
      | _ => False
      end.
Proof.
  cbn [unwrapRecord].
  destruct (JsObject.get o (u "response")) as [[| | | | |r]|];
    split; try easy.
Qed.

(** X24. For a body that parses, unwrapping it as the stream adapter
    does and as the client does for a response that is not streamed
    give the same value exactly when the response property of its
    envelope is absent or a record, and the body, if an array, holds
    a record. *)
Theorem unwrappings_agree_on_plain_envelopes (raw : jsstring) (parsed : json) :
  JSON_parse raw = Ok parsed ->
  unwrapAntigravityResponseBody (Some parsed) = Some (parseJsonOrNull raw)
  <-> plainEnvelope parsed.
Proof.
  intros Hparse. unfold parseJsonOrNull. rewrite Hparse.
  destruct parsed as [| | | |items|o];
    cbn [unwrapAntigravityResponseBody unwrapRecord plainEnvelope];
    try (split; [trivial|reflexivity]).
  - destruct (List.find _ items) as [x|] eqn:E.
    + destruct (find_record _ _ E) as [o ->]. apply unwrap_record_agree.
    + split; [discriminate|easy].
  - apply unwrap_record_agree.
Qed.

Lemma unwrappings_agree_on_plain_envelopes_witness :
  JSON_parse (dq "[{'response':{'candidates':[]}}]")
  = Ok (JArray
          [JObject [(u "response", JObject [(u "candidates", JArray [])])]])
  /\ (unwrapAntigravityResponseBody
        (Some (JArray
                 [JObject
                    [(u "response", JObject [(u "candidates", JArray [])])]]))
      = Some (parseJsonOrNull (dq "[{'response':{'candidates':[]}}]"))
      <-> plainEnvelope
            (JArray
               [JObject
                  [(u "response", JObject [(u "candidates", JArray [])])]])).
Proof.
  split; [vm_compute; reflexivity|].
  apply (unwrappings_agree_on_plain_envelopes
           (dq "[{'response':{'candidates':[]}}]")).
  vm_compute. reflexivity.
Defined.

(** ** The shape of a normalized function response *)

Lemma walkProps_total (g : json -> option json) (h : json -> json)
    (props : list (jsstring * json)) :
  (forall kv, In kv props -> g (snd kv) = Some (h (snd kv))) ->
  forall o,
    walkProps g props (Some o)
    = Some (fold_left (fun o kv => JsObject.assign o (fst kv) (h (snd kv)))
              props o).
Proof.
  unfold walkProps. induction props as [|kv props IH]; intros Hg o;
    cbn [fold_left]; [reflexivity|].
  rewrite (Hg kv (or_introl eq_refl)). apply IH.
  intros kv' Hin. apply Hg. right. exact Hin.
Qed.

(** X26. On a stack that holds as many nested calls as the object
    weighs, function-response normalization of an object with
    distinct keys returns an object that holds, under the same keys
    and in the same order, the normalized values of its properties,
    but for a property named __proto__, which is left out. *)
Theorem normalized_object_keeps_keys (props : list (jsstring * json))
    (stack : nat) :
  List.NoDup (map fst props) ->
  weight (JObject props) <= stack ->
  walk stack (JObject props)
  = Some
      (JObject
         (map (fun kv => (fst kv, recursivelyParseJsonStrings (snd kv)))
            (withoutProto props))).
Proof.
  intros Hnd Hstack. destruct stack as [|f]; [cbn in Hstack; lia|].
  change (weight (JObject props)) with (S (weightProps props)) in Hstack.
  cbn [walk].
  rewrite (walkProps_total _ recursivelyParseJsonStrings).
  - rewrite (fold_assign_distinct
               (fun kv => recursivelyParseJsonStrings (snd kv)) props [] Hnd).
    reflexivity.
  - intros kv Hin. apply walk_at_weight. apply weightProps_In in Hin. lia.
Qed.

Lemma normalized_object_keeps_keys_witness :
  List.NoDup
    (map fst
       [(u "a", JString (u "[1]")); (u "__proto__", JString (u "x"));
        (u "b", JNumber (u "2"))])
  /\ walk 12
       (JObject
          [(u "a", JString (u "[1]")); (u "__proto__", JString (u "x"));
           (u "b", JNumber (u "2"))])
     = Some
         (JObject [(u "a", JArray [JNumber (u "1")]); (u "b", JNumber (u "2"))]).
Proof.
  assert (H : List.NoDup
    (map fst
       [(u "a", JString (u "[1]")); (u "__proto__", JString (u "x"));
        (u "b", JNumber (u "2"))])).
  { repeat constructor; cbn; intuition discriminate. }
  split; [exact H|].
  rewrite (normalized_object_keeps_keys _ 12 H) by (vm_compute; lia).
  vm_compute. reflexivity.
Defined.

(** ** From the declared tools to the normalized arguments *)

Lemma normalizeToolCallArgs_by_entry (st : state) (toolName : jsstring)
    (props : list (jsstring * json)) :
  List.NoDup (map fst props) ->
  normalizeToolCallArgs st (JObject props) toolName
  = JObject
      (map (fun kv =>
              (fst kv,
               normalizedArgument (getParamType st toolName (fst kv)) (snd kv)))
         (withoutProto props)).
Proof.
  intros Hnd. unfold normalizeToolCallArgs. cbn [notAnObject entries]. f_equal.
  etransitivity;
    [|exact (fold_assign_distinct
               (fun kv => normalizedArgument (getParamType st toolName (fst kv))
                            (snd kv)) props [] Hnd)].
  clear Hnd. generalize (@nil (jsstring * json)).
  induction props as [|[k v] props IH]; intros acc; [reflexivity|].
  cbn [fold_left fst snd]. rewrite normalizeEntry_spec. apply IH.
Qed.

Lemma getParamType_cached (isZero : jsstring -> bool) (st : state)
    (tools : option json) (toolName paramName : jsstring)
    (d : jsstring * list (jsstring * json)) :
  List.find (cachedUnder toolName)
    (rev (omap declaredParameters (declarationsOf tools))) = Some d ->
  List.NoDup (map fst (snd d)) ->
  getParamType (cacheToolSchemas isZero st tools) toolName paramName
  = option_map declaredType (JsObject.get (snd d) paramName).
Proof.
  intros Hfind Hnd. unfold getParamType.
  rewrite cacheToolSchemas_fold, cache_fold_lookup, Hfind.
  apply paramMapOf_type, Hnd.
Qed.

(** X27. Once the tools are cached, the arguments object of a call
    is normalized argument by argument by the type that the schema of
    the parameter of that name declares in the last declaration
    cached under the tool name: the keys and their order are kept,
    but for an argument named __proto__, which is left out; a string
    under a parameter declared as array or object is parsed, and an
    argument without a parameter of its name is only cleaned of
    escape sequences. *)
Theorem declared_types_drive_normalization (isZero : jsstring -> bool)
    (st : state) (tools : option json) (toolName : jsstring)
    (d : jsstring * list (jsstring * json)) (props : list (jsstring * json)) :
  List.find (cachedUnder toolName)
    (rev (omap declaredParameters (declarationsOf tools))) = Some d ->
  List.NoDup (map fst (snd d)) ->
  List.NoDup (map fst props) ->
  normalizeToolCallArgs (cacheToolSchemas isZero st tools) (JObject props) toolName
  = JObject
      (map (fun kv =>
              (fst kv,
               normalizedArgument
                 (option_map declaredType (JsObject.get (snd d) (fst kv)))
                 (snd kv)))
         (withoutProto props)).
Proof.
  intros Hfind Hd Hprops.
  rewrite (normalizeToolCallArgs_by_entry _ _ _ Hprops). f_equal.
  apply map_ext. intros kv.
  rewrite (getParamType_cached isZero st tools toolName (fst kv) d Hfind Hd).
  reflexivity.
Qed.

Lemma declared_types_drive_normalization_witness :
  normalizeToolCallArgs
    (cacheToolSchemas zeroToken emptyState
       (Some (JArray
          [JObject
             [(u "functionDeclarations",
               JArray
                 [JObject
                    [(u "name", JString (u "1abc"));
                     (u "parameters",
                      JObject
                        [(u "properties",
                          JObject
                            [(u "path", JObject [(u "type", JString (u "string"))]);
                             (u "tags", JObject [(u "type", JString (u "array"))])])])]])]])))
    (JObject
       [(u "tags", JString (u "[1,2]")); (u "__proto__", JString (u "[4]"));
        (u "other", JString (u "[3]"))])
    (u "t_1abc")
  = JObject
      [(u "tags", JArray [JNumber (u "1"); JNumber (u "2")]);
       (u "other", JString (u "[3]"))].
Proof.
  rewrite (declared_types_drive_normalization zeroToken emptyState _ (u "t_1abc")
             (u "1abc",
              [(u "path", JObject [(u "type", JString (u "string"))]);
               (u "tags", JObject [(u "type", JString (u "array"))])])).
  - vm_compute. reflexivity.
  - vm_compute. reflexivity.
  - cbn [snd map fst]. repeat constructor; cbn; intuition discriminate.
  - cbn [map fst]. repeat constructor; cbn; intuition discriminate.
Defined.

(** ** The key of a thought signature *)

(** X28. The lookup of a thought signature ignores the white space
    around the thought text: a signature recorded under a text is
    returned for every text of the same family and session that is
    the same once trimmed. *)
Theorem signature_lookup_ignores_outer_space
    (cache : gmap jsstring jsstring) (family : AntigravityModelFamily)
    (sessionId text text' signature : jsstring) :
  trim text = trim text' ->
  getCachedThoughtSignature
    (cacheThoughtSignature cache family sessionId text signature)
    family sessionId text'
  = Some signature.
Proof.
  intros Htrim. unfold getCachedThoughtSignature, cacheThoughtSignature.
  replace (getSignatureKey family sessionId text')
    with (getSignatureKey family sessionId text).
  - apply lookup_insert_eq.
  - unfold getSignatureKey, keyInput, normalizeThoughtText.
    rewrite Htrim. reflexivity.
Qed.

Lemma signature_lookup_ignores_outer_space_witness :
  trim (u "hm ") = trim (u " hm")
  /\ getCachedThoughtSignature
       (cacheThoughtSignature ∅ GeminiPro (u "s1") (u "hm ") (u "sig"))
       GeminiPro (u "s1") (u " hm")
     = Some (u "sig").
Proof.
  assert (trim (u "hm ") = trim (u " hm")) as H by (vm_compute; reflexivity).
  split; [exact H|].
  apply (signature_lookup_ignores_outer_space ∅ GeminiPro (u "s1") (u "hm ")
           (u " hm") (u "sig") H).
Defined.
